(** * video-tools: the status-stream parser, the container helpers,
      the disc handle and the rip pipeline, embedded from the Python sources

    The development follows the repository file by file:
    - [Py]        the pieces of the Python runtime the sources lean on
                  (exceptions, [str] methods, [int()], insertion-ordered dicts);
    - [MakeMKV]   makemkv.py  ([MakeMKVMessage], [MakeMKVParser]);
    - [Container] container.py ([StreamData], [ChapterData], [Container]);
    - [Disc]      disc.py ([Disc.__init__], [Disc.query], the comparisons);
    - [Ripper]    ripper.py ([Ripper.__init__], [Ripper.rip],
                  [process_disc_devices], the duration limits of [main]).

    The vocabulary of the properties and the properties themselves
    follow, in the same order.

    Strings are sequences of code points below 256; integers are [Z]. *)

From Stdlib Require Import ZArith NArith List String Ascii Bool Lia.
From Stdlib Require Import QArith.
From Stdlib Require Import DecimalString.
From Stdlib Require DecimalPos.
From Stdlib Require Import Permutation Sorted.
Import ListNotations.

Open Scope string_scope.
Open Scope Z_scope.

(* ================================================================== *)
(** * Python runtime                                                   *)
(* ================================================================== *)

Module Py.

(** Exceptions: the class (for [except <Class>:]) and [str(e)]. *)
Inductive exn_class : Type :=
| ValueError
| ZeroDivisionError
| UnboundLocalError
| KeyError
| TypeError
| RuntimeError
| FileNotFoundError
| CalledProcessError
| OverflowError.

Record exn : Type := Raise { exn_cls : exn_class; exn_str : string }.

Definition exn_class_eqb (a b : exn_class) : bool :=
  match a, b with
  | ValueError, ValueError | ZeroDivisionError, ZeroDivisionError
  | UnboundLocalError, UnboundLocalError | KeyError, KeyError
  | TypeError, TypeError | RuntimeError, RuntimeError
  | FileNotFoundError, FileNotFoundError
  | CalledProcessError, CalledProcessError
  | OverflowError, OverflowError => true
  | _, _ => false
  end.

(** A computation that returns or raises. *)
Definition result (A : Type) : Type := (exn + A)%type.

Definition code (c : ascii) : N := N_of_ascii c.

(** The double quote and the line feed. *)
Definition dquote : ascii := ascii_of_N 34.

Definition newline : string := String (ascii_of_N 10) EmptyString.

(** [str.isspace] on code points below 256. *)
Definition isspace (c : ascii) : bool :=
  let n := code c in
  (((9 <=? n) && (n <=? 13)) || ((28 <=? n) && (n <=? 32))
   || (n =? 133) || (n =? 160))%N.

Fixpoint lstrip_with (sp : ascii -> bool) (s : string) : string :=
  match s with
  | EmptyString => EmptyString
  | String c s' => if sp c then lstrip_with sp s' else s
  end.

Fixpoint rstrip_with (sp : ascii -> bool) (s : string) : string :=
  match s with
  | EmptyString => EmptyString
  | String c s' =>
      match rstrip_with sp s' with
      | EmptyString => if sp c then EmptyString else String c EmptyString
      | r => String c r
      end
  end.

(** [s.strip()] *)
Definition strip (s : string) : string :=
  rstrip_with isspace (lstrip_with isspace s).

(** [s.split(sep, maxsplit)] for a one-character separator: the first
    field and the remaining fields; [limit = None] is "no limit". *)
Fixpoint split_fields (sep : ascii) (limit : option nat) (s : string)
  : string * list string :=
  match s with
  | EmptyString => (EmptyString, [])
  | String c s' =>
      let may_split :=
        match limit with Some O => false | _ => true end in
      if may_split && Ascii.eqb c sep then
        let limit' :=
          match limit with Some (S n) => Some n | l => l end in
        let (h, t) := split_fields sep limit' s' in
        (EmptyString, h :: t)
      else
        let (h, t) := split_fields sep limit s' in
        (String c h, t)
  end.

Definition split (s : string) (sep : ascii) (maxsplit : Z) : list string :=
  let limit := if maxsplit <? 0 then None else Some (Z.to_nat maxsplit) in
  let (h, t) := split_fields sep limit s in
  h :: t.

(** [s.replace(old, new)] for a one-character [old]. *)
Fixpoint replace (s : string) (old : ascii) (new : string) : string :=
  match s with
  | EmptyString => EmptyString
  | String c s' =>
      if Ascii.eqb c old then new ++ replace s' old new
      else String c (replace s' old new)
  end.

Fixpoint contains_char (c : ascii) (s : string) : bool :=
  match s with
  | EmptyString => false
  | String c' s' => Ascii.eqb c' c || contains_char c s'
  end.

(** [str(n)] for an integer. *)
Definition str_of_Z (z : Z) : string := NilZero.string_of_int (Z.to_int z).

Definition str_of_nat (n : nat) : string := str_of_Z (Z.of_nat n).

Definition hex_digit (n : N) : ascii :=
  ascii_of_N (if (n <? 10)%N then 48 + n else 87 + n)%N.

(** One character of [repr(s)], [q] being the quote in use. *)
Definition repr_char (q : ascii) (c : ascii) : string :=
  let n := code c in
  if Ascii.eqb c "\" then "\\"
  else if Ascii.eqb c q then String "\" (String q EmptyString)
  else if (n =? 9)%N then "\t"
  else if (n =? 10)%N then "\n"
  else if (n =? 13)%N then "\r"
  else if ((n <? 32) || ((127 <=? n) && (n <=? 160)) || (n =? 173))%N then
    String "\" (String "x" (String (hex_digit (n / 16))
                              (String (hex_digit (n mod 16)) EmptyString)))
  else String c EmptyString.

Fixpoint repr_body (q : ascii) (s : string) : string :=
  match s with
  | EmptyString => EmptyString
  | String c s' => repr_char q c ++ repr_body q s'
  end.

(** [repr(s)] *)
Definition repr (s : string) : string :=
  let q : ascii :=
    if contains_char "'" s && negb (contains_char dquote s)
    then dquote else "'"%char in
  String q (repr_body q s ++ String q EmptyString).

(** Whitespace [int()] skips around a literal. *)
Definition int_isspace (c : ascii) : bool :=
  let n := code c in
  (((9 <=? n) && (n <=? 13)) || (n =? 32) || (n =? 133) || (n =? 160))%N.

Definition digit_of (c : ascii) : option Z :=
  let n := code c in
  if ((48 <=? n) && (n <=? 57))%N then Some (Z.of_N n - 48) else None.

(** Digits with single underscores between them: the value and the
    number of digits. *)
Fixpoint digits_from (s : string) (acc : Z) (count : nat) (after_digit : bool)
  : option (Z * nat) :=
  match s with
  | EmptyString => if after_digit then Some (acc, count) else None
  | String c s' =>
      match digit_of c with
      | Some d => digits_from s' (10 * acc + d) (S count) true
      | None =>
          if Ascii.eqb c "_" && after_digit
          then digits_from s' acc count false
          else None
      end
  end.

Definition int_max_str_digits : nat := 4300.

(** [int(s)] in base 10. *)
Definition int (s : string) : result Z :=
  let body := rstrip_with int_isspace (lstrip_with int_isspace s) in
  let (negative, literal) :=
    match body with
    | String "+" r => (false, r)
    | String "-" r => (true, r)
    | _ => (false, body)
    end in
  match digits_from literal 0 0 false with
  | Some (v, n) =>
      if (int_max_str_digits <? n)%nat then
        inl (Raise ValueError
               ("Exceeds the limit (4300 digits) for integer string conversion: value has "
                ++ str_of_nat n
                ++ " digits; use sys.set_int_max_str_digits() to increase the limit"))
      else inr (if negative then - v else v)
  | None =>
      inl (Raise ValueError
             ("invalid literal for int() with base 10: " ++ repr s))
  end.

(** Unpacking a sequence into [expected] targets when [got] were there. *)
Definition not_enough_values (expected got : nat) : exn :=
  Raise ValueError
    ("not enough values to unpack (expected " ++ str_of_nat expected
     ++ ", got " ++ str_of_nat got ++ ")").

Definition too_many_values (expected : nat) : exn :=
  Raise ValueError
    ("too many values to unpack (expected " ++ str_of_nat expected ++ ")").

(** Scalars: what [==], [in] and dict keys compare.  An [IntEnum]
    member compares and hashes as its integer; a [str] never equals an
    integer. *)
Inductive atom : Type :=
| AInt (z : Z)
| AStr (s : string).

Definition atom_eqb (a b : atom) : bool :=
  match a, b with
  | AInt x, AInt y => Z.eqb x y
  | AStr x, AStr y => String.eqb x y
  | _, _ => false
  end.

(** [x in xs] *)
Definition contains (x : atom) (xs : list atom) : bool :=
  existsb (atom_eqb x) xs.

Definition repr_atom (a : atom) : string :=
  match a with
  | AInt z => str_of_Z z
  | AStr s => repr s
  end.

(** ** Insertion-ordered dictionaries *)
Section Dict.

Context {K V : Type} (eqb : K -> K -> bool).

Definition dict : Type := list (K * V).

Fixpoint dict_get (d : dict) (k : K) : option V :=
  match d with
  | [] => None
  | (k', v) :: d' => if eqb k' k then Some v else dict_get d' k
  end.

(** [k in d] *)
Definition dict_mem (d : dict) (k : K) : bool :=
  match dict_get d k with Some _ => true | None => false end.

(** [d[k] = v]: an existing key keeps its place, a new one goes last. *)
Fixpoint dict_set (d : dict) (k : K) (v : V) : dict :=
  match d with
  | [] => [(k, v)]
  | (k', v') :: d' =>
      if eqb k' k then (k', v) :: d' else (k', v') :: dict_set d' k v
  end.

(** [d.pop(k)] without a default: [None] is the [KeyError]. *)
Fixpoint dict_pop (d : dict) (k : K) : option dict :=
  match d with
  | [] => None
  | (k', v') :: d' =>
      if eqb k' k then Some d'
      else match dict_pop d' k with
           | Some r => Some ((k', v') :: r)
           | None => None
           end
  end.

Definition dict_keys (d : dict) : list K := map fst d.

End Dict.

(** ** Sorting

    [sorted(xs)] and [xs.sort()] are stable and only ask [a < b]. *)
Fixpoint insert_sorted {A} (lt : A -> A -> bool) (x : A) (l : list A)
  : list A :=
  match l with
  | [] => [x]
  | y :: l' => if lt y x then y :: insert_sorted lt x l' else x :: l
  end.

Definition sorted {A} (lt : A -> A -> bool) (l : list A) : list A :=
  fold_right (insert_sorted lt) [] l.

(** ** Code that mutates an object and may raise

    The object's state survives a raise: whatever was assigned before
    the failing step stays assigned. *)
Section Effects.

Context {S : Type}.

Definition M (A : Type) : Type := S -> result A * S.

Definition ret {A} (a : A) : M A := fun s => (inr a, s).

Definition bind {A B} (c : M A) (k : A -> M B) : M B :=
  fun s =>
    match c s with
    | (inr a, s') => k a s'
    | (inl e, s') => (inl e, s')
    end.

Definition raise {A} (e : exn) : M A := fun s => (inl e, s).

Definition lift {A} (r : result A) : M A := fun s => (r, s).

Definition gets {A} (f : S -> A) : M A := fun s => (inr (f s), s).

Definition modify (f : S -> S) : M unit := fun s => (inr tt, f s).

(** [try: body / except cls as e: handler e] *)
Definition try_except {A} (body : M A) (cls : exn_class) (handler : exn -> M A)
  : M A :=
  fun s =>
    match body s with
    | (inl e, s') =>
        if exn_class_eqb (exn_cls e) cls then handler e s' else (inl e, s')
    | ok => ok
    end.

(** [try: body / except Exception as e: handler e]; every class above
    derives from [Exception]. *)
Definition try_except_Exception {A} (body : M A) (handler : exn -> M A) : M A :=
  fun s =>
    match body s with
    | (inl e, s') => handler e s'
    | ok => ok
    end.

End Effects.

Arguments M : clear implicits.

(** ** Tuple unpacking

    [a, b = seq] raises [ValueError] unless [seq] has exactly as many
    items as there are targets. *)
Definition unpack_error {A} (expected : nat) (l : list A) : exn :=
  if (List.length l <? expected)%nat
  then not_enough_values expected (List.length l)
  else too_many_values expected.

Definition unpack2 {A} (l : list A) : result (A * A) :=
  match l with
  | [a; b] => inr (a, b)
  | _ => inl (unpack_error 2 l)
  end.

Definition unpack3 {A} (l : list A) : result (A * A * A) :=
  match l with
  | [a; b; c] => inr (a, b, c)
  | _ => inl (unpack_error 3 l)
  end.

Definition unpack4 {A} (l : list A) : result (A * A * A * A) :=
  match l with
  | [a; b; c; d] => inr (a, b, c, d)
  | _ => inl (unpack_error 4 l)
  end.

Definition unpack5 {A} (l : list A) : result (A * A * A * A * A) :=
  match l with
  | [a; b; c; d; e] => inr (a, b, c, d, e)
  | _ => inl (unpack_error 5 l)
  end.

Definition unpack6 {A} (l : list A) : result (A * A * A * A * A * A) :=
  match l with
  | [a; b; c; d; e; f] => inr (a, b, c, d, e, f)
  | _ => inl (unpack_error 6 l)
  end.

(** [a, b, c = map(f, seq)]: the iterator converts one item at a time,
    so a failing conversion of an earlier item is raised before a
    missing later item is noticed. *)
Definition unpack3_map {A B} (f : A -> result B) (l : list A)
  : result (B * B * B) :=
  match l with
  | [] => inl (not_enough_values 3 0)
  | a :: l1 =>
      match f a with
      | inl e => inl e
      | inr a' =>
          match l1 with
          | [] => inl (not_enough_values 3 1)
          | b :: l2 =>
              match f b with
              | inl e => inl e
              | inr b' =>
                  match l2 with
                  | [] => inl (not_enough_values 3 2)
                  | c :: l3 =>
                      match f c with
                      | inl e => inl e
                      | inr c' =>
                          match l3 with
                          | [] => inr (a', b', c')
                          | d :: _ =>
                              match f d with
                              | inl e => inl e
                              | inr _ => inl (too_many_values 3)
                              end
                          end
                      end
                  end
              end
          end
      end
  end.

(** ** Looping over a dict

    [for k in d: body] walks the keys present when the loop starts;
    every step, the last one that finds nothing left included, first
    checks that the dict still has its initial size. *)
Section ForInDict.

Context {S K V A : Type} (the_dict : S -> dict (K:=K) (V:=V)).

Definition check_size (n0 : nat) : M S unit :=
  fun s =>
    if (List.length (the_dict s) =? n0)%nat then (inr tt, s)
    else (inl (Raise RuntimeError "dictionary changed size during iteration"),
          s).

Fixpoint iterate_keys (n0 : nat) (keys : list K) (body : K -> A -> M S A)
  (acc : A) : M S A :=
  match keys with
  | [] => bind (check_size n0) (fun _ => ret acc)
  | k :: rest =>
      bind (check_size n0) (fun _ =>
      bind (body k acc) (fun acc' =>
      iterate_keys n0 rest body acc'))
  end.

Definition for_in_dict (body : K -> A -> M S A) (acc : A) : M S A :=
  fun s =>
    iterate_keys (List.length (the_dict s)) (dict_keys (the_dict s)) body acc s.

End ForInDict.

(** ** Lists *)

(** [l.remove(x)] *)
Fixpoint list_remove {A} (eqb : A -> A -> bool) (l : list A) (x : A)
  : result (list A) :=
  match l with
  | [] => inl (Raise ValueError "list.remove(x): x not in list")
  | y :: l' =>
      if eqb y x then inr l'
      else match list_remove eqb l' x with
           | inl e => inl e
           | inr r => inr (y :: r)
           end
  end.

(** [l.count(x)] *)
Fixpoint list_count {A} (eqb : A -> A -> bool) (l : list A) (x : A) : nat :=
  match l with
  | [] => O
  | y :: l' => (if eqb y x then 1 else 0) + list_count eqb l' x
  end.

(** [list(set(l))].  A set lists its items in an unspecified order;
    here each item stands where it first occurred. *)
Fixpoint list_of_set {A} (eqb : A -> A -> bool) (l : list A) : list A :=
  match l with
  | [] => []
  | x :: l' => x :: filter (fun y => negb (eqb y x)) (list_of_set eqb l')
  end.

(** ** pathlib

    A [Path] is its [parts]; an absolute POSIX path starts with the
    part ["/"]. *)
Definition Path : Type := list string.

Definition is_absolute (p : Path) : bool :=
  match p with
  | "/" :: _ => true
  | _ => false
  end.

Fixpoint path_eqb (a b : Path) : bool :=
  match a, b with
  | [], [] => true
  | x :: a', y :: b' => String.eqb x y && path_eqb a' b'
  | _, _ => false
  end.

(** [a < b] on paths: their parts, compared as lists of strings. *)
Fixpoint path_ltb (a b : Path) : bool :=
  match a, b with
  | _, [] => false
  | [], _ :: _ => true
  | x :: a', y :: b' =>
      if String.eqb x y then path_ltb a' b' else String.ltb x y
  end.

(** [p.name] *)
Definition name (p : Path) : string :=
  match p with
  | ["/"] => EmptyString
  | _ => last p EmptyString
  end.

(** [s.rfind(c)], counting from [i]. *)
Fixpoint rfind (c : ascii) (s : string) (i : nat) : option nat :=
  match s with
  | EmptyString => None
  | String c' s' =>
      match rfind c s' (Datatypes.S i) with
      | Some j => Some j
      | None => if Ascii.eqb c' c then Some i else None
      end
  end.

(** [p.stem] *)
Definition stem (p : Path) : string :=
  let name := name p in
  match rfind "." name 0 with
  | Some i =>
      if ((0 <? i) && (i <? String.length name - 1))%nat
      then String.substring 0 i name
      else name
  | None => name
  end.

(** [p.joinpath(s)] for a string without a slash. *)
Definition joinpath (p : Path) (s : string) : Path :=
  if String.eqb s EmptyString then p else (p ++ [s])%list.

(** What the file system answers about a path. *)
Record FileSystem : Type := {
  cwd : Path;
  is_symlink : Path -> bool;
  is_block_device : Path -> bool;
  resolve : Path -> Path
}.

(** [p.absolute()] *)
Definition absolute (fs : FileSystem) (p : Path) : Path :=
  if is_absolute p then p else (cwd fs ++ p)%list.

(** ** Floats

    [float(s)] and true division are taken as an interface: the parser
    only stores their results. *)
Class PyFloat : Type := {
  float : Type;
  float_of_str : string -> result float;
  float_truediv : float -> float -> result float
}.

(** An exact stand-in used to run the parser on concrete lines: plain
    decimal literals read as rationals, division exact.  It is not
    binary64; nothing proved below depends on it. *)
Definition decimal_of_str (s : string) : result Q :=
  let body := strip s in
  let (negative, literal) :=
    match body with
    | String "+" r => (false, r)
    | String "-" r => (true, r)
    | _ => (false, body)
    end in
  let bad :=
    Raise ValueError ("could not convert string to float: " ++ repr s) in
  let signed (q : Q) : Q := if negative then Qopp q else q in
  match split literal "." 1 with
  | [i] =>
      match digits_from i 0 0 false with
      | Some (v, _) => inr (signed (v # 1))
      | None => inl bad
      end
  | [i; f] =>
      match digits_from i 0 0 false, digits_from f 0 0 false with
      | Some (v, _), Some (w, n) =>
          let scale := 10 ^ Z.of_nat n in
          inr (signed ((v * scale + w) # Z.to_pos scale))
      | _, _ => inl bad
      end
  | _ => inl bad
  end.

Definition exact_truediv (a b : Q) : result Q :=
  if Qeq_bool b 0 then inl (Raise ZeroDivisionError "float division by zero")
  else inr (a / b)%Q.

#[global] Instance exact_float : PyFloat :=
  {| float := Q; float_of_str := decimal_of_str; float_truediv := exact_truediv |}.

(** ** binary64 next to [int]

    Where the program multiplies an [int] by a float and compares the
    product with an [int], the double is held as the dyadic rational it
    denotes, [significand * 2 ^ exponent].  A product at or beyond
    [2 ^ 1024] in size stands for the infinity of its sign. *)
Record binary64 : Type := { significand : Z; exponent : Z }.

(** [n / 2 ^ shift] rounded to the nearest integer, ties to even. *)
Definition round_half_even (n shift : Z) : Z :=
  let q := n / 2 ^ shift in
  let r := n mod 2 ^ shift in
  let half := 2 ^ (shift - 1) in
  if r <? half then q
  else if half <? r then q + 1
  else if Z.even q then q else q + 1.

(** [n * 2 ^ e] rounded to 53 significant bits, or to a multiple of
    [2 ^ -1074] where that is coarser. *)
Definition round53 (n e : Z) : binary64 :=
  let shift := Z.max (Z.log2 (Z.abs n) + 1 - 53) (- 1074 - e) in
  if shift <=? 0 then {| significand := n; exponent := e |}
  else {| significand := round_half_even n shift; exponent := e + shift |}.

(** The value is [2 ^ 1024] or more in size. *)
Definition is_inf (f : binary64) : bool :=
  if 1024 <? exponent f then negb (significand f =? 0)
  else 2 ^ (1024 - exponent f) <=? Z.abs (significand f).

(** The literal [0.9]: [(0.9).hex()] is [0x1.ccccccccccccdp-1]. *)
Definition float_0_9 : binary64 :=
  {| significand := 8106479329266893; exponent := -53 |}.

(** [float(n)], as the multiplication converts its [int] operand. *)
Definition float_of_int (n : Z) : result binary64 :=
  let f := round53 n 0 in
  if is_inf f
  then inl (Raise OverflowError "int too large to convert to float")
  else inr f.

Definition float_mul (a b : binary64) : binary64 :=
  round53 (significand a * significand b) (exponent a + exponent b).

(** [n * f] for an [int] [n] and a float [f]. *)
Definition int_mul_float (n : Z) (f : binary64) : result binary64 :=
  match float_of_int n with
  | inl e => inl e
  | inr a => inr (float_mul a f)
  end.

(** [d < f] for an [int] [d] and a float [f]: Python compares the two
    values exactly. *)
Definition int_lt_float (d : Z) (f : binary64) : bool :=
  if is_inf f then 0 <? significand f
  else if 0 <=? exponent f
       then d <? significand f * 2 ^ exponent f
       else d * 2 ^ (- exponent f) <? significand f.

End Py.

Declare Scope py_scope.
Delimit Scope py_scope with py.

Notation "x <- c ;; k" := (Py.bind c (fun x => k))
  (at level 61, c at next level, right associativity) : py_scope.
Notation "' pat <- c ;; k" :=
  (Py.bind c (fun x => match x with pat => k end))
  (at level 61, pat pattern, c at next level, right associativity) : py_scope.
Notation "c ;; k" := (Py.bind c (fun _ => k))
  (at level 61, right associativity) : py_scope.

(* ================================================================== *)
(** * makemkv.py                                                       *)
(* ================================================================== *)

Module MakeMKV.

Import Py.

(** ** [MakeMKVMessage]: tags and enumerations *)
Module MakeMKVMessage.

Definition PRGV : string := "PRGV".
Definition DRV : string := "DRV".
Definition MSG : string := "MSG".
Definition PRGT : string := "PRGT".
Definition PRGC : string := "PRGC".
Definition CINFO : string := "CINFO".
Definition SINFO : string := "SINFO".
Definition TINFO : string := "TINFO".
Definition TCOUNT : string := "TCOUNT".

Module UI_MSG.

Definition YES : Z := 0.
Definition NO : Z := 1.
Definition STREAM_AV_SYNC_ISSUE : Z := 16.
Definition DEBUG : Z := 32.
Definition HIDDEN : Z := 64.
Definition EVENT : Z := 128.
Definition BOX_OK : Z := 260.
Definition BOX_ERROR : Z := 516.
Definition BOX_YES_NO : Z := 776.
Definition BOX_WARNING : Z := 1028.
Definition BOX_YES_NO_ERR : Z := 1288.
Definition BOX_YES_NO_REG : Z := 1544.
Definition BOX_MASK : Z := 3854.
Definition VT_ITEM_BASE : Z := 5200.
Definition HAVE_URL : Z := 131072.
Definition FILE_AV_SYNC_ISSUES : Z := 131088.
Definition TITLE_SKIP_MIN_LENGTH : Z := 16777216.
Definition READ_ERRORS : Z := 16908288.

Definition values : list Z :=
  [YES; NO; STREAM_AV_SYNC_ISSUE; DEBUG; HIDDEN; EVENT; BOX_OK;
   BOX_ERROR; BOX_YES_NO; BOX_WARNING; BOX_YES_NO_ERR; BOX_YES_NO_REG;
   BOX_MASK; VT_ITEM_BASE; HAVE_URL; FILE_AV_SYNC_ISSUES;
   TITLE_SKIP_MIN_LENGTH; READ_ERRORS].

End UI_MSG.

Module MSG_CODE.

Definition ITEM_INFO : Z := 0.
Definition LIBMKV_TRACE : Z := 1002.
Definition MAKEMKV_VERSION : Z := 1005.
Definition USING_LIBREDRIVE_MODE : Z := 1011.
Definition UDF_NODE_FAILED : Z := 1012.
Definition SCSI_ERROR : Z := 2003.
Definition READ_FASTER_THAN_WRITE : Z := 2008.
Definition HASH_CHECK_ERROR : Z := 2023.
Definition BAD_BACKUP_OFFSET : Z := 3002.
Definition USING_DIRECT_ACCESS_MODE : Z := 3007.
Definition TITLE_SKIP : Z := 3025.
Definition TITLE_DVD_ADDED : Z := 3028.
Definition CELLS_REMOVED : Z := 3037.
Definition TITLE_END_CELLS_REMOVED : Z := 3038.
Definition OPENING_DVD_DISC : Z := 3100.
Definition PROCESSING_TITLE_SETS : Z := 3102.
Definition PROCESSING_TITLES : Z := 3103.
Definition DECRYPTING_DVD_DATA : Z := 3104.
Definition SCANNING_CONTENTS : Z := 3120.
Definition TITLE_BD_ADDED : Z := 3307.
Definition DUPLICATE_TITLE_SKIPPED : Z := 3309.
Definition USING_JAVA_RUNTIME : Z := 3344.
Definition PROCESSING_AV_CLIPS : Z := 3400.
Definition PROCESSING_MOVIE_PLAYLISTS : Z := 3401.
Definition DECRYPTING_BD_DATA : Z := 3402.
Definition OPENING_BLURAY_DISC : Z := 3404.
Definition PROCESSING_BD_PLUS_CODE : Z := 3406.
Definition CORRUPT_SOURCE_FILE : Z := 4004.
Definition TITLE_AV_SYNC_ISSUE : Z := 4007.
Definition STREAM_AV_SYNC_ISSUE : Z := 4008.
Definition TOO_MANY_AV_SYNC_ISSUES : Z := 4009.
Definition TRACK_AV_SYNC_ISSUE : Z := 4047.
Definition ASK_OVERWRITE_FILE : Z := 5001.
Definition TITLE_SAVE_FAIL : Z := 5003.
Definition TITLES_SAVE_FAIL : Z := 5004.
Definition EVENT : Z := 5005.
Definition DISC_OPEN_FAIL : Z := 5010.
Definition OPERATION_COMPLETE : Z := 5011.
Definition SAVING_IN_DIR : Z := 5014.
Definition SAVING_TO_MKV_FILE : Z := 5017.
Definition SCANNING_CDROM_DEVICES : Z := 5018.
Definition SAVING_TITLES_TO_MKV_FILES : Z := 5024.
Definition COPY_COMPLETE : Z := 5036.
Definition COPY_COMPLETE_TITLES_FAILED : Z := 5037.
Definition EVALUATION_PERIOD_EXPIRED : Z := 5051.
Definition EVALUATION_PERIOD_EXPIRED_FREE_FUNC_ONLY : Z := 5052.
Definition EVALUATION_PERIOD_EXPIRED_X_DAYS_AGO : Z := 5054.
Definition EVALUATION_PERIOD_EXPIRED_NO_SHARE_FUNC : Z := 5055.
Definition ANALYZING_SEAMLESS_SEGMENTS : Z := 5057.
Definition HASH_CHECK_FAILURE : Z := 5076.
Definition TOO_MANY_HASH_CHECK_FAILURES : Z := 5077.
Definition LOADED_CONTENT_HASH_TABLE : Z := 5085.
Definition LOSSLESS_CONVERSION : Z := 5088.
Definition AUDIO_STEREO : Z := 5091.
Definition AUDIO_SURROUND : Z := 5092.
Definition ITEMINFO_SOURCE : Z := 6119.
Definition ITEMINFO_TITLE : Z := 6120.
Definition ITEMINFO_TRACK : Z := 6121.
Definition TRACK_VIDEO : Z := 6201.
Definition TRACK_AUDIO : Z := 6202.
Definition TRACK_SUBTITLES : Z := 6203.
Definition TYPE_DVD : Z := 6206.
Definition TYPE_BD : Z := 6209.
Definition TYPE_HDDVD : Z := 6212.

Definition values : list Z :=
  [ITEM_INFO; LIBMKV_TRACE; MAKEMKV_VERSION; USING_LIBREDRIVE_MODE;
   UDF_NODE_FAILED; SCSI_ERROR; READ_FASTER_THAN_WRITE;
   HASH_CHECK_ERROR; BAD_BACKUP_OFFSET; USING_DIRECT_ACCESS_MODE;
   TITLE_SKIP; TITLE_DVD_ADDED; CELLS_REMOVED; TITLE_END_CELLS_REMOVED;
   OPENING_DVD_DISC; PROCESSING_TITLE_SETS; PROCESSING_TITLES;
   DECRYPTING_DVD_DATA; SCANNING_CONTENTS; TITLE_BD_ADDED;
   DUPLICATE_TITLE_SKIPPED; USING_JAVA_RUNTIME; PROCESSING_AV_CLIPS;
   PROCESSING_MOVIE_PLAYLISTS; DECRYPTING_BD_DATA; OPENING_BLURAY_DISC;
   PROCESSING_BD_PLUS_CODE; CORRUPT_SOURCE_FILE; TITLE_AV_SYNC_ISSUE;
   STREAM_AV_SYNC_ISSUE; TOO_MANY_AV_SYNC_ISSUES; TRACK_AV_SYNC_ISSUE;
   ASK_OVERWRITE_FILE; TITLE_SAVE_FAIL; TITLES_SAVE_FAIL; EVENT;
   DISC_OPEN_FAIL; OPERATION_COMPLETE; SAVING_IN_DIR;
   SAVING_TO_MKV_FILE; SCANNING_CDROM_DEVICES;
   SAVING_TITLES_TO_MKV_FILES; COPY_COMPLETE;
   COPY_COMPLETE_TITLES_FAILED; EVALUATION_PERIOD_EXPIRED;
   EVALUATION_PERIOD_EXPIRED_FREE_FUNC_ONLY;
   EVALUATION_PERIOD_EXPIRED_X_DAYS_AGO;
   EVALUATION_PERIOD_EXPIRED_NO_SHARE_FUNC; ANALYZING_SEAMLESS_SEGMENTS;
   HASH_CHECK_FAILURE; TOO_MANY_HASH_CHECK_FAILURES;
   LOADED_CONTENT_HASH_TABLE; LOSSLESS_CONVERSION; AUDIO_STEREO;
   AUDIO_SURROUND; ITEMINFO_SOURCE; ITEMINFO_TITLE; ITEMINFO_TRACK;
   TRACK_VIDEO; TRACK_AUDIO; TRACK_SUBTITLES; TYPE_DVD; TYPE_BD;
   TYPE_HDDVD].

End MSG_CODE.

Module DISC_FLAG.

Definition UNKNOWN : Z := 0.
Definition DVD : Z := 1.
Definition HD_DVD : Z := 2.
Definition BD : Z := 4.
Definition AACS : Z := 8.
Definition BDSVM : Z := 16.

Definition values : list Z :=
  [UNKNOWN; DVD; HD_DVD; BD; AACS; BDSVM].

End DISC_FLAG.

Module DRIVE_STATE.

Definition EMPTY_CLOSED : Z := 0.
Definition EMPTY_OPEN : Z := 1.
Definition INSERTED : Z := 2.
Definition LOADING : Z := 3.
Definition NO_DRIVE : Z := 256.
Definition UNMOUNTING : Z := 257.

Definition values : list Z :=
  [EMPTY_CLOSED; EMPTY_OPEN; INSERTED; LOADING; NO_DRIVE; UNMOUNTING].

End DRIVE_STATE.

Module ATTR_ID.

Definition Unknown : Z := 0.
Definition Type_ : Z := 1.
Definition Name : Z := 2.
Definition LangCode : Z := 3.
Definition LangName : Z := 4.
Definition CodecId : Z := 5.
Definition CodecShort : Z := 6.
Definition CodecLong : Z := 7.
Definition ChapterCount : Z := 8.
Definition Duration : Z := 9.
Definition DiskSize : Z := 10.
Definition DiskSizeBytes : Z := 11.
Definition StreamTypeExtension : Z := 12.
Definition Bitrate : Z := 13.
Definition AudioChannelsCount : Z := 14.
Definition AngleInfo : Z := 15.
Definition SourceFileName : Z := 16.
Definition AudioSampleRate : Z := 17.
Definition AudioSampleSize : Z := 18.
Definition VideoSize : Z := 19.
Definition VideoAspectRatio : Z := 20.
Definition VideoFrameRate : Z := 21.
Definition StreamFlags : Z := 22.
Definition DateTime : Z := 23.
Definition OriginalTitleId : Z := 24.
Definition SegmentsCount : Z := 25.
Definition SegmentsMap : Z := 26.
Definition OutputFileName : Z := 27.
Definition MetadataLanguageCode : Z := 28.
Definition MetadataLanguageName : Z := 29.
Definition TreeInfo : Z := 30.
Definition PanelTitle : Z := 31.
Definition VolumeName : Z := 32.
Definition OrderWeight : Z := 33.
Definition OutputFormat : Z := 34.
Definition OutputFormatDescription : Z := 35.
Definition SeamlessInfo : Z := 36.
Definition PanelText : Z := 37.
Definition MkvFlags : Z := 38.
Definition MkvFlagsText : Z := 39.
Definition AudioChannelLayoutName : Z := 40.
Definition OutputCodecShort : Z := 41.
Definition OutputConversionType : Z := 42.
Definition OutputAudioSampleRate : Z := 43.
Definition OutputAudioSampleSize : Z := 44.
Definition OutputAudioChannelsCount : Z := 45.
Definition OutputAudioChannelLayoutName : Z := 46.
Definition OutputAudioChannelLayout : Z := 47.
Definition OutputAudioMixDescription : Z := 48.
Definition Comment : Z := 49.
Definition OffsetSequenceId : Z := 50.

Definition values : list Z :=
  [Unknown; Type_; Name; LangCode; LangName; CodecId; CodecShort;
   CodecLong; ChapterCount; Duration; DiskSize; DiskSizeBytes;
   StreamTypeExtension; Bitrate; AudioChannelsCount; AngleInfo;
   SourceFileName; AudioSampleRate; AudioSampleSize; VideoSize;
   VideoAspectRatio; VideoFrameRate; StreamFlags; DateTime;
   OriginalTitleId; SegmentsCount; SegmentsMap; OutputFileName;
   MetadataLanguageCode; MetadataLanguageName; TreeInfo; PanelTitle;
   VolumeName; OrderWeight; OutputFormat; OutputFormatDescription;
   SeamlessInfo; PanelText; MkvFlags; MkvFlagsText;
   AudioChannelLayoutName; OutputCodecShort; OutputConversionType;
   OutputAudioSampleRate; OutputAudioSampleSize;
   OutputAudioChannelsCount; OutputAudioChannelLayoutName;
   OutputAudioChannelLayout; OutputAudioMixDescription; Comment;
   OffsetSequenceId].

End ATTR_ID.

Definition MSG_CODE_ERRORS : list Z :=
  [MSG_CODE.LIBMKV_TRACE;
   MSG_CODE.UDF_NODE_FAILED;
   MSG_CODE.SCSI_ERROR;
   MSG_CODE.HASH_CHECK_ERROR;
   MSG_CODE.CORRUPT_SOURCE_FILE;
   MSG_CODE.TOO_MANY_AV_SYNC_ISSUES;
   MSG_CODE.TITLE_SAVE_FAIL;
   MSG_CODE.TITLES_SAVE_FAIL;
   MSG_CODE.DISC_OPEN_FAIL;
   MSG_CODE.COPY_COMPLETE_TITLES_FAILED;
   MSG_CODE.EVALUATION_PERIOD_EXPIRED_FREE_FUNC_ONLY;
   MSG_CODE.EVALUATION_PERIOD_EXPIRED_NO_SHARE_FUNC;
   MSG_CODE.HASH_CHECK_FAILURE;
   MSG_CODE.TOO_MANY_HASH_CHECK_FAILURES].

Definition MSG_CODE_SUCCESS : list Z := [MSG_CODE.OPERATION_COMPLETE].

(** Calling an [IntEnum] class on an integer: the member, or
    [ValueError]. *)
Definition enum_call (qualname : string) (values : list Z) (x : Z) : result Z :=
  if existsb (Z.eqb x) values then inr x
  else inl (Raise ValueError
              (str_of_Z x ++ " is not a valid " ++ qualname)).

Definition UI_MSG_call : Z -> result Z :=
  enum_call "MakeMKVMessage.UI_MSG" UI_MSG.values.

Definition MSG_CODE_call : Z -> result Z :=
  enum_call "MakeMKVMessage.MSG_CODE" MSG_CODE.values.

Definition DISC_FLAG_call : Z -> result Z :=
  enum_call "MakeMKVMessage.DISC_FLAG" DISC_FLAG.values.

Definition DRIVE_STATE_call : Z -> result Z :=
  enum_call "MakeMKVMessage.DRIVE_STATE" DRIVE_STATE.values.

Definition ATTR_ID_call : Z -> result Z :=
  enum_call "MakeMKVMessage.ATTR_ID" ATTR_ID.values.

End MakeMKVMessage.

(** ** [MakeMKVParser] *)

(** A stream's attributes, the streams of a title, and a title: a dict
    whose keys are [ATTR_ID] members and the string ["streams"]. *)
Definition stream_attrs : Type := dict (K:=atom) (V:=atom).

Definition stream_map : Type := dict (K:=Z) (V:=stream_attrs).

Inductive tval : Type :=
| TAtom (a : atom)
| TStreams (m : stream_map).

Definition title : Type := dict (K:=atom) (V:=tval).

Definition STREAMS : atom := AStr "streams".

Section Parser.

Context `{PyFloat}.

(** [progress] and [total_progress] start as the integer 0 and hold
    floats afterwards. *)
Inductive number : Type :=
| NInt (z : Z)
| NFloat (f : float).

Record MakeMKVParser : Type := mkParser {
  raw_message : string;
  message_type : string;
  title_count : Z;
  progress : number;
  total_progress : number;
  drive_index : Z;
  drive_visible : Z;
  drive_enabled : Z;
  disc_flags : Z;
  drive_name : string;
  disc_name : string;
  operation : atom;
  title_number : Z;
  message : string;
  message_code : Z;
  message_flags : Z;
  message_format : string;
  message_params : list string;
  disc : dict (K:=atom) (V:=atom);
  titles : dict (K:=Z) (V:=title);
  message_error_count : Z;
  message_success_count : Z
}.

Definition set_raw_message (v : string) (p : MakeMKVParser) : MakeMKVParser :=
  mkParser v (message_type p) (title_count p) (progress p)
    (total_progress p) (drive_index p) (drive_visible p) (drive_enabled p)
    (disc_flags p) (drive_name p) (disc_name p) (operation p)
    (title_number p) (message p) (message_code p) (message_flags p)
    (message_format p) (message_params p) (disc p) (titles p)
    (message_error_count p) (message_success_count p).

Definition set_message_type (v : string) (p : MakeMKVParser) : MakeMKVParser :=
  mkParser (raw_message p) v (title_count p) (progress p)
    (total_progress p) (drive_index p) (drive_visible p) (drive_enabled p)
    (disc_flags p) (drive_name p) (disc_name p) (operation p)
    (title_number p) (message p) (message_code p) (message_flags p)
    (message_format p) (message_params p) (disc p) (titles p)
    (message_error_count p) (message_success_count p).

Definition set_title_count (v : Z) (p : MakeMKVParser) : MakeMKVParser :=
  mkParser (raw_message p) (message_type p) v (progress p)
    (total_progress p) (drive_index p) (drive_visible p) (drive_enabled p)
    (disc_flags p) (drive_name p) (disc_name p) (operation p)
    (title_number p) (message p) (message_code p) (message_flags p)
    (message_format p) (message_params p) (disc p) (titles p)
    (message_error_count p) (message_success_count p).

Definition set_progress (v : number) (p : MakeMKVParser) : MakeMKVParser :=
  mkParser (raw_message p) (message_type p) (title_count p) v
    (total_progress p) (drive_index p) (drive_visible p) (drive_enabled p)
    (disc_flags p) (drive_name p) (disc_name p) (operation p)
    (title_number p) (message p) (message_code p) (message_flags p)
    (message_format p) (message_params p) (disc p) (titles p)
    (message_error_count p) (message_success_count p).

Definition set_total_progress (v : number) (p : MakeMKVParser) : MakeMKVParser :=
  mkParser (raw_message p) (message_type p) (title_count p) (progress p) v
    (drive_index p) (drive_visible p) (drive_enabled p) (disc_flags p)
    (drive_name p) (disc_name p) (operation p) (title_number p)
    (message p) (message_code p) (message_flags p) (message_format p)
    (message_params p) (disc p) (titles p) (message_error_count p)
    (message_success_count p).

Definition set_drive_index (v : Z) (p : MakeMKVParser) : MakeMKVParser :=
  mkParser (raw_message p) (message_type p) (title_count p) (progress p)
    (total_progress p) v (drive_visible p) (drive_enabled p)
    (disc_flags p) (drive_name p) (disc_name p) (operation p)
    (title_number p) (message p) (message_code p) (message_flags p)
    (message_format p) (message_params p) (disc p) (titles p)
    (message_error_count p) (message_success_count p).

Definition set_drive_visible (v : Z) (p : MakeMKVParser) : MakeMKVParser :=
  mkParser (raw_message p) (message_type p) (title_count p) (progress p)
    (total_progress p) (drive_index p) v (drive_enabled p) (disc_flags p)
    (drive_name p) (disc_name p) (operation p) (title_number p)
    (message p) (message_code p) (message_flags p) (message_format p)
    (message_params p) (disc p) (titles p) (message_error_count p)
    (message_success_count p).

Definition set_drive_enabled (v : Z) (p : MakeMKVParser) : MakeMKVParser :=
  mkParser (raw_message p) (message_type p) (title_count p) (progress p)
    (total_progress p) (drive_index p) (drive_visible p) v (disc_flags p)
    (drive_name p) (disc_name p) (operation p) (title_number p)
    (message p) (message_code p) (message_flags p) (message_format p)
    (message_params p) (disc p) (titles p) (message_error_count p)
    (message_success_count p).

Definition set_disc_flags (v : Z) (p : MakeMKVParser) : MakeMKVParser :=
  mkParser (raw_message p) (message_type p) (title_count p) (progress p)
    (total_progress p) (drive_index p) (drive_visible p) (drive_enabled p)
    v (drive_name p) (disc_name p) (operation p) (title_number p)
    (message p) (message_code p) (message_flags p) (message_format p)
    (message_params p) (disc p) (titles p) (message_error_count p)
    (message_success_count p).

Definition set_drive_name (v : string) (p : MakeMKVParser) : MakeMKVParser :=
  mkParser (raw_message p) (message_type p) (title_count p) (progress p)
    (total_progress p) (drive_index p) (drive_visible p) (drive_enabled p)
    (disc_flags p) v (disc_name p) (operation p) (title_number p)
    (message p) (message_code p) (message_flags p) (message_format p)
    (message_params p) (disc p) (titles p) (message_error_count p)
    (message_success_count p).

Definition set_disc_name (v : string) (p : MakeMKVParser) : MakeMKVParser :=
  mkParser (raw_message p) (message_type p) (title_count p) (progress p)
    (total_progress p) (drive_index p) (drive_visible p) (drive_enabled p)
    (disc_flags p) (drive_name p) v (operation p) (title_number p)
    (message p) (message_code p) (message_flags p) (message_format p)
    (message_params p) (disc p) (titles p) (message_error_count p)
    (message_success_count p).

Definition set_operation (v : atom) (p : MakeMKVParser) : MakeMKVParser :=
  mkParser (raw_message p) (message_type p) (title_count p) (progress p)
    (total_progress p) (drive_index p) (drive_visible p) (drive_enabled p)
    (disc_flags p) (drive_name p) (disc_name p) v (title_number p)
    (message p) (message_code p) (message_flags p) (message_format p)
    (message_params p) (disc p) (titles p) (message_error_count p)
    (message_success_count p).

Definition set_title_number (v : Z) (p : MakeMKVParser) : MakeMKVParser :=
  mkParser (raw_message p) (message_type p) (title_count p) (progress p)
    (total_progress p) (drive_index p) (drive_visible p) (drive_enabled p)
    (disc_flags p) (drive_name p) (disc_name p) (operation p) v
    (message p) (message_code p) (message_flags p) (message_format p)
    (message_params p) (disc p) (titles p) (message_error_count p)
    (message_success_count p).

Definition set_message (v : string) (p : MakeMKVParser) : MakeMKVParser :=
  mkParser (raw_message p) (message_type p) (title_count p) (progress p)
    (total_progress p) (drive_index p) (drive_visible p) (drive_enabled p)
    (disc_flags p) (drive_name p) (disc_name p) (operation p)
    (title_number p) v (message_code p) (message_flags p)
    (message_format p) (message_params p) (disc p) (titles p)
    (message_error_count p) (message_success_count p).

Definition set_message_code (v : Z) (p : MakeMKVParser) : MakeMKVParser :=
  mkParser (raw_message p) (message_type p) (title_count p) (progress p)
    (total_progress p) (drive_index p) (drive_visible p) (drive_enabled p)
    (disc_flags p) (drive_name p) (disc_name p) (operation p)
    (title_number p) (message p) v (message_flags p) (message_format p)
    (message_params p) (disc p) (titles p) (message_error_count p)
    (message_success_count p).

Definition set_message_flags (v : Z) (p : MakeMKVParser) : MakeMKVParser :=
  mkParser (raw_message p) (message_type p) (title_count p) (progress p)
    (total_progress p) (drive_index p) (drive_visible p) (drive_enabled p)
    (disc_flags p) (drive_name p) (disc_name p) (operation p)
    (title_number p) (message p) (message_code p) v (message_format p)
    (message_params p) (disc p) (titles p) (message_error_count p)
    (message_success_count p).

Definition set_message_format (v : string) (p : MakeMKVParser) : MakeMKVParser :=
  mkParser (raw_message p) (message_type p) (title_count p) (progress p)
    (total_progress p) (drive_index p) (drive_visible p) (drive_enabled p)
    (disc_flags p) (drive_name p) (disc_name p) (operation p)
    (title_number p) (message p) (message_code p) (message_flags p) v
    (message_params p) (disc p) (titles p) (message_error_count p)
    (message_success_count p).

Definition set_message_params (v : list string) (p : MakeMKVParser) : MakeMKVParser :=
  mkParser (raw_message p) (message_type p) (title_count p) (progress p)
    (total_progress p) (drive_index p) (drive_visible p) (drive_enabled p)
    (disc_flags p) (drive_name p) (disc_name p) (operation p)
    (title_number p) (message p) (message_code p) (message_flags p)
    (message_format p) v (disc p) (titles p) (message_error_count p)
    (message_success_count p).

Definition set_disc (v : dict (K:=atom) (V:=atom)) (p : MakeMKVParser) : MakeMKVParser :=
  mkParser (raw_message p) (message_type p) (title_count p) (progress p)
    (total_progress p) (drive_index p) (drive_visible p) (drive_enabled p)
    (disc_flags p) (drive_name p) (disc_name p) (operation p)
    (title_number p) (message p) (message_code p) (message_flags p)
    (message_format p) (message_params p) v (titles p)
    (message_error_count p) (message_success_count p).

Definition set_titles (v : dict (K:=Z) (V:=title)) (p : MakeMKVParser) : MakeMKVParser :=
  mkParser (raw_message p) (message_type p) (title_count p) (progress p)
    (total_progress p) (drive_index p) (drive_visible p) (drive_enabled p)
    (disc_flags p) (drive_name p) (disc_name p) (operation p)
    (title_number p) (message p) (message_code p) (message_flags p)
    (message_format p) (message_params p) (disc p) v
    (message_error_count p) (message_success_count p).

Definition set_message_error_count (v : Z) (p : MakeMKVParser) : MakeMKVParser :=
  mkParser (raw_message p) (message_type p) (title_count p) (progress p)
    (total_progress p) (drive_index p) (drive_visible p) (drive_enabled p)
    (disc_flags p) (drive_name p) (disc_name p) (operation p)
    (title_number p) (message p) (message_code p) (message_flags p)
    (message_format p) (message_params p) (disc p) (titles p) v
    (message_success_count p).

Definition set_message_success_count (v : Z) (p : MakeMKVParser) : MakeMKVParser :=
  mkParser (raw_message p) (message_type p) (title_count p) (progress p)
    (total_progress p) (drive_index p) (drive_visible p) (drive_enabled p)
    (disc_flags p) (drive_name p) (disc_name p) (operation p)
    (title_number p) (message p) (message_code p) (message_flags p)
    (message_format p) (message_params p) (disc p) (titles p)
    (message_error_count p) v.

(** [MakeMKVParser.__init__] *)
Definition __init__ : MakeMKVParser :=
  mkParser EmptyString EmptyString (-1) (NInt 0) (NInt 0) (-1) (-1) (-1) (-1)
    EmptyString EmptyString (AStr EmptyString) (-1) EmptyString (-1) (-1)
    EmptyString [] [] [] 0 0.

(** [MakeMKVParser._process_id] *)
Definition _process_id (id : Z) (raw_value : string) : result atom :=
  let raw_value := replace raw_value dquote EmptyString in
  if id =? MakeMKVMessage.ATTR_ID.Duration then
    match unpack3_map int (split raw_value ":" 2) with
    | inl e => inl e
    | inr (hours, minutes, seconds) =>
        let seconds := seconds + hours * 3600 in
        let seconds := seconds + minutes * 60 in
        inr (AInt seconds)
    end
  else if existsb (Z.eqb id)
            [MakeMKVMessage.ATTR_ID.OrderWeight;
             MakeMKVMessage.ATTR_ID.ChapterCount;
             MakeMKVMessage.ATTR_ID.DiskSizeBytes;
             MakeMKVMessage.ATTR_ID.SegmentsCount;
             MakeMKVMessage.ATTR_ID.StreamFlags;
             MakeMKVMessage.ATTR_ID.AudioChannelsCount;
             MakeMKVMessage.ATTR_ID.AudioSampleRate;
             MakeMKVMessage.ATTR_ID.AudioSampleSize] then
    match int raw_value with
    | inl e => inl e
    | inr v => inr (AInt v)
    end
  else inr (AStr raw_value).

Local Open Scope py_scope.

Definition Parse : Type -> Type := M MakeMKVParser.

(** [self.titles[title_number]] *)
Definition title_getitem (title_number : Z) : Parse title :=
  ts <- gets titles ;;
  match dict_get Z.eqb ts title_number with
  | Some d => ret d
  | None => raise (Raise KeyError (str_of_Z title_number))
  end.

(** [self.titles[title_number][key] = value] *)
Definition title_setitem (title_number : Z) (key : atom) (value : tval)
  : Parse unit :=
  d <- title_getitem title_number ;;
  modify (fun p =>
            set_titles
              (dict_set Z.eqb (titles p) title_number
                 (dict_set atom_eqb d key value)) p).

(** [self.titles[title_number]["streams"]], used as a dict. *)
Definition streams_getitem (title_number : Z) : Parse stream_map :=
  d <- title_getitem title_number ;;
  match dict_get atom_eqb d STREAMS with
  | None => raise (Raise KeyError (repr_atom STREAMS))
  | Some (TStreams m) => ret m
  | Some (TAtom (AInt _)) =>
      raise (Raise TypeError "argument of type 'int' is not iterable")
  | Some (TAtom (AStr _)) =>
      raise (Raise TypeError
               "'in <string>' requires string as left operand, not int")
  end.

(** [if title_number not in self.titles: ...] *)
Definition add_new_title (title_number : Z) : Parse unit :=
  present <- gets (fun p => dict_mem Z.eqb (titles p) title_number) ;;
  if negb present then
    modify (fun p =>
              set_titles (dict_set Z.eqb (titles p) title_number []) p) ;;
    title_setitem title_number STREAMS (TStreams [])
  else ret tt.

(** [case MakeMKVMessage.PRGV] *)
Definition parse_PRGV (content : string) : Parse unit :=
  ' (current, total, maximum_progress) <-
      lift (unpack3_map float_of_str (split content "," 2)) ;;
  v <- lift (float_truediv current maximum_progress) ;;
  modify (set_progress (NFloat v)) ;;
  v <- lift (float_truediv total maximum_progress) ;;
  modify (set_total_progress (NFloat v)).

(** [case MakeMKVMessage.DRV] *)
Definition parse_DRV (content : string) : Parse unit :=
  ' (index, visible, enabled, flags, drive_name, disc_name) <-
      lift (unpack6 (split content "," 5)) ;;
  v <- lift (int index) ;;
  modify (set_drive_index v) ;;
  v <- lift (int visible) ;;
  modify (set_drive_visible v) ;;
  v <- lift (int flags) ;;
  modify (set_disc_flags v) ;;
  v <- lift (int enabled) ;;
  modify (set_drive_enabled v) ;;
  modify (set_drive_name drive_name) ;;
  modify (set_disc_name disc_name) ;;
  try_except
    (v <- gets drive_visible ;;
     _ <- lift (MakeMKVMessage.DRIVE_STATE_call v) ;;
     ret tt)
    ValueError
    (fun _ =>
       v <- gets drive_visible ;;
       raise (Raise ValueError
                ("The DRV visible value " ++ str_of_Z v ++ " was not found!"))) ;;
  try_except
    (v <- gets disc_flags ;;
     _ <- lift (MakeMKVMessage.DISC_FLAG_call v) ;;
     ret tt)
    ValueError
    (fun _ =>
       v <- gets disc_flags ;;
       raise (Raise ValueError
                ("The DRV flags value " ++ str_of_Z v ++ " was not found!"))).

(** [case MakeMKVMessage.MSG].  [code] and [flags] stay the strings
    the split produced; [count] is rebound to its integer. *)
Definition parse_MSG (content : string) : Parse unit :=
  ' (code, flags, count, message, content) <-
      lift (unpack5 (split content "," 4)) ;;
  v <- lift (int code) ;;
  modify (set_message_code v) ;;
  v <- lift (int flags) ;;
  modify (set_message_flags v) ;;
  count <- lift (int count) ;;
  (if negb (String.eqb message EmptyString)
   then modify (set_message (replace message dquote EmptyString))
   else ret tt) ;;
  params <-
    try_except
      (' (message_format, params) <- lift (unpack2 (split content "," 1)) ;;
       modify (set_message_format message_format) ;;
       ret (Some params))
      ValueError
      (fun _ => modify (set_message_format content) ;; ret None) ;;
  (if negb (count =? 0) then
     match params with
     | Some params =>
         modify (set_message_params (split params "," (count - 1)))
     | None =>
         raise (Raise UnboundLocalError
                  "cannot access local variable 'params' where it is not associated with a value")
     end
   else modify (set_message_params [])) ;;
  try_except
    (v <- gets message_flags ;;
     _ <- lift (MakeMKVMessage.UI_MSG_call v) ;;
     ret tt)
    ValueError
    (fun _ =>
       raise (Raise ValueError
                ("The MSG flags value " ++ flags ++ " was not found!"))) ;;
  try_except
    (v <- gets message_code ;;
     _ <- lift (MakeMKVMessage.MSG_CODE_call v) ;;
     ret tt)
    ValueError
    (fun _ =>
       raise (Raise ValueError
                ("The MSG code value " ++ code ++ " was not found!"))) ;;
  (if contains (AStr code) (map AInt MakeMKVMessage.MSG_CODE_ERRORS)
   then modify (fun p =>
                  set_message_error_count (message_error_count p + 1) p)
   else ret tt) ;;
  (if contains (AStr code) (map AInt MakeMKVMessage.MSG_CODE_SUCCESS)
   then
     modify (fun p =>
               set_message_success_count (message_success_count p + 1) p) ;;
     modify (set_message_error_count 0)
   else ret tt).

(** [case MakeMKVMessage.PRGC | MakeMKVMessage.PRGT] *)
Definition parse_PRGC_PRGT (content : string) : Parse unit :=
  ' (code, id, name) <- lift (unpack3 (split content "," 2)) ;;
  v <- lift (int code) ;;
  modify (set_message_code v) ;;
  v <- lift (int id) ;;
  modify (set_title_number v) ;;
  modify (set_message (replace name dquote EmptyString)) ;;
  v <- gets message_code ;;
  op <- lift (MakeMKVMessage.MSG_CODE_call v) ;;
  modify (set_operation (AInt op)) ;;
  modify (set_message_flags (-1)) ;;
  modify (set_message_format EmptyString) ;;
  modify (set_message_params []).

(** [case MakeMKVMessage.CINFO] *)
Definition parse_CINFO (content : string) : Parse unit :=
  ' (id, code, value) <- lift (unpack3 (split content "," 2)) ;;
  id <- lift (int id) ;;
  code <- lift (int code) ;;
  value <- lift (_process_id id value) ;;
  key <- lift (MakeMKVMessage.ATTR_ID_call id) ;;
  modify (fun p => set_disc (dict_set atom_eqb (disc p) (AInt key) value) p).

(** [case MakeMKVMessage.TINFO], after the conversions: the statements
    under [# Add new title] and [# Populate title information]. *)
Definition store_title_info (title_number id : Z) (value : atom)
  : Parse unit :=
  add_new_title title_number ;;
  key <- lift (MakeMKVMessage.ATTR_ID_call id) ;;
  title_setitem title_number (AInt key) (TAtom value).

(** [case MakeMKVMessage.TINFO] *)
Definition parse_TINFO (content : string) : Parse unit :=
  ' (title_number, id, code, value) <- lift (unpack4 (split content "," 3)) ;;
  title_number <- lift (int title_number) ;;
  id <- lift (int id) ;;
  code <- lift (int code) ;;
  value <- lift (_process_id id value) ;;
  store_title_info title_number id value.

(** [case MakeMKVMessage.SINFO], after the conversions: the statements
    under [# Add new title], [# Add new stream] and [# Populate stream
    information].  The nested dicts are mutated in place; here the new
    stream map is stored back under ["streams"], which keeps its
    position in the title. *)
Definition store_stream_info (title_number stream_number id : Z) (value : atom)
  : Parse unit :=
  add_new_title title_number ;;
  m <- streams_getitem title_number ;;
  (if negb (dict_mem Z.eqb m stream_number)
   then title_setitem title_number STREAMS
          (TStreams (dict_set Z.eqb m stream_number []))
   else ret tt) ;;
  m <- streams_getitem title_number ;;
  attrs <- match dict_get Z.eqb m stream_number with
           | Some a => ret a
           | None => raise (Raise KeyError (str_of_Z stream_number))
           end ;;
  key <- lift (MakeMKVMessage.ATTR_ID_call id) ;;
  title_setitem title_number STREAMS
    (TStreams (dict_set Z.eqb m stream_number
                 (dict_set atom_eqb attrs (AInt key) value))).

(** [case MakeMKVMessage.SINFO] *)
Definition parse_SINFO (content : string) : Parse unit :=
  ' (title_number, stream_number, id, code, value) <-
      lift (unpack5 (split content "," 4)) ;;
  title_number <- lift (int title_number) ;;
  stream_number <- lift (int stream_number) ;;
  id <- lift (int id) ;;
  code <- lift (int code) ;;
  value <- lift (_process_id id value) ;;
  store_stream_info title_number stream_number id value.

(** [case MakeMKVMessage.TCOUNT] *)
Definition parse_TCOUNT (content : string) : Parse unit :=
  v <- lift (int content) ;;
  modify (set_title_count v).

(** [case _] *)
Definition parse_unknown : Parse unit :=
  raw <- gets raw_message ;;
  modify (set_message ("Unknown MakeMKV Type! - " ++ raw)).

(** The body of the [try] in [parse]. *)
Definition parse_try : Parse unit :=
  raw <- gets raw_message ;;
  ' (message_type, content) <- lift (unpack2 (split raw ":" 1)) ;;
  modify (set_message_type message_type) ;;
  if String.eqb message_type MakeMKVMessage.PRGV then parse_PRGV content
  else if String.eqb message_type MakeMKVMessage.DRV then parse_DRV content
  else if String.eqb message_type MakeMKVMessage.MSG then parse_MSG content
  else if String.eqb message_type MakeMKVMessage.PRGC
          || String.eqb message_type MakeMKVMessage.PRGT
       then parse_PRGC_PRGT content
  else if String.eqb message_type MakeMKVMessage.CINFO then parse_CINFO content
  else if String.eqb message_type MakeMKVMessage.TINFO then parse_TINFO content
  else if String.eqb message_type MakeMKVMessage.SINFO then parse_SINFO content
  else if String.eqb message_type MakeMKVMessage.TCOUNT
       then parse_TCOUNT content
  else parse_unknown.

(** The diagnostic the [except Exception] handler stores. *)
Definition exception_message (e : exn) (raw_message : string) : string :=
  "Parsing Exception: " ++ exn_str e ++ newline
  ++ "Raw Message: " ++ raw_message.

(** [MakeMKVParser.parse] *)
Definition parse (message : string) : Parse unit :=
  modify (set_raw_message (strip message)) ;;
  try_except_Exception parse_try
    (fun e =>
       raw <- gets raw_message ;;
       modify (set_message (exception_message e raw))).

(** The parser after one call, and after a call per line
    ([for line in ...: mmkv.parse(line)]). *)
Definition after_parse (p : MakeMKVParser) (line : string) : MakeMKVParser :=
  snd (parse line p).

Definition feed (p : MakeMKVParser) (lines : list string) : MakeMKVParser :=
  fold_left after_parse lines p.

End Parser.

End MakeMKV.

(* ================================================================== *)
(** * container.py                                                     *)
(* ================================================================== *)

Module Container.

Import Py.

(** [x == s] for a field that holds a string or [None]. *)
Definition opt_str_eqb (x : option string) (s : string) : bool :=
  match x with
  | Some a => String.eqb a s
  | None => false
  end.

(** ** [StreamData] *)
Module StreamData.

Definition VIDEO : string := "video".
Definition AUDIO : string := "audio".
Definition SUBTITLES : string := "subtitles".

Definition LANG_ENG : string := "eng".
Definition LANG_JPN : string := "jpn".
Definition LANG_UND : string := "und".

Record t : Type := mk {
  type : option string;
  id : Z;
  uid : Z;
  title : option string;
  language : option string;
  bps : option atom;
  default : option bool;
  frames : Z;
  codec : option string;
  pixel_width : Z;
  pixel_height : Z;
  display_width : Z;
  display_height : Z
}.

(** [StreamData.is_valid] *)
Definition is_valid (self : t) : bool :=
  if id self <? 0 then false
  else if negb (opt_str_eqb (type self) VIDEO
                || opt_str_eqb (type self) AUDIO
                || opt_str_eqb (type self) SUBTITLES) then false
  else if opt_str_eqb (type self) VIDEO
          && ((pixel_width self <=? 0) || (pixel_height self <=? 0)
              || (display_width self <=? 0) || (display_height self <=? 0))
       then false
  else true.

End StreamData.

(** ** [ChapterData]

    [Container.chapters] only holds records that passed [is_valid], so
    the three times are floats; they are taken finite and are rationals
    here, of which only the order and the sign of a difference are
    used. *)
Module ChapterData.

Record t : Type := mk {
  index : option Z;
  id : option Z;
  title : option string;
  start_time : Q;
  end_time : Q;
  duration : Q
}.

Definition Qltb (a b : Q) : bool := negb (Qle_bool b a).

(** [ChapterData.__lt__] *)
Definition __lt__ (self other : t) : bool :=
  Qltb (start_time self) (start_time other).

End ChapterData.

(** ** [Container] *)

(** [Container._detect_chapter_gaps]: the loop, then the method. *)
Fixpoint detect_loop (previous_chapter : option ChapterData.t)
  (chapters : list ChapterData.t) : bool :=
  match chapters with
  | [] => false
  | chapter :: rest =>
      match previous_chapter with
      | Some previous =>
          let delta :=
            (ChapterData.start_time chapter
             - ChapterData.end_time previous)%Q in
          if ChapterData.Qltb 0 delta then true
          else detect_loop (Some chapter) rest
      | None => detect_loop (Some chapter) rest
      end
  end.

Definition _detect_chapter_gaps (chapters : list ChapterData.t) : bool :=
  detect_loop None (sorted ChapterData.__lt__ chapters).

(** [[x for x in self.streams if x.language == language and x.type == stream_type]] *)
Definition streams_matching (streams : list StreamData.t)
  (language stream_type : string) : list StreamData.t :=
  filter (fun x => opt_str_eqb (StreamData.language x) language
                   && opt_str_eqb (StreamData.type x) stream_type)
         streams.

Definition is_empty {A} (l : list A) : bool :=
  match l with [] => true | _ => false end.

(** The [for language in ...: if not [...]: und_flag = True; break]
    loop of [remux_by_language]. *)
Fixpoint und_flag (streams : list StreamData.t) (stream_type : string)
  (languages : list string) : bool :=
  match languages with
  | [] => false
  | language :: rest =>
      if is_empty (streams_matching streams language stream_type) then true
      else und_flag streams stream_type rest
  end.

(** One of the two [if StreamData.LANG_UND not in ...] blocks: the
    language list as it stands afterwards. *)
Definition add_undetermined (streams : list StreamData.t)
  (stream_type : string) (languages : list string) : list string :=
  if negb (existsb (String.eqb StreamData.LANG_UND) languages) then
    if und_flag streams stream_type languages
    then (languages ++ [StreamData.LANG_UND])%list
    else languages
  else languages.

(** [Container.remux_by_language] up to the muxer call: the two
    language lists and the command line. *)
Definition remux_by_language (streams : list StreamData.t)
  (mkvmerge output_filename filename : string)
  (audio_languages subtitle_languages : list string)
  : list string * list string * list string :=
  let audio_languages :=
    add_undetermined streams StreamData.AUDIO audio_languages in
  let subtitle_languages :=
    add_undetermined streams StreamData.SUBTITLES subtitle_languages in
  let command := [mkvmerge; "-o"; output_filename] in
  let command :=
    if negb (is_empty audio_languages)
    then (command ++ ["--audio-tracks"; String.concat "," audio_languages])%list
    else command in
  let command :=
    if negb (is_empty subtitle_languages)
    then (command
          ++ ["--subtitle-tracks"; String.concat "," subtitle_languages])%list
    else (command ++ ["--no-subtitles"])%list in
  let command := (command ++ [filename])%list in
  (audio_languages, subtitle_languages, command).

(** [streams.sort(key=lambda x: x.frames, reverse=True)]: descending,
    equal keys keep their order. *)
Definition sort_by_frames_reverse (streams : list StreamData.t)
  : list StreamData.t :=
  sorted (fun a b => StreamData.frames b <? StreamData.frames a) streams.

(** The streams [_set_default_stream_by_language] chooses among: those
    of the type and language, or, failing that and when a default is
    required, all those of the type. *)
Definition candidate_streams (streams : list StreamData.t)
  (language stream_type : string) (default_required : bool)
  : list StreamData.t :=
  let candidates := streams_matching streams language stream_type in
  if is_empty candidates && default_required
  then filter (fun x => opt_str_eqb (StreamData.type x) stream_type) streams
  else candidates.

(** The list as it stands when [stream = streams[0]] is taken. *)
Definition default_candidates (streams : list StreamData.t)
  (language stream_type : string) (default_required : bool)
  : list StreamData.t :=
  let candidates :=
    candidate_streams streams language stream_type default_required in
  if negb (is_empty candidates) then
    if String.eqb stream_type StreamData.SUBTITLES
    then sort_by_frames_reverse candidates
    else candidates
  else candidates.

(** [Container._set_default_stream_by_language]: the stream taken as
    default, if any, and the track edits issued (each an mkvpropedit
    command line). *)
Definition _set_default_stream_by_language (streams : list StreamData.t)
  (mkvpropedit filename : string)
  (language stream_type : string) (default_required : bool)
  : option StreamData.t * list (list string) :=
  match default_candidates streams language stream_type default_required with
  | [] => (None, [])
  | stream :: _ =>
      match StreamData.default stream with
      | Some true => (Some stream, [])
      | _ =>
          (Some stream,
           [[mkvpropedit; filename; "--edit";
             "track:=" ++ str_of_Z (StreamData.uid stream);
             "--set"; "flag-default=1"]])
      end
  end.

(** [Container.set_preferred_audio_by_language] and
    [Container.set_preferred_subtitles_by_language]; [default_required]
    is [True] by default for audio and [False] for subtitles. *)
Definition set_preferred_audio_by_language (streams : list StreamData.t)
  (mkvpropedit filename : string) (language : string)
  (default_required : bool) : option StreamData.t * list (list string) :=
  _set_default_stream_by_language streams mkvpropedit filename
    language StreamData.AUDIO default_required.

Definition set_preferred_subtitles_by_language (streams : list StreamData.t)
  (mkvpropedit filename : string) (language : string)
  (default_required : bool) : option StreamData.t * list (list string) :=
  _set_default_stream_by_language streams mkvpropedit filename
    language StreamData.SUBTITLES default_required.

(** The loop of [clear_default_audio] and [clear_default_subtitles]:
    the track edits issued.  [mkvpropedit] is what [check_command]
    gave; the [break] in the [finally] clause ends the loop at the
    first default stream, whatever the lookup or the edit did (the
    [reload] before it is taken to return). *)
Fixpoint clear_default_loop (mkvpropedit : result string) (filename : string)
  (streams : list StreamData.t) : list (list string) :=
  match streams with
  | [] => []
  | stream :: rest =>
      match StreamData.default stream with
      | Some true =>
          match mkvpropedit with
          | inr tool =>
              [[tool; filename; "--edit";
                "track:=" ++ str_of_Z (StreamData.uid stream);
                "--set"; "flag-default=0"]]
          | inl _ => []
          end
      | _ => clear_default_loop mkvpropedit filename rest
      end
  end.

(** [Container.clear_default_audio] *)
Definition clear_default_audio (streams : list StreamData.t)
  (mkvpropedit : result string) (filename : string) : list (list string) :=
  clear_default_loop mkvpropedit filename
    (filter (fun x => opt_str_eqb (StreamData.type x) StreamData.AUDIO)
       streams).

(** [Container.clear_default_subtitles] *)
Definition clear_default_subtitles (streams : list StreamData.t)
  (mkvpropedit : result string) (filename : string) : list (list string) :=
  clear_default_loop mkvpropedit filename
    (filter (fun x => opt_str_eqb (StreamData.type x) StreamData.SUBTITLES)
       streams).

End Container.

(* ================================================================== *)
(** * disc.py                                                          *)
(* ================================================================== *)

Module Disc.

Import Py.

Definition CDS_NO_INFO : Z := 0.
Definition CDS_NO_DISC : Z := 1.
Definition CDS_TRAY_OPEN : Z := 2.
Definition CDS_DRIVE_NOT_READY : Z := 3.
Definition CDS_DISC_OK : Z := 4.

Definition CDS_AUDIO : Z := 100.
Definition CDS_DATA_1 : Z := 101.
Definition CDS_DATA_2 : Z := 102.
Definition CDS_XA_1 : Z := 103.
Definition CDS_XA_2 : Z := 104.
Definition CDS_MIXED : Z := 105.

Record t : Type := mk {
  filename : Path;
  valid : bool;
  drive_status : Z;
  disc_status : Z
}.

(** [Disc.__eq__] *)
Definition __eq__ (fs : FileSystem) (self other : t) : bool :=
  if is_symlink fs (filename self) && is_symlink fs (filename other) then
    path_eqb (absolute fs (filename self)) (absolute fs (filename other))
  else if is_symlink fs (filename self) then true
  else path_eqb (filename self) (filename other).

(** [Disc.get_drive_status], given the status the ioctl returned. *)
Definition get_drive_status (status : Z) : result Z :=
  if existsb (Z.eqb status)
       [CDS_NO_INFO; CDS_NO_DISC; CDS_TRAY_OPEN; CDS_DRIVE_NOT_READY;
        CDS_DISC_OK]
  then inr status
  else inl (Raise ValueError ("Unknown drive status! --> " ++ str_of_Z status)).

(** [Disc.__lt__] *)
Definition __lt__ (fs : FileSystem) (self other : t) : bool :=
  if is_symlink fs (filename self) && is_symlink fs (filename other) then
    path_ltb (absolute fs (filename self)) (absolute fs (filename other))
  else if is_symlink fs (filename self) then true
  else path_ltb (filename self) (filename other).

(** [Disc.__gt__] *)
Definition __gt__ (fs : FileSystem) (self other : t) : bool :=
  if is_symlink fs (filename self) && is_symlink fs (filename other) then
    path_ltb (absolute fs (filename other)) (absolute fs (filename self))
  else if is_symlink fs (filename self) then true
  else path_ltb (filename other) (filename self).

(** [Disc.get_disc_status], given the status the ioctl returned. *)
Definition get_disc_status (status : Z) : result Z :=
  if existsb (Z.eqb status)
       [CDS_AUDIO; CDS_DATA_1; CDS_DATA_2; CDS_XA_1; CDS_XA_2; CDS_MIXED;
        CDS_NO_DISC; CDS_NO_INFO]
  then inr status
  else inl (Raise ValueError ("Unknown disc status --> " ++ str_of_Z status)).

Definition MAJOR_DEV_SCSI_CDROM : Z := 11.

(** What [query] reads from the system: whether a path exists, the
    major number of its device, and what the two status ioctls
    return. *)
Record Devices : Type := {
  path_exists : Path -> bool;
  major : Path -> Z;
  drive_status_ioctl : Path -> Z;
  disc_status_ioctl : Path -> Z
}.

(** [Disc.validate_disc_device] *)
Definition validate_disc_device (dv : Devices) (filename : Path) : bool :=
  major dv filename =? MAJOR_DEV_SCSI_CDROM.

Definition set_valid (v : bool) (self : t) : t :=
  mk (filename self) v (drive_status self) (disc_status self).

Definition set_drive_status (v : Z) (self : t) : t :=
  mk (filename self) (valid self) v (disc_status self).

Definition set_disc_status (v : Z) (self : t) : t :=
  mk (filename self) (valid self) (drive_status self) v.

Local Open Scope py_scope.

(** [Disc.query] *)
Definition query (dv : Devices) : M t unit :=
  name <- gets filename ;;
  (if path_exists dv name
   then modify (set_valid (validate_disc_device dv name))
   else ret tt) ;;
  v <- gets valid ;;
  if v then
    status <- lift (get_drive_status (drive_status_ioctl dv name)) ;;
    modify (set_drive_status status) ;;
    status <- lift (get_disc_status (disc_status_ioctl dv name)) ;;
    modify (set_disc_status status)
  else ret tt.

(** [Disc.__init__]: the instance, unless [query] raised. *)
Definition __init__ (dv : Devices) (filename : Path) : result t :=
  match query dv (mk filename false CDS_NO_INFO CDS_NO_DISC) with
  | (inl e, _) => inl e
  | (inr _, self) => inr self
  end.

End Disc.

(* ================================================================== *)
(** * ripper.py                                                        *)
(* ================================================================== *)

Module Ripper.

Import Py MakeMKV.

Local Open Scope py_scope.

Definition VIDEO_GENERIC : string := "VIDEO".
Definition VIDEO_MOVIE : string := "MOVIE".
Definition VIDEO_SHOW : string := "SHOW".

(** ** [process_disc_devices] *)

(** The first loop: a relative entry becomes [devices_root / stem] when
    that is a block device. *)
Definition fix_partial (fs : FileSystem) (devices_root : Path) (device : Path)
  : Path :=
  if negb (is_absolute device) then
    let candidate := joinpath devices_root (stem device) in
    if is_block_device fs candidate then candidate else device
  else device.

(** [for device in symlinks[:]: if [...].count(device.resolve()) > 1:
    symlinks.remove(device)] *)
Fixpoint remove_repeated_targets (fs : FileSystem) (todo symlinks : list Path)
  : result (list Path) :=
  match todo with
  | [] => inr symlinks
  | device :: rest =>
      if (1 <? list_count path_eqb (map (resolve fs) symlinks)
                 (resolve fs device))%nat
      then match list_remove path_eqb symlinks device with
           | inl e => inl e
           | inr symlinks' => remove_repeated_targets fs rest symlinks'
           end
      else remove_repeated_targets fs rest symlinks
  end.

(** [for device in [x.resolve() for x in symlinks]: if device in
    [x.resolve() for x in direct_links]: direct_links.remove(device)] *)
Fixpoint remove_linked_targets (fs : FileSystem) (targets direct_links : list Path)
  : result (list Path) :=
  match targets with
  | [] => inr direct_links
  | device :: rest =>
      if existsb (path_eqb device) (map (resolve fs) direct_links)
      then match list_remove path_eqb direct_links device with
           | inl e => inl e
           | inr direct_links' => remove_linked_targets fs rest direct_links'
           end
      else remove_linked_targets fs rest direct_links
  end.

Definition process_disc_devices (fs : FileSystem) (devices : list Path)
  (devices_root : Path) : result (list Path) :=
  let devices := map (fix_partial fs devices_root) devices in
  let devices := filter (is_block_device fs) devices in
  let symlinks := filter (is_symlink fs) devices in
  let direct_links :=
    list_of_set path_eqb (filter (fun x => negb (is_symlink fs x)) devices) in
  let symlinks := rev symlinks in
  match remove_repeated_targets fs symlinks symlinks with
  | inl e => inl e
  | inr symlinks =>
      let symlinks := rev symlinks in
      match remove_linked_targets fs (map (resolve fs) symlinks) direct_links
      with
      | inl e => inl e
      | inr direct_links =>
          inr (sorted path_ltb (symlinks ++ direct_links)%list)
      end
  end.

(** ** [Ripper] *)

(** [last_run_code] holds an exit status, or, once a title has been
    extracted, the [GeneratorExit] wrapper the loop assigns to it. *)
Inductive run_code : Type :=
| ExitCode (z : Z)
| GeneratorExitObject.

(** [self.last_run_code == 0] *)
Definition run_code_is_zero (c : run_code) : bool :=
  match c with
  | ExitCode z => z =? 0
  | GeneratorExitObject => false
  end.

Record t : Type := mk {
  minimum_duration : Z;
  maximum_duration : Z;
  media_type : string;
  eject_on_rip : bool;
  movie_minimum : binary64;
  feature_only : bool;
  title_count : Z;
  last_run_code : run_code
}.

Definition set_title_count (v : Z) (r : t) : t :=
  mk (minimum_duration r) (maximum_duration r) (media_type r) (eject_on_rip r)
    (movie_minimum r) (feature_only r) v (last_run_code r).

Definition set_last_run_code (v : run_code) (r : t) : t :=
  mk (minimum_duration r) (maximum_duration r) (media_type r) (eject_on_rip r)
    (movie_minimum r) (feature_only r) (title_count r) v.

(** [Ripper.__init__] leaves these behind whatever the arguments. *)
Definition __init__ (minimum_duration maximum_duration : Z)
  (media_type : string) (eject : bool) : t :=
  mk minimum_duration maximum_duration media_type eject float_0_9 true (-1)
    (ExitCode (-1)).

(** *** The title filter of [rip]

    The state is [mmkv.titles]; the value carried round the loop is
    [max_duration]. *)
Definition Titles : Type := dict (K:=Z) (V:=title).

Definition DURATION_KEY_REPR : string := "<ATTR_ID.Duration: 9>".

(** [mmkv.titles[title_number][MakeMKVMessage.ATTR_ID.Duration]], as
    the number the comparisons need. *)
Definition title_duration (title_number : Z) : M Titles Z :=
  ts <- gets (fun ts : Titles => ts) ;;
  match dict_get Z.eqb ts title_number with
  | None => raise (Raise KeyError (str_of_Z title_number))
  | Some d =>
      match dict_get atom_eqb d (AInt MakeMKVMessage.ATTR_ID.Duration) with
      | None => raise (Raise KeyError DURATION_KEY_REPR)
      | Some (TAtom (AInt duration)) => ret duration
      | Some (TAtom (AStr _)) =>
          raise (Raise TypeError
                   "'<' not supported between instances of 'str' and 'int'")
      | Some (TStreams _) =>
          raise (Raise TypeError
                   "'<' not supported between instances of 'dict' and 'int'")
      end
  end.

(** [mmkv.titles.pop(title_number)] *)
Definition titles_pop (title_number : Z) : M Titles unit :=
  fun ts =>
    match dict_pop Z.eqb ts title_number with
    | Some ts' => (inr tt, ts')
    | None => (inl (Raise KeyError (str_of_Z title_number)), ts)
    end.

(** The body of [for title_number in mmkv.titles:]. *)
Definition filter_title (self : t) (title_number : Z) (max_duration : Z)
  : M Titles Z :=
  duration <- title_duration title_number ;;
  (if duration <? minimum_duration self
   then titles_pop title_number else ret tt) ;;
  (if maximum_duration self <? duration
   then titles_pop title_number else ret tt) ;;
  let max_duration :=
    if max_duration <=? duration then duration else max_duration in
  (if String.eqb (media_type self) VIDEO_MOVIE && feature_only self then
     limit <- lift (int_mul_float max_duration (movie_minimum self)) ;;
     if int_lt_float duration limit
     then titles_pop title_number else ret tt
   else ret tt) ;;
  ret max_duration.

(** The whole pass: [max_duration = 0], then the loop. *)
Definition filter_titles (self : t) : M Titles Z :=
  for_in_dict (fun ts : Titles => ts) (filter_title self) 0.

(** *** The checks of [Ripper.__init__]

    The state is the class counter [Ripper.ID], which is stepped before
    any check.  [root_exists] is [root_directory.exists()] and [disc]
    what [Disc(self.raw_filename)] gave. *)
Definition construct (root_exists : bool)
  (minimum_duration maximum_duration : Z) (media_type title : string)
  (season : option Z) (eject : bool) (disc : result Disc.t) : M Z t :=
  modify (fun ID => ID + 1) ;;
  (if String.eqb title EmptyString
   then raise (Raise ValueError "The media title has not been set!")
   else ret tt) ;;
  (if negb root_exists
   then raise (Raise FileNotFoundError "The root directory was not found!")
   else ret tt) ;;
  match season with
  | Some season =>
      if season <? 0
      then raise (Raise ValueError "The season is less than zero!")
      else ret tt
  | None => ret tt
  end ;;
  (if negb (existsb (String.eqb media_type)
              [VIDEO_GENERIC; VIDEO_MOVIE; VIDEO_SHOW])
   then raise (Raise ValueError "The media type was not recognized!")
   else ret tt) ;;
  (if maximum_duration <=? minimum_duration
   then raise (Raise ValueError
                 "Maximum duration must be greater than minimum!")
   else ret tt) ;;
  _ <- lift disc ;;
  ret (__init__ minimum_duration maximum_duration media_type eject).

(** *** The duration limits of [main]

    [minimum] is [args.minimum], [None] when the option is not given;
    [not minimum_duration] holds for [None] and for 0. *)
Definition is_falsy (x : option Z) : bool :=
  match x with
  | None => true
  | Some z => z =? 0
  end.

Definition duration_limits (media_type : string) (minimum : option Z)
  (maximum : Z) : result (Z * Z) :=
  let minimum_duration :=
    if String.eqb media_type VIDEO_MOVIE && is_falsy minimum then 3600
    else if String.eqb media_type VIDEO_SHOW && is_falsy minimum then 900
    else
      match minimum with
      | None => 0
      | Some z => if (z =? 0) || (z <? 0) then 0 else z
      end in
  if maximum <=? minimum_duration
  then inl (Raise ValueError "Maximum duration must be greater than minimum!")
  else inr (minimum_duration, maximum).

Section Rip.

Context `{PyFloat}.

(** What [rip] meets outside the process: [self.disc] as the
    constructor left it, what a query of the drive reads, and what
    [self.disc.unlock_tray()] gives (the ioctl status, or the [OSError]
    of a device that cannot be opened or does not take the command);
    then the tools and the polls of the eject loop. *)
Record World : Type := {
  drive : Disc.t;
  devices : Disc.Devices;
  unlock_tray : result Z;
  makemkvcon : result string;
  info_run : list string * Z;
  mkv_run : Z -> list string * Z;
  process_video : Z -> result unit;
  drive_polls : list (Z * bool)
}.

(** What [rip] does to the drive and the tools, in order. *)
Inductive event : Type :=
| Query
| RunInfo
| RunMkv (title_number : Z)
| ProcessVideo (title_number : Z)
| UnlockTray
| EjectTray
| GetDriveStatus.

Record State : Type := mkState {
  self : t;
  mmkv : MakeMKVParser;
  trace : list event
}.

Definition Rip : Type -> Type := M State.

Definition update_self (f : t -> t) : Rip unit :=
  modify (fun st => mkState (f (self st)) (mmkv st) (trace st)).

Definition update_mmkv (f : MakeMKVParser -> MakeMKVParser) : Rip unit :=
  modify (fun st => mkState (self st) (f (mmkv st)) (trace st)).

Definition emit (e : event) : Rip unit :=
  modify (fun st => mkState (self st) (mmkv st) (trace st ++ [e])%list).

(** Running a pass over [mmkv.titles] inside [rip]. *)
Definition on_titles {A} (c : M Titles A) : Rip A :=
  fun st =>
    match c (titles (mmkv st)) with
    | (r, ts) => (r, mkState (self st) (set_titles ts (mmkv st)) (trace st))
    end.

(** [Ripper._eject].  Each poll is the drive status read and whether
    the clock has passed the limit; when the polls run out the clock
    has passed. *)
Fixpoint _eject (polls : list (Z * bool)) : Rip bool :=
  emit UnlockTray ;;
  emit EjectTray ;;
  emit GetDriveStatus ;;
  match polls with
  | [] => ret false
  | (status, late) :: rest =>
      status <- lift (Disc.get_drive_status status) ;;
      if status =? Disc.CDS_TRAY_OPEN then ret true
      else if late then ret false
      else _eject rest
  end.

Variable world : World.

(** The body of the second [for title_number in mmkv.titles:]. *)
Definition extract_title (title_number : Z) (_ : unit) : Rip unit :=
  ts <- gets (fun st => titles (mmkv st)) ;;
  d <- match dict_get Z.eqb ts title_number with
       | Some d => ret d
       | None => raise (Raise KeyError (str_of_Z title_number))
       end ;;
  match dict_get atom_eqb d (AInt MakeMKVMessage.ATTR_ID.OutputFileName) with
  | None => raise (Raise KeyError "<ATTR_ID.OutputFileName: 27>")
  | Some _ =>
      _ <- lift (makemkvcon world) ;;
      emit (RunMkv title_number) ;;
      update_mmkv (fun p => feed p (fst (mkv_run world title_number))) ;;
      update_self (set_last_run_code GeneratorExitObject) ;;
      emit (ProcessVideo title_number) ;;
      lift (process_video world title_number)
  end.

(** [case Disc.CDS_DATA_1]; the result tells whether the [return]
    inside was taken.  Creating the two directories, unlinking a stale
    output file and removing the working directory are left out. *)
Definition rip_data_1 : Rip bool :=
  update_mmkv (fun _ => MakeMKV.__init__) ;;
  _ <- lift (makemkvcon world) ;;
  emit RunInfo ;;
  update_mmkv (fun p => feed p (fst (info_run world))) ;;
  update_self (set_last_run_code (ExitCode (snd (info_run world)))) ;;
  ts <- gets (fun st => titles (mmkv st)) ;;
  if Container.is_empty ts then ret true
  else
    r <- gets self ;;
    _ <- on_titles (filter_titles r) ;;
    n <- gets (fun st => List.length (titles (mmkv st))) ;;
    update_self (set_title_count (Z.of_nat n)) ;;
    for_in_dict (fun st => titles (mmkv st)) extract_title tt ;;
    ret false.

(** [self.disc.query()] at the head of [rip]: the disc as queried,
    unless a status read was not a known code. *)
Definition queried : result Disc.t :=
  match Disc.query (devices world) (drive world) with
  | (inl e, _) => inl e
  | (inr _, disc) => inr disc
  end.

(** [Ripper.rip] *)
Definition rip : Rip unit :=
  emit Query ;;
  disc <- lift queried ;;
  returned <-
    (if Disc.disc_status disc =? Disc.CDS_DATA_1
     then rip_data_1 else ret false) ;;
  if returned then ret tt
  else
    emit UnlockTray ;;
    _ <- lift (unlock_tray world) ;;
    r <- gets self ;;
    if run_code_is_zero (last_run_code r) && eject_on_rip r
    then _ <- _eject (drive_polls world) ;; ret tt
    else ret tt.

(** A run of [rip] on a fresh [Ripper]: what it raised, if anything,
    and what it did. *)
Definition run_rip (r : t) : result unit * State :=
  rip (mkState r MakeMKV.__init__ []).

End Rip.

End Ripper.

(* ================================================================== *)
(** * Vocabulary of the properties                                     *)
(* ================================================================== *)

Module EffectSpec.

Import Py.

(** Hoare triples for code that mutates and may raise: from a state in
    [P], a return value [a] leaves a state in [Q a], a raise leaves a
    state in [E]. *)
Definition hoare {S A} (P : S -> Prop) (c : M S A)
  (Q : A -> S -> Prop) (E : S -> Prop) : Prop :=
  forall s, P s ->
    match c s with
    | (inr a, s') => Q a s'
    | (inl _, s') => E s'
    end.

(** [P] survives [c], however [c] ends. *)
Definition stable {S A} (P : S -> Prop) (c : M S A) : Prop :=
  hoare P c (fun _ => P) P.

(** [c] never changes what [f] reads. *)
Definition keeps {S A B} (f : S -> B) (c : M S A) : Prop :=
  forall v, stable (fun s => f s = v) c.

End EffectSpec.

Module ContainerSpec.

Import Py Container.

(** No stream of [streams] has the language and the type. *)
Definition no_stream (streams : list StreamData.t) (language stream_type : string)
  : Prop :=
  forall x, In x streams ->
    ~ (StreamData.language x = Some language
       /\ StreamData.type x = Some stream_type).

(** The condition under which "und" joins a language list. *)
Definition und_needed (streams : list StreamData.t) (stream_type : string)
  (languages : list string) : Prop :=
  ~ In StreamData.LANG_UND languages
  /\ exists language, In language languages
                      /\ no_stream streams language stream_type.

(** An audio stream with just a language, as the examples need. *)
Definition audio_stream (uid : Z) (language : string) : StreamData.t :=
  StreamData.mk (Some StreamData.AUDIO) uid uid None (Some language) None
    (Some false) 0 None 0 0 0 0.

(** A subtitle stream in [language] with a frame count and a default
    flag. *)
Definition subtitle_stream (uid : Z) (language : string) (frames : Z)
  (default : bool) : StreamData.t :=
  StreamData.mk (Some StreamData.SUBTITLES) uid uid None (Some language) None
    (Some default) frames None 0 0 0 0.

(** The track edit that makes [stream] the default. *)
Definition default_edit (mkvpropedit filename : string) (stream : StreamData.t)
  : list string :=
  [mkvpropedit; filename; "--edit";
   "track:=" ++ str_of_Z (StreamData.uid stream); "--set"; "flag-default=1"].

(** A chapter from [start_time] to [end_time]. *)
Definition chapter (start_time end_time : Q) : ChapterData.t :=
  ChapterData.mk None None None start_time end_time (end_time - start_time).

(** Some chapter of [l] is directly followed by one that starts
    strictly after it ends. *)
Definition adjacent_gap (l : list ChapterData.t) : Prop :=
  exists l1 c1 c2 l2,
    l = (l1 ++ c1 :: c2 :: l2)%list
    /\ (ChapterData.end_time c1 < ChapterData.start_time c2)%Q.

(** Ordered by start time. *)
Definition by_start_time (a b : ChapterData.t) : Prop :=
  (ChapterData.start_time a <= ChapterData.start_time b)%Q.

(** The streams the default-selection operation is to choose among:
    those of the type in the language, or, when the file has none and
    a default is required, every stream of the type. *)
Definition wanted (streams : list StreamData.t) (language stream_type : string)
  (default_required : bool) (c : StreamData.t) : Prop :=
  StreamData.type c = Some stream_type
  /\ (StreamData.language c = Some language
      \/ (default_required = true
          /\ no_stream streams language stream_type)).

(** [stream.default] is true. *)
Definition is_default (stream : StreamData.t) : bool :=
  match StreamData.default stream with
  | Some true => true
  | _ => false
  end.

Definition of_type (stream_type : string) (stream : StreamData.t) : bool :=
  opt_str_eqb (StreamData.type stream) stream_type.

Definition in_language (language : string) (stream : StreamData.t) : bool :=
  opt_str_eqb (StreamData.language stream) language.

(** The track edit that clears the default flag of [stream]. *)
Definition clear_edit (mkvpropedit filename : string) (stream : StreamData.t)
  : list string :=
  [mkvpropedit; filename; "--edit";
   "track:=" ++ str_of_Z (StreamData.uid stream); "--set"; "flag-default=0"].

(** The options [remux_by_language] passes for the audio and for the
    subtitle tracks, given the language lists as they stand. *)
Definition audio_options (languages : list string) : list string :=
  match languages with
  | [] => []
  | _ => ["--audio-tracks"; String.concat "," languages]
  end.

Definition subtitle_options (languages : list string) : list string :=
  match languages with
  | [] => ["--no-subtitles"]
  | _ => ["--subtitle-tracks"; String.concat "," languages]
  end.

End ContainerSpec.

Module FsSpec.

Import Py.

(** [/dev/<n>] *)
Definition dev (n : string) : Path := ["/"; "dev"; n].

Definition one_of (p : Path) (ps : list Path) : bool := existsb (path_eqb p) ps.

(** A machine with two drives, [/dev/sr0] and [/dev/sr1]; [/dev/dvd]
    and [/dev/cdrom] are symbolic links to [/dev/sr0]. *)
Definition two_drives : FileSystem :=
  {| cwd := ["/"; "root"];
     is_symlink := fun p => one_of p [dev "dvd"; dev "cdrom"];
     is_block_device :=
       fun p => one_of p [dev "dvd"; dev "cdrom"; dev "sr0"; dev "sr1";
                          ["/"; "dev"; ".."; "dev"; "sr0"]];
     resolve :=
       fun p => if one_of p [dev "dvd"; dev "cdrom";
                             ["/"; "dev"; ".."; "dev"; "sr0"]]
                then dev "sr0" else p |}.

(** Of the links in [l] to one target, the last one. *)
Fixpoint keep_last_per_target (fs : FileSystem) (l : list Path) : list Path :=
  match l with
  | [] => []
  | d :: rest =>
      if existsb (path_eqb (resolve fs d)) (map (resolve fs) rest)
      then keep_last_per_target fs rest
      else d :: keep_last_per_target fs rest
  end.

(** [s] stands in [l] with no path before it that resolves to the same
    target. *)
Definition first_to_target (fs : FileSystem) (l : list Path) (s : Path)
  : Prop :=
  exists before after,
    l = (before ++ s :: after)%list
    /\ forall x, In x before -> resolve fs x <> resolve fs s.

(** The entries [process_disc_devices] works on: relative entries
    fixed, block devices only. *)
Definition block_devices (fs : FileSystem) (devices : list Path)
  (devices_root : Path) : list Path :=
  filter (is_block_device fs)
    (map (Ripper.fix_partial fs devices_root) devices).

(** A [Disc] on a path, drive ready, data disc. *)
Definition disc_at (p : Path) : Disc.t :=
  Disc.mk p true Disc.CDS_DISC_OK Disc.CDS_DATA_1.

(** Exactly one of three answers is [True]. *)
Definition exactly_one (a b c : bool) : Prop :=
  (a = true /\ b = false /\ c = false)
  \/ (a = false /\ b = true /\ c = false)
  \/ (a = false /\ b = false /\ c = true).

(** The device is there and is a SCSI CD-ROM. *)
Definition optical (dv : Disc.Devices) (filename : Path) : bool :=
  Disc.path_exists dv filename
  && (Disc.major dv filename =? Disc.MAJOR_DEV_SCSI_CDROM).

Definition drive_codes : list Z :=
  [Disc.CDS_NO_INFO; Disc.CDS_NO_DISC; Disc.CDS_TRAY_OPEN;
   Disc.CDS_DRIVE_NOT_READY; Disc.CDS_DISC_OK].

Definition disc_codes : list Z :=
  [Disc.CDS_AUDIO; Disc.CDS_DATA_1; Disc.CDS_DATA_2; Disc.CDS_XA_1;
   Disc.CDS_XA_2; Disc.CDS_MIXED; Disc.CDS_NO_DISC; Disc.CDS_NO_INFO].

End FsSpec.

Module RipperSpec.

Import Py MakeMKV.

(** A title as the info pass leaves it: its stream map, a duration in
    seconds and an output file name. *)
Definition title_of (duration : Z) (output : string) : title :=
  [(STREAMS, TStreams []);
   (AInt MakeMKVMessage.ATTR_ID.Duration, TAtom (AInt duration));
   (AInt MakeMKVMessage.ATTR_ID.OutputFileName, TAtom (AStr output))].

(** Two titles, of 500 and 4000 seconds. *)
Definition two_titles : Ripper.Titles :=
  [(0, title_of 500 "title_t00.mkv"); (1, title_of 4000 "title_t01.mkv")].

(** The info lines that produce [two_titles]. *)
Definition two_titles_info : list string :=
  ["TCOUNT:2";
   "TINFO:0,9,0,0:08:20"; "TINFO:0,27,0,title_t00.mkv";
   "TINFO:1,9,0,1:06:40"; "TINFO:1,27,0,title_t01.mkv"].

(** A movie rip with a 900 second minimum, ejecting when done. *)
Definition movie_ripper : Ripper.t :=
  Ripper.__init__ 900 999999 Ripper.VIDEO_MOVIE true.

(** A generic rip that keeps every title, ejecting when done. *)
Definition generic_ripper : Ripper.t :=
  Ripper.__init__ 0 999999 Ripper.VIDEO_GENERIC true.

(** An optical drive, ready, whose disc-status ioctl returns
    [status]. *)
Definition ready_drive (status : Z) : Disc.Devices :=
  {| Disc.path_exists := fun _ => true;
     Disc.major := fun _ => Disc.MAJOR_DEV_SCSI_CDROM;
     Disc.drive_status_ioctl := fun _ => Disc.CDS_DISC_OK;
     Disc.disc_status_ioctl := fun _ => status |}.

(** A drive holding a data disc, its tray command accepted; every tool
    run exits with 0, the info pass prints [info_lines], extraction
    prints nothing, and the tray opens at the first eject. *)
Definition data_disc (info_lines : list string) : Ripper.World :=
  {| Ripper.drive := FsSpec.disc_at (FsSpec.dev "sr0");
     Ripper.devices := ready_drive Disc.CDS_DATA_1;
     Ripper.unlock_tray := inr 0;
     Ripper.makemkvcon := inr "/usr/bin/makemkvcon";
     Ripper.info_run := (info_lines, 0);
     Ripper.mkv_run := fun _ => ([], 0);
     Ripper.process_video := fun _ => inr tt;
     Ripper.drive_polls := [(Disc.CDS_TRAY_OPEN, false)] |}.



(** Nothing has been ejected, and ejecting is not requested. *)
Definition quiet `{PyFloat} (st : Ripper.State) : Prop :=
  ~ In Ripper.EjectTray (Ripper.trace st)
  /\ Ripper.eject_on_rip (Ripper.self st) = false.

(** The media types [Ripper] accepts. *)
Definition media_types : list string :=
  [Ripper.VIDEO_GENERIC; Ripper.VIDEO_MOVIE; Ripper.VIDEO_SHOW].

(** The conditions [Ripper.__init__] checks. *)
Definition arguments_accepted (root_exists : bool)
  (minimum_duration maximum_duration : Z) (media_type title : string)
  (season : option Z) : Prop :=
  title <> EmptyString
  /\ root_exists = true
  /\ (forall s, season = Some s -> 0 <= s)
  /\ In media_type media_types
  /\ minimum_duration < maximum_duration.

End RipperSpec.

Module ParserSpec.

Import Py MakeMKV.

(** [s] between double quotes. *)
Definition quoted (s : string) : string :=
  String dquote (s ++ String dquote EmptyString).

(** The line makemkvcon prints for a message without parameters. *)
Definition msg_line (code flags : Z) (text : string) : string :=
  "MSG:" ++ str_of_Z code ++ "," ++ str_of_Z flags ++ ",0,"
  ++ quoted text ++ "," ++ quoted text.

Definition success_line : string :=
  msg_line MakeMKVMessage.MSG_CODE.OPERATION_COMPLETE 0
    "Operation successfully completed".

Definition error_line : string :=
  msg_line MakeMKVMessage.MSG_CODE.DISC_OPEN_FAIL 0 "Failed to open disc".

(** A title has a ["streams"] key bound to a stream map. *)
Definition title_shape (d : title) : Prop :=
  exists m, dict_get atom_eqb d STREAMS = Some (TStreams m).

(** Every entry of the titles map has that shape. *)
Definition titles_shape (ts : dict (K:=Z) (V:=title)) : Prop :=
  Forall (fun kv => title_shape (snd kv)) ts.

Definition has_title (ts : dict (K:=Z) (V:=title)) (t : Z) : Prop :=
  dict_mem Z.eqb ts t = true.

(** The stream map of title [t], when it has one. *)
Definition streams_of (ts : dict (K:=Z) (V:=title)) (t : Z)
  : option stream_map :=
  match dict_get Z.eqb ts t with
  | Some d =>
      match dict_get atom_eqb d STREAMS with
      | Some (TStreams m) => Some m
      | _ => None
      end
  | None => None
  end.

Definition has_stream (ts : dict (K:=Z) (V:=title)) (t n : Z) : Prop :=
  exists m, streams_of ts t = Some m /\ dict_mem Z.eqb m n = true.

(** [ts'] has every title and every stream [ts] has. *)
Definition extends (ts ts' : dict (K:=Z) (V:=title)) : Prop :=
  (forall t, has_title ts t -> has_title ts' t)
  /\ (forall t n, has_stream ts t n -> has_stream ts' t n).

(** [ts] with title [t] created, as [add_new_title] leaves it. *)
Definition ensure_title (ts : dict (K:=Z) (V:=title)) (t : Z)
  : dict (K:=Z) (V:=title) :=
  if dict_mem Z.eqb ts t then ts
  else dict_set Z.eqb ts t [(STREAMS, TStreams [])].





(** The attribute ids whose value [_process_id] converts to an
    integer. *)
Definition integer_attribute (id : Z) : bool :=
  existsb (Z.eqb id)
    [MakeMKVMessage.ATTR_ID.Duration;
     MakeMKVMessage.ATTR_ID.OrderWeight;
     MakeMKVMessage.ATTR_ID.ChapterCount;
     MakeMKVMessage.ATTR_ID.DiskSizeBytes;
     MakeMKVMessage.ATTR_ID.SegmentsCount;
     MakeMKVMessage.ATTR_ID.StreamFlags;
     MakeMKVMessage.ATTR_ID.AudioChannelsCount;
     MakeMKVMessage.ATTR_ID.AudioSampleRate;
     MakeMKVMessage.ATTR_ID.AudioSampleSize].

(** A value as [_process_id] types it: an integer for the integer
    attributes, otherwise a string without double quotes. *)
Definition value_typed (id : Z) (v : atom) : Prop :=
  if integer_attribute id then exists z, v = AInt z
  else exists s, v = AStr s /\ contains_char dquote s = false.

(** An attribute map is keyed by [ATTR_ID] members, each bound to a
    value of its type. *)
Definition attrs_typed (d : dict (K:=atom) (V:=atom)) : Prop :=
  forall k v, dict_get atom_eqb d k = Some v ->
    exists id, k = AInt id /\ In id MakeMKVMessage.ATTR_ID.values
               /\ value_typed id v.

Definition streams_typed (m : stream_map) : Prop :=
  forall n a, dict_get Z.eqb m n = Some a -> attrs_typed a.

(** A title holds its stream map under ["streams"] and typed
    attributes under [ATTR_ID] members, and nothing else. *)
Definition title_typed (d : title) : Prop :=
  forall k v, dict_get atom_eqb d k = Some v ->
    (k = STREAMS /\ exists m, v = TStreams m /\ streams_typed m)
    \/ (exists id a, k = AInt id /\ v = TAtom a
                     /\ In id MakeMKVMessage.ATTR_ID.values
                     /\ value_typed id a).

Definition titles_typed (ts : dict (K:=Z) (V:=title)) : Prop :=
  forall t d, dict_get Z.eqb ts t = Some d -> title_typed d.

(** The nine tags [parse] knows. *)
Definition known_tags : list string :=
  [MakeMKVMessage.PRGV; MakeMKVMessage.DRV; MakeMKVMessage.MSG;
   MakeMKVMessage.PRGC; MakeMKVMessage.PRGT; MakeMKVMessage.CINFO;
   MakeMKVMessage.TINFO; MakeMKVMessage.SINFO; MakeMKVMessage.TCOUNT].

Section Parser.

Context `{PyFloat}.

(** Decoding [line] raises inside the [try] of [parse]. *)
Definition decode_fails (p : MakeMKVParser) (line : string) : Prop :=
  exists e p1, parse_try (set_raw_message (strip line) p) = (inl e, p1).

(** Every field but [message] and [raw_message] is the same in [p']
    as in [p]. *)
Definition others_unchanged (p p' : MakeMKVParser) : Prop :=
  message_type p' = message_type p
  /\ title_count p' = title_count p
  /\ progress p' = progress p
  /\ total_progress p' = total_progress p
  /\ drive_index p' = drive_index p
  /\ drive_visible p' = drive_visible p
  /\ drive_enabled p' = drive_enabled p
  /\ disc_flags p' = disc_flags p
  /\ drive_name p' = drive_name p
  /\ disc_name p' = disc_name p
  /\ operation p' = operation p
  /\ title_number p' = title_number p
  /\ message_code p' = message_code p
  /\ message_flags p' = message_flags p
  /\ message_format p' = message_format p
  /\ message_params p' = message_params p
  /\ disc p' = disc p
  /\ titles p' = titles p
  /\ message_error_count p' = message_error_count p
  /\ message_success_count p' = message_success_count p.

(** The disc attributes and every title are typed. *)
Definition typed_state (p : MakeMKVParser) : Prop :=
  attrs_typed (disc p) /\ titles_typed (titles p).

(** No line changes what [f] reads unless its tag is among [tags]. *)
Definition changed_only_under {B : Type} (f : MakeMKVParser -> B)
  (tags : list string) : Prop :=
  forall p line,
    f (after_parse p line) = f p
    \/ In (message_type (after_parse p line)) tags.

End Parser.

End ParserSpec.

(* ================================================================== *)
(** * Properties                                                       *)
(* ================================================================== *)

(** ** The runtime helpers *)
Module PyFacts.

Import Py.

Lemma path_eqb_eq (a b : Path) : path_eqb a b = true <-> a = b.
Proof.
  revert b; induction a as [|x a IH]; intros [|y b]; simpl;
    try (split; (discriminate || reflexivity)).
  rewrite andb_true_iff, String.eqb_eq, IH.
  split; [intros [-> ->]; reflexivity | intros [= -> ->]; auto].
Qed.

Lemma path_eqb_refl (a : Path) : path_eqb a a = true.
Proof. apply path_eqb_eq; reflexivity. Qed.

Lemma atom_eqb_eq (a b : atom) : atom_eqb a b = true <-> a = b.
Proof.
  destruct a, b; simpl; try (split; discriminate).
  - rewrite Z.eqb_eq; split; [intros ->; reflexivity | intros [= ->]; auto].
  - rewrite String.eqb_eq; split;
      [intros ->; reflexivity | intros [= ->]; auto].
Qed.

Lemma in_insert_sorted {A} (lt : A -> A -> bool) (x a : A) (l : list A) :
  In x (insert_sorted lt a l) <-> x = a \/ In x l.
Proof.
  induction l as [|y l IH]; simpl.
  - intuition.
  - destruct (lt y a); simpl; [rewrite IH|]; intuition.
Qed.

Lemma in_sorted {A} (lt : A -> A -> bool) (x : A) (l : list A) :
  In x (sorted lt l) <-> In x l.
Proof.
  induction l as [|a l IH]; simpl; [tauto|].
  rewrite in_insert_sorted, IH; intuition.
Qed.

Lemma insert_sorted_perm {A} (lt : A -> A -> bool) (a : A) (l : list A) :
  Permutation (insert_sorted lt a l) (a :: l).
Proof.
  induction l as [|y l IH]; simpl; [apply Permutation_refl|].
  destruct (lt y a); [|apply Permutation_refl].
  eapply perm_trans; [apply perm_skip, IH | apply perm_swap].
Qed.

Lemma sorted_perm {A} (lt : A -> A -> bool) (l : list A) :
  Permutation (sorted lt l) l.
Proof.
  induction l as [|a l IH]; simpl; [constructor|].
  eapply perm_trans; [apply insert_sorted_perm | apply perm_skip, IH].
Qed.

(** [sorted] orders its result by any relation [le] that [lt] decides
    in both directions. *)
Section SortedOrder.

Context {A : Type} (lt : A -> A -> bool) (le : A -> A -> Prop).
Hypothesis lt_le : forall a b, lt a b = true -> le a b.
Hypothesis nlt_le : forall a b, lt a b = false -> le b a.
Hypothesis le_trans : forall a b c, le a b -> le b c -> le a c.

Lemma insert_sorted_ordered (a : A) (l : list A) :
  StronglySorted le l -> StronglySorted le (insert_sorted lt a l).
Proof.
  induction 1 as [|y l Hs IH Hall]; simpl.
  - repeat constructor.
  - destruct (lt y a) eqn:E.
    + constructor; [exact IH|].
      apply Forall_forall; intros z Hz.
      apply in_insert_sorted in Hz as [->|Hz]; [auto|].
      rewrite Forall_forall in Hall; auto.
    + constructor; [constructor; assumption|].
      constructor; [auto|].
      apply Forall_forall; intros z Hz.
      rewrite Forall_forall in Hall.
      eapply le_trans; [apply nlt_le, E | auto].
Qed.

Lemma sorted_ordered (l : list A) : StronglySorted le (sorted lt l).
Proof.
  induction l as [|a l IH]; simpl; [constructor|].
  apply insert_sorted_ordered, IH.
Qed.

End SortedOrder.

(** Dictionaries whose key test decides equality. *)
Section DictFacts.

Context {K V : Type} (eqb : K -> K -> bool).
Hypothesis eqb_eq : forall a b, eqb a b = true <-> a = b.

Lemma eqb_same (a : K) : eqb a a = true.
Proof. apply eqb_eq; reflexivity. Qed.

Lemma dict_get_set (d : dict (K:=K) (V:=V)) (k k' : K) (v : V) :
  dict_get eqb (dict_set eqb d k v) k'
  = if eqb k k' then Some v else dict_get eqb d k'.
Proof.
  induction d as [|[k1 v1] d IH]; simpl; [reflexivity|].
  destruct (eqb k1 k) eqn:E; simpl.
  - apply eqb_eq in E. subst k1. destruct (eqb k k'); reflexivity.
  - rewrite IH. destruct (eqb k1 k') eqn:E1; [|reflexivity].
    apply eqb_eq in E1. subst k1.
    destruct (eqb k k') eqn:E2; [|reflexivity].
    apply eqb_eq in E2. subst k'. rewrite eqb_same in E. discriminate.
Qed.

Lemma dict_mem_set (d : dict (K:=K) (V:=V)) (k k' : K) (v : V) :
  dict_mem eqb (dict_set eqb d k v) k' = eqb k k' || dict_mem eqb d k'.
Proof.
  unfold dict_mem. rewrite dict_get_set. destruct (eqb k k'); reflexivity.
Qed.

Lemma dict_set_set (d : dict (K:=K) (V:=V)) (k : K) (x v : V) :
  dict_set eqb (dict_set eqb d k x) k v = dict_set eqb d k v.
Proof.
  induction d as [|[k1 v1] d IH]; simpl.
  - rewrite eqb_same. reflexivity.
  - destruct (eqb k1 k) eqn:E; simpl; rewrite E; [reflexivity|].
    rewrite IH. reflexivity.
Qed.

Lemma dict_get_in (d : dict (K:=K) (V:=V)) (k : K) (v : V) :
  dict_get eqb d k = Some v -> exists k', In (k', v) d.
Proof.
  induction d as [|[k1 v1] d IH]; simpl; [discriminate|].
  destruct (eqb k1 k).
  - intros [= ->]. exists k1. auto.
  - intros H. destruct (IH H) as [k' Hin]. exists k'. auto.
Qed.

Lemma dict_get_forall (R : V -> Prop) (d : dict (K:=K) (V:=V)) (k : K) (v : V) :
  Forall (fun kv => R (snd kv)) d -> dict_get eqb d k = Some v -> R v.
Proof.
  intros HF Hget. destruct (dict_get_in _ _ _ Hget) as [k' Hin].
  rewrite Forall_forall in HF. apply (HF (k', v) Hin).
Qed.

Lemma dict_set_forall (R : V -> Prop) (d : dict (K:=K) (V:=V)) (k : K) (v : V) :
  Forall (fun kv => R (snd kv)) d -> R v ->
  Forall (fun kv => R (snd kv)) (dict_set eqb d k v).
Proof.
  intros HF Hv. induction HF as [|[k1 v1] d H1 HF IH]; simpl.
  - repeat constructor. exact Hv.
  - destruct (eqb k1 k); constructor; auto.
Qed.

Lemma dict_pop_length (d d' : dict (K:=K) (V:=V)) (k : K) :
  dict_pop eqb d k = Some d' -> List.length d = Datatypes.S (List.length d').
Proof.
  revert d'. induction d as [|[k1 v1] d IH]; simpl; [discriminate|].
  intros d'. destruct (eqb k1 k).
  - intros [= <-]. reflexivity.
  - destruct (dict_pop eqb d k) as [r|]; [|discriminate].
    intros [= <-]. simpl. rewrite (IH r eq_refl). reflexivity.
Qed.

End DictFacts.

(** The rules of the triples. *)
Section HoareRules.

Import EffectSpec.

Context {S : Type}.

Lemma hoare_ret {A} (P : S -> Prop) (a : A) (Q : A -> S -> Prop) E :
  (forall s, P s -> Q a s) -> hoare P (ret a) Q E.
Proof. intros H s Hs. simpl. auto. Qed.

Lemma hoare_raise {A} (P : S -> Prop) e (Q : A -> S -> Prop) (E : S -> Prop) :
  (forall s, P s -> E s) -> hoare P (raise e) Q E.
Proof. intros H s Hs. simpl. auto. Qed.

Lemma hoare_lift {A} (P : S -> Prop) (r : result A) (Q : A -> S -> Prop)
  (E : S -> Prop) :
  (forall a s, r = inr a -> P s -> Q a s) ->
  (forall e s, r = inl e -> P s -> E s) ->
  hoare P (lift r) Q E.
Proof. intros HQ HE s Hs. unfold lift. destruct r; eauto. Qed.

Lemma hoare_gets {A} (P : S -> Prop) (f : S -> A) (Q : A -> S -> Prop) E :
  (forall s, P s -> Q (f s) s) -> hoare P (gets f) Q E.
Proof. intros H s Hs. simpl. auto. Qed.

Lemma hoare_modify (P : S -> Prop) (g : S -> S) (Q : unit -> S -> Prop) E :
  (forall s, P s -> Q tt (g s)) -> hoare P (modify g) Q E.
Proof. intros H s Hs. simpl. auto. Qed.

Lemma hoare_bind {A B} (P : S -> Prop) (c : M S A) (k : A -> M S B)
  (R : A -> S -> Prop) (Q : B -> S -> Prop) (E : S -> Prop) :
  hoare P c R E -> (forall a, hoare (R a) (k a) Q E) ->
  hoare P (bind c k) Q E.
Proof.
  intros Hc Hk s Hs. unfold bind. specialize (Hc s Hs).
  destruct (c s) as [[e|a] s1]; [exact Hc|].
  apply (Hk a s1 Hc).
Qed.

Lemma hoare_try_except {A} (P : S -> Prop) (body : M S A) cls
  (handler : exn -> M S A) (Q : A -> S -> Prop) (E' E : S -> Prop) :
  hoare P body Q E' -> (forall e, hoare E' (handler e) Q E) ->
  (forall s, E' s -> E s) ->
  hoare P (try_except body cls handler) Q E.
Proof.
  intros Hb Hh Hw s Hs. unfold try_except. specialize (Hb s Hs).
  destruct (body s) as [[e|a] s1]; [|exact Hb].
  destruct (exn_class_eqb (exn_cls e) cls); [apply (Hh e s1 Hb) | auto].
Qed.

Lemma hoare_try_except_Exception {A} (P : S -> Prop) (body : M S A)
  (handler : exn -> M S A) (Q : A -> S -> Prop) (E' E : S -> Prop) :
  hoare P body Q E' -> (forall e, hoare E' (handler e) Q E) ->
  hoare P (try_except_Exception body handler) Q E.
Proof.
  intros Hb Hh s Hs. unfold try_except_Exception. specialize (Hb s Hs).
  destruct (body s) as [[e|a] s1]; [apply (Hh e s1 Hb) | exact Hb].
Qed.

Lemma hoare_weaken {A} (P P' : S -> Prop) (c : M S A)
  (Q Q' : A -> S -> Prop) (E E' : S -> Prop) :
  hoare P' c Q' E' ->
  (forall s, P s -> P' s) -> (forall a s, Q' a s -> Q a s) ->
  (forall s, E' s -> E s) ->
  hoare P c Q E.
Proof.
  intros H HP HQ HE s Hs. specialize (H s (HP s Hs)).
  destruct (c s) as [[e|a] s1]; auto.
Qed.

(** The same rules for [stable]. *)
Lemma stable_ret {A} (P : S -> Prop) (a : A) : stable P (ret a).
Proof. apply hoare_ret; auto. Qed.

Lemma stable_raise {A} (P : S -> Prop) e : stable P (@raise S A e).
Proof. apply hoare_raise; auto. Qed.

Lemma stable_lift {A} (P : S -> Prop) (r : result A) : stable P (lift r).
Proof. apply hoare_lift; auto. Qed.

Lemma stable_gets {A} (P : S -> Prop) (f : S -> A) : stable P (gets f).
Proof. apply hoare_gets; auto. Qed.

Lemma stable_modify (P : S -> Prop) (g : S -> S) :
  (forall s, P s -> P (g s)) -> stable P (modify g).
Proof. intros H. apply hoare_modify. exact H. Qed.

Lemma stable_bind {A B} (P : S -> Prop) (c : M S A) (k : A -> M S B) :
  stable P c -> (forall a, stable P (k a)) -> stable P (bind c k).
Proof. intros Hc Hk. eapply hoare_bind; [exact Hc | exact Hk]. Qed.

Lemma stable_try_except {A} (P : S -> Prop) (body : M S A) cls handler :
  stable P body -> (forall e, stable P (handler e)) ->
  stable P (try_except body cls handler).
Proof. intros Hb Hh. eapply hoare_try_except; eauto. Qed.

Lemma stable_try_except_Exception {A} (P : S -> Prop) (body : M S A) handler :
  stable P body -> (forall e, stable P (handler e)) ->
  stable P (try_except_Exception body handler).
Proof. intros Hb Hh. eapply hoare_try_except_Exception; eauto. Qed.

Lemma stable_run {A} (P : S -> Prop) (c : M S A) (s : S) :
  stable P c -> P s -> P (snd (c s)).
Proof.
  intros H Hs. specialize (H s Hs). destruct (c s) as [[e|a] s1]; exact H.
Qed.

End HoareRules.

(** One step of a proof that a composed computation is [stable]. *)
Ltac stable_step :=
  lazymatch goal with
  | |- EffectSpec.stable _ (bind _ _) =>
      apply stable_bind; [| intros ?; cbv beta]
  | |- EffectSpec.stable _ (ret _) => apply stable_ret
  | |- EffectSpec.stable _ (raise _) => apply stable_raise
  | |- EffectSpec.stable _ (lift _) => apply stable_lift
  | |- EffectSpec.stable _ (gets _) => apply stable_gets
  | |- EffectSpec.stable _ (modify _) =>
      apply stable_modify; intros ? ?; simpl; assumption
  | |- EffectSpec.stable _ (try_except _ _ _) =>
      apply stable_try_except; [| intros ?; cbv beta]
  | |- EffectSpec.stable _ (try_except_Exception _ _) =>
      apply stable_try_except_Exception; [| intros ?; cbv beta]
  | |- EffectSpec.stable _ (if ?b then _ else _) => destruct b
  | |- EffectSpec.stable _ (match ?x with _ => _ end) => destruct x
  end.

End PyFacts.

(** ** container.py *)
Module ContainerFacts.

Import Py PyFacts Container ContainerSpec.

(** *** Language filtering *)

Lemma opt_str_eqb_eq (x : option string) (s : string) :
  opt_str_eqb x s = true <-> x = Some s.
Proof.
  destruct x as [a|]; simpl; [|split; discriminate].
  rewrite String.eqb_eq; split; [intros ->; auto | intros [= ->]; auto].
Qed.

Lemma streams_matching_empty streams language stream_type :
  is_empty (streams_matching streams language stream_type) = true
  <-> no_stream streams language stream_type.
Proof.
  unfold streams_matching, no_stream.
  induction streams as [|x l IH]; simpl.
  - split; [intros _ x [] | reflexivity].
  - destruct (opt_str_eqb (StreamData.language x) language
              && opt_str_eqb (StreamData.type x) stream_type) eqn:E.
    + simpl. split; [discriminate|]. intros Hno. exfalso.
      apply andb_true_iff in E as [E1 E2].
      apply opt_str_eqb_eq in E1, E2.
      apply (Hno x); auto.
    + rewrite IH. split.
      * intros Hno y [<-|Hy]; [|auto].
        intros [H1 H2]. apply opt_str_eqb_eq in H1, H2.
        rewrite H1, H2 in E. discriminate.
      * intros Hno y Hy. apply Hno; auto.
Qed.

Lemma und_flag_true streams stream_type languages :
  und_flag streams stream_type languages = true
  <-> exists language, In language languages
                       /\ no_stream streams language stream_type.
Proof.
  induction languages as [|l ls IH]; simpl.
  - split; [discriminate | intros (? & [] & _)].
  - destruct (is_empty (streams_matching streams l stream_type)) eqn:E.
    + split; [|reflexivity]. intros _. exists l. split; [auto|].
      apply streams_matching_empty, E.
    + rewrite IH. split.
      * intros (x & Hx & Hno). exists x; auto.
      * intros (x & [<-|Hx] & Hno); [|exists x; auto].
        apply streams_matching_empty in Hno. congruence.
Qed.

Lemma und_requested languages :
  existsb (String.eqb StreamData.LANG_UND) languages = true
  <-> In StreamData.LANG_UND languages.
Proof.
  rewrite existsb_exists. split.
  - intros (x & Hx & E). apply String.eqb_eq in E. subst; auto.
  - intros Hin. exists StreamData.LANG_UND. split; [auto|].
    apply String.eqb_refl.
Qed.

Lemma app_one_neq {A} (l : list A) (a : A) : (l ++ [a])%list <> l.
Proof.
  intros E. apply (f_equal (@List.length A)) in E.
  rewrite length_app in E. simpl in E. lia.
Qed.

Lemma add_undetermined_spec streams stream_type languages :
  (add_undetermined streams stream_type languages
   = (languages ++ [StreamData.LANG_UND])%list
   <-> und_needed streams stream_type languages)
  /\ (add_undetermined streams stream_type languages = languages
      <-> ~ und_needed streams stream_type languages).
Proof.
  unfold add_undetermined, und_needed.
  destruct (existsb (String.eqb StreamData.LANG_UND) languages) eqn:E; simpl.
  - apply und_requested in E. split; split.
    + intros H. symmetry in H. apply app_one_neq in H. contradiction.
    + intros [H _]. contradiction.
    + intros _ [H _]. contradiction.
    + reflexivity.
  - assert (Hnot : ~ In StreamData.LANG_UND languages).
    { intros H. apply und_requested in H. congruence. }
    destruct (und_flag streams stream_type languages) eqn:F.
    + apply und_flag_true in F. split; split.
      * auto.
      * reflexivity.
      * intros H. apply app_one_neq in H. contradiction.
      * intros H. exfalso. apply H. auto.
    + assert (Hnone : ~ exists language,
                 In language languages
                 /\ no_stream streams language stream_type).
      { intros H. apply und_flag_true in H. congruence. }
      split; split.
      * intros H. symmetry in H. apply app_one_neq in H. contradiction.
      * intros [_ H]. contradiction.
      * intros _ [_ H]. contradiction.
      * reflexivity.
Qed.

(** C5.  [remux_by_language] appends "und" to the audio (resp.
    subtitle) language list exactly when "und" was not requested for
    that type and some requested language has no stream of that type
    in that language; otherwise the list is left as requested.  With
    one eng audio stream and the audio filter [eng] nothing is added;
    with audio streams eng and und and the filter [jpn], "und" is
    added; with eng and jpn and the filter [jpn] it is not. *)
Theorem remux_by_language_undetermined :
  (forall streams mkvmerge output_filename filename audio subtitles,
      let '(audio', subtitles', _) :=
        remux_by_language streams mkvmerge output_filename filename
          audio subtitles in
      (audio' = (audio ++ [StreamData.LANG_UND])%list
       <-> und_needed streams StreamData.AUDIO audio)
      /\ (audio' = audio <-> ~ und_needed streams StreamData.AUDIO audio)
      /\ (subtitles' = (subtitles ++ [StreamData.LANG_UND])%list
          <-> und_needed streams StreamData.SUBTITLES subtitles)
      /\ (subtitles' = subtitles
          <-> ~ und_needed streams StreamData.SUBTITLES subtitles))
  /\ fst (fst (remux_by_language [audio_stream 1 "eng"]
                 "mkvmerge" "a.remuxed.mkv" "a.mkv" ["eng"] []))
     = ["eng"]
  /\ fst (fst (remux_by_language
                 [audio_stream 1 "eng"; audio_stream 2 "und"]
                 "mkvmerge" "a.remuxed.mkv" "a.mkv" ["jpn"] []))
     = ["jpn"; "und"]
  /\ fst (fst (remux_by_language
                 [audio_stream 1 "eng"; audio_stream 2 "jpn"]
                 "mkvmerge" "a.remuxed.mkv" "a.mkv" ["jpn"] []))
     = ["jpn"].
Proof.
  split; [|repeat split; reflexivity].
  intros streams mkvmerge output_filename filename audio subtitles.
  unfold remux_by_language.
  destruct (add_undetermined_spec streams StreamData.AUDIO audio) as [A1 A2].
  destruct (add_undetermined_spec streams StreamData.SUBTITLES subtitles)
    as [S1 S2].
  repeat split; first [apply A1 | apply A2 | apply S1 | apply S2]; assumption.
Qed.

(** *** Default stream selection *)

Lemma sort_by_frames_reverse_head (l : list StreamData.t) :
  l <> [] ->
  exists h t,
    sort_by_frames_reverse l = h :: t
    /\ In h l
    /\ forall c, In c l -> StreamData.frames c <= StreamData.frames h.
Proof.
  unfold sort_by_frames_reverse.
  induction l as [|a l IH]; [congruence|]. intros _. simpl.
  destruct l as [|b l'].
  - simpl. exists a, []. repeat split; auto.
    intros c [<-|[]]; lia.
  - destruct IH as (h & t & E & Hin & Hmax); [congruence|].
    rewrite E. simpl.
    destruct (StreamData.frames a <? StreamData.frames h) eqn:F.
    + apply Z.ltb_lt in F. eexists _, _. split; [reflexivity|].
      split; [right; exact Hin|].
      intros c [<-|Hc]; [lia | auto].
    + apply Z.ltb_ge in F. eexists _, _. split; [reflexivity|].
      split; [left; reflexivity|].
      intros c [<-|Hc]; [lia|]. specialize (Hmax c Hc). lia.
Qed.

Lemma is_empty_false {A} (l : list A) : l <> [] -> is_empty l = false.
Proof. destruct l; [congruence | reflexivity]. Qed.

(** The candidates are the streams of the file that are wanted, in
    the order of the file. *)
Lemma candidate_streams_filter streams language stream_type default_required :
  exists q,
    candidate_streams streams language stream_type default_required
    = filter q streams
    /\ forall c, q c = true
                 <-> wanted streams language stream_type default_required c.
Proof.
  unfold candidate_streams, wanted.
  pose proof (streams_matching_empty streams language stream_type) as Hn.
  destruct (is_empty (streams_matching streams language stream_type)) eqn:E.
  - assert (N : no_stream streams language stream_type)
      by (apply Hn; reflexivity).
    destruct default_required; simpl.
    + eexists. split; [reflexivity|]. intros c.
      rewrite opt_str_eqb_eq. split; [intros Ht; auto | tauto].
    + eexists. split; [reflexivity|]. intros c.
      rewrite andb_true_iff, !opt_str_eqb_eq. split.
      * tauto.
      * intros (Ht & [Hl | [Hf _]]); [tauto | discriminate Hf].
  - assert (N : ~ no_stream streams language stream_type).
    { intros N. apply Hn in N. discriminate N. }
    simpl. eexists. split; [reflexivity|]. intros c.
    rewrite andb_true_iff, !opt_str_eqb_eq. split; [tauto|].
    intros (Ht & [Hl | [_ Hno]]); [tauto | contradiction].
Qed.

Lemma candidate_streams_wanted streams language stream_type default_required c :
  In c (candidate_streams streams language stream_type default_required)
  <-> In c streams
      /\ wanted streams language stream_type default_required c.
Proof.
  destruct (candidate_streams_filter streams language stream_type
              default_required) as (q & -> & Hq).
  rewrite filter_In, Hq. tauto.
Qed.

(** C6.  When the default-selection operation runs for subtitles and
    the file has a stream to choose among (a subtitle stream in the
    language, or, when there is none and a default is required, any
    subtitle stream), the stream it takes is such a stream of the
    file: a subtitle stream, in the requested language whenever the
    file has one, with the largest frame count among them; if that
    stream is already default no track edit is issued, otherwise
    exactly the edit that sets its default flag.  When the file has no
    such stream nothing is taken and nothing is issued.  Among subtitle
    candidates with frame counts 5, 500 and 50 the one with 500 frames
    is taken. *)
Theorem default_subtitles_largest :
  (forall streams mkvpropedit filename language default_required,
      (exists c, In c streams
                 /\ wanted streams language StreamData.SUBTITLES
                      default_required c) ->
      exists stream edits,
        _set_default_stream_by_language streams mkvpropedit filename
          language StreamData.SUBTITLES default_required
        = (Some stream, edits)
        /\ In stream streams
        /\ StreamData.type stream = Some StreamData.SUBTITLES
        /\ (~ no_stream streams language StreamData.SUBTITLES ->
            StreamData.language stream = Some language)
        /\ wanted streams language StreamData.SUBTITLES default_required
             stream
        /\ (forall c,
               In c streams ->
               wanted streams language StreamData.SUBTITLES
                 default_required c ->
               StreamData.frames c <= StreamData.frames stream)
        /\ (StreamData.default stream = Some true -> edits = [])
        /\ (StreamData.default stream <> Some true ->
            edits = [default_edit mkvpropedit filename stream]))
  /\ (forall streams mkvpropedit filename language default_required,
         (forall c, In c streams ->
                    ~ wanted streams language StreamData.SUBTITLES
                        default_required c) ->
         _set_default_stream_by_language streams mkvpropedit filename
           language StreamData.SUBTITLES default_required
         = (None, []))
  /\ option_map StreamData.frames
       (fst (_set_default_stream_by_language
               [subtitle_stream 1 "eng" 5 false;
                subtitle_stream 2 "eng" 500 false;
                subtitle_stream 3 "eng" 50 false]
               "mkvpropedit" "a.mkv" "eng" StreamData.SUBTITLES false))
     = Some 500.
Proof.
  split; [|split; [|reflexivity]].
  - intros streams mkvpropedit filename language default_required
      (c0 & Hc0 & Hw0).
    assert (Hne : candidate_streams streams language StreamData.SUBTITLES
                    default_required <> []).
    { intros E.
      assert (Hin : In c0 (candidate_streams streams language
                             StreamData.SUBTITLES default_required))
        by (apply candidate_streams_wanted; auto).
      rewrite E in Hin. destruct Hin. }
    unfold _set_default_stream_by_language, default_candidates.
    rewrite (is_empty_false _ Hne). simpl negb. cbv iota.
    rewrite String.eqb_refl.
    destruct (sort_by_frames_reverse_head _ Hne) as (h & t & E & Hin & Hmax).
    rewrite E.
    apply candidate_streams_wanted in Hin as [Hin Hw].
    assert (Hlang : ~ no_stream streams language StreamData.SUBTITLES ->
                    StreamData.language h = Some language).
    { intros Hn. destruct Hw as (_ & [Hl | [_ N]]); [exact Hl | contradiction]. }
    assert (Hmax' : forall c,
               In c streams ->
               wanted streams language StreamData.SUBTITLES
                 default_required c ->
               StreamData.frames c <= StreamData.frames h).
    { intros c Hc Hwc. apply Hmax, candidate_streams_wanted. auto. }
    destruct (StreamData.default h) as [[|]|] eqn:D.
    + exists h, []. split; [reflexivity|].
      split; [exact Hin|]. split; [exact (proj1 Hw)|].
      split; [exact Hlang|]. split; [exact Hw|]. split; [exact Hmax'|].
      split; [reflexivity | congruence].
    + eexists h, _. split; [reflexivity|].
      split; [exact Hin|]. split; [exact (proj1 Hw)|].
      split; [exact Hlang|]. split; [exact Hw|]. split; [exact Hmax'|].
      split; [intros X; congruence | reflexivity].
    + eexists h, _. split; [reflexivity|].
      split; [exact Hin|]. split; [exact (proj1 Hw)|].
      split; [exact Hlang|]. split; [exact Hw|]. split; [exact Hmax'|].
      split; [intros X; congruence | reflexivity].
  - intros streams mkvpropedit filename language default_required Hnone.
    assert (He : candidate_streams streams language StreamData.SUBTITLES
                   default_required = []).
    { destruct (candidate_streams streams language StreamData.SUBTITLES
                  default_required) as [|x l] eqn:E; [reflexivity|].
      assert (Hin : In x (candidate_streams streams language
                            StreamData.SUBTITLES default_required))
        by (rewrite E; left; reflexivity).
      apply candidate_streams_wanted in Hin as [Hin Hw].
      exfalso. exact (Hnone x Hin Hw). }
    unfold _set_default_stream_by_language, default_candidates.
    rewrite He. reflexivity.
Qed.

(** The frame counts 5, 500, 50: the general statement applies and
    gives an English subtitle stream with at least 500 frames. *)
Lemma default_subtitles_largest_witness :
  exists stream edits,
    _set_default_stream_by_language
      [subtitle_stream 1 "eng" 5 false;
       subtitle_stream 2 "eng" 500 false;
       subtitle_stream 3 "eng" 50 false]
      "mkvpropedit" "a.mkv" "eng" StreamData.SUBTITLES false
    = (Some stream, edits)
    /\ StreamData.type stream = Some StreamData.SUBTITLES
    /\ 500 <= StreamData.frames stream.
Proof.
  destruct (proj1 default_subtitles_largest
              [subtitle_stream 1 "eng" 5 false;
               subtitle_stream 2 "eng" 500 false;
               subtitle_stream 3 "eng" 50 false]
              "mkvpropedit" "a.mkv" "eng" false)
    as (stream & edits & E & _ & Ht & _ & _ & Hmax & _).
  - exists (subtitle_stream 1 "eng" 5 false).
    split; [left; reflexivity|]. split; [reflexivity | left; reflexivity].
  - exists stream, edits. split; [exact E|]. split; [exact Ht|].
    apply (Hmax (subtitle_stream 2 "eng" 500 false)).
    + simpl. auto.
    + split; [reflexivity | left; reflexivity].
Defined.

(** *** Chapter gaps *)

Lemma Qltb_lt (a b : Q) : ChapterData.Qltb a b = true <-> (a < b)%Q.
Proof.
  unfold ChapterData.Qltb. rewrite negb_true_iff. split.
  - intros E. apply Qnot_le_lt. intros H.
    apply Qle_bool_iff in H. congruence.
  - intros H. destruct (Qle_bool b a) eqn:E; [|reflexivity].
    apply Qle_bool_iff in E. exfalso. exact (Qlt_not_le _ _ H E).
Qed.

Lemma gap_positive (s e : Q) :
  ChapterData.Qltb 0 (s - e) = true <-> (e < s)%Q.
Proof.
  rewrite Qltb_lt. unfold Qminus. symmetry. apply Qlt_minus_iff.
Qed.

Lemma detect_loop_previous (l : list ChapterData.t) :
  forall previous,
    detect_loop (Some previous) l = true <-> adjacent_gap (previous :: l).
Proof.
  induction l as [|a l IH]; intros p; simpl.
  - split; [discriminate|].
    intros (l1 & c1 & c2 & l2 & E & _).
    apply (f_equal (@List.length _)) in E.
    rewrite length_app in E. simpl in E. lia.
  - destruct (ChapterData.Qltb 0
                (ChapterData.start_time a - ChapterData.end_time p)) eqn:G.
    + split; [|reflexivity]. intros _.
      exists [], p, a, l. split; [reflexivity|]. apply gap_positive, G.
    + rewrite IH. split.
      * intros (l1 & c1 & c2 & l2 & E & H).
        exists (p :: l1), c1, c2, l2. split; [simpl; congruence | exact H].
      * intros (l1 & c1 & c2 & l2 & E & H).
        destruct l1 as [|x l1]; simpl in E.
        -- injection E as -> -> ->.
           apply gap_positive in H. congruence.
        -- injection E as -> E.
           exists l1, c1, c2, l2. split; [exact E | exact H].
Qed.

Lemma detect_loop_start (l : list ChapterData.t) :
  detect_loop None l = true <-> adjacent_gap l.
Proof.
  destruct l as [|a l]; simpl.
  - split; [discriminate|].
    intros (l1 & c1 & c2 & l2 & E & _). destruct l1; discriminate.
  - apply detect_loop_previous.
Qed.

(** C9.  [sorted(self.chapters)] is a rearrangement of the chapters in
    non-decreasing start time, and [_detect_chapter_gaps] returns true
    exactly when, in that order, some chapter is directly followed by
    one whose start time is strictly greater than its end time.
    Chapters (0,10),(10,20) have no gap; (0,10),(15,20) have one. *)
Theorem detect_chapter_gaps_sorted_adjacent :
  (forall chapters,
      Permutation (sorted ChapterData.__lt__ chapters) chapters
      /\ StronglySorted by_start_time (sorted ChapterData.__lt__ chapters)
      /\ (_detect_chapter_gaps chapters = true
          <-> adjacent_gap (sorted ChapterData.__lt__ chapters)))
  /\ _detect_chapter_gaps [chapter 0 10; chapter 10 20] = false
  /\ _detect_chapter_gaps [chapter 0 10; chapter 15 20] = true.
Proof.
  split; [|split; reflexivity].
  intros chapters. split; [apply sorted_perm|]. split.
  - apply sorted_ordered; unfold by_start_time, ChapterData.__lt__.
    + intros a b H. apply Qltb_lt in H. apply Qlt_le_weak, H.
    + intros a b H. unfold ChapterData.Qltb in H.
      apply negb_false_iff in H. apply Qle_bool_iff, H.
    + intros a b c. apply Qle_trans.
  - unfold _detect_chapter_gaps. apply detect_loop_start.
Qed.

End ContainerFacts.

(** ** disc.py *)
Module DiscFacts.

Import Py PyFacts FsSpec.

(** C8, as stated, fails: [/dev/dvd] and [/dev/cdrom] resolve to the
    same [/dev/sr0], yet the two discs compare unequal. *)
Lemma disc_eq_not_by_resolved_path :
  ~ (forall fs a b,
        Disc.__eq__ fs a b = true
        <-> resolve fs (Disc.filename a) = resolve fs (Disc.filename b)).
Proof.
  intros H.
  destruct (H two_drives (disc_at (dev "dvd")) (disc_at (dev "cdrom")))
    as [_ H'].
  specialize (H' eq_refl). vm_compute in H'. discriminate H'.
Qed.

(** C8, amended.  When both device paths are symbolic links, [a == b]
    holds exactly when their absolute paths are equal; when the device
    path of [a] is not a symbolic link, [a == b] holds exactly when
    the two device paths are equal as given.  Neither test resolves
    the links. *)
Theorem disc_eq_by_path (fs : FileSystem) (a b : Disc.t) :
  (is_symlink fs (Disc.filename a) = true ->
   is_symlink fs (Disc.filename b) = true ->
   (Disc.__eq__ fs a b = true
    <-> absolute fs (Disc.filename a) = absolute fs (Disc.filename b)))
  /\ (is_symlink fs (Disc.filename a) = false ->
      (Disc.__eq__ fs a b = true <-> Disc.filename a = Disc.filename b)).
Proof.
  unfold Disc.__eq__. split.
  - intros -> ->. simpl. apply path_eqb_eq.
  - intros ->. simpl. apply path_eqb_eq.
Qed.

(** Two links and two raw paths on the two-drive machine. *)
Lemma disc_eq_by_path_witness :
  (Disc.__eq__ two_drives (disc_at (dev "dvd")) (disc_at (dev "cdrom")) = true
   <-> absolute two_drives (dev "dvd") = absolute two_drives (dev "cdrom"))
  /\ (Disc.__eq__ two_drives (disc_at (dev "sr0")) (disc_at (dev "sr1")) = true
      <-> dev "sr0" = dev "sr1").
Proof.
  split.
  - exact (proj1 (disc_eq_by_path two_drives (disc_at (dev "dvd"))
                    (disc_at (dev "cdrom"))) eq_refl eq_refl).
  - exact (proj2 (disc_eq_by_path two_drives (disc_at (dev "sr0"))
                    (disc_at (dev "sr1"))) eq_refl).
Defined.

End DiscFacts.

(** ** ripper.py *)
Module RipperFacts.

Import Py PyFacts EffectSpec MakeMKV FsSpec RipperSpec.

(** *** [process_disc_devices] *)

Section Devices.

Variable fs : FileSystem.

Lemma existsb_path_in (p : Path) (l : list Path) :
  existsb (path_eqb p) l = true <-> In p l.
Proof.
  rewrite existsb_exists. split.
  - intros (x & Hx & E). apply path_eqb_eq in E. subst. exact Hx.
  - intros Hin. exists p. split; [exact Hin | apply path_eqb_refl].
Qed.

Lemma list_count_app (l1 l2 : list Path) (x : Path) :
  list_count path_eqb (l1 ++ l2)%list x
  = (list_count path_eqb l1 x + list_count path_eqb l2 x)%nat.
Proof. induction l1 as [|y l1 IH]; simpl; [reflexivity | rewrite IH; lia]. Qed.

Lemma list_count_zero (l : list Path) (x : Path) :
  ~ In x l -> list_count path_eqb l x = 0%nat.
Proof.
  induction l as [|y l IH]; simpl; [reflexivity|]. intros Hn.
  destruct (path_eqb y x) eqn:E.
  - apply path_eqb_eq in E. subst. exfalso. apply Hn. auto.
  - rewrite IH; [reflexivity|]. intros Hin. apply Hn. auto.
Qed.

Lemma list_count_pos (l : list Path) (x : Path) :
  In x l -> (1 <= list_count path_eqb l x)%nat.
Proof.
  induction l as [|y l IH]; simpl; [intros []|]. intros [->|Hin].
  - rewrite path_eqb_refl. lia.
  - specialize (IH Hin). lia.
Qed.

Lemma list_remove_skip (kept rest : list Path) (d : Path) :
  ~ In d kept ->
  list_remove path_eqb (kept ++ d :: rest)%list d = inr (kept ++ rest)%list.
Proof.
  induction kept as [|k kept IH]; simpl; intros Hn.
  - rewrite path_eqb_refl. reflexivity.
  - destruct (path_eqb k d) eqn:E.
    + apply path_eqb_eq in E. subst. exfalso. apply Hn. auto.
    + rewrite IH; [reflexivity|]. intros Hin. apply Hn. auto.
Qed.

(** The loop over the reversed links keeps, of the links to one
    target, the last of the reversed list. *)
Lemma remove_repeated_targets_spec (todo : list Path) :
  forall kept,
    (forall k, In k kept ->
               ~ In (resolve fs k) (map (resolve fs) todo)) ->
    Ripper.remove_repeated_targets fs todo (kept ++ todo)%list
    = inr (kept ++ keep_last_per_target fs todo)%list.
Proof.
  induction todo as [|d rest IH]; intros kept Hkept; simpl.
  - reflexivity.
  - assert (Hd : ~ In (resolve fs d) (map (resolve fs) kept)).
    { intros Hin. apply in_map_iff in Hin as (k & Ek & Hk).
      apply (Hkept k Hk). rewrite Ek. simpl. auto. }
    rewrite map_app, list_count_app, (list_count_zero _ _ Hd). simpl.
    rewrite path_eqb_refl. simpl.
    destruct (existsb (path_eqb (resolve fs d)) (map (resolve fs) rest))
      eqn:E.
    + apply existsb_path_in in E. pose proof (list_count_pos _ _ E) as Hc.
      replace (1 <? Datatypes.S (list_count path_eqb (map (resolve fs) rest)
                                  (resolve fs d)))%nat with true
        by (symmetry; apply Nat.ltb_lt; lia).
      rewrite list_remove_skip.
      * apply IH. intros k Hk Hin. apply (Hkept k Hk). simpl. auto.
      * intros Hin. apply Hd. apply in_map. exact Hin.
    + assert (Hn : ~ In (resolve fs d) (map (resolve fs) rest)).
      { intros Hin. apply existsb_path_in in Hin. congruence. }
      rewrite (list_count_zero _ _ Hn). simpl.
      change (kept ++ d :: rest)%list with (kept ++ [d] ++ rest)%list.
      rewrite app_assoc, IH.
      * rewrite <- app_assoc. reflexivity.
      * intros k Hk. apply in_app_or in Hk as [Hk|[<-|[]]]; [|exact Hn].
        intros Hin. apply (Hkept k Hk). simpl. auto.
Qed.

Lemma keep_last_in (l : list Path) (s : Path) :
  In s (keep_last_per_target fs l)
  <-> exists l1 l2, l = (l1 ++ s :: l2)%list
                    /\ ~ In (resolve fs s) (map (resolve fs) l2).
Proof.
  induction l as [|d rest IH]; simpl.
  - split; [intros [] | intros (l1 & l2 & E & _); destruct l1; discriminate].
  - destruct (existsb (path_eqb (resolve fs d)) (map (resolve fs) rest))
      eqn:E.
    + rewrite IH. split.
      * intros (l1 & l2 & -> & Hn). exists (d :: l1), l2. auto.
      * intros (l1 & l2 & El & Hn). destruct l1 as [|x l1]; simpl in El.
        -- injection El as -> ->. apply existsb_path_in in E. contradiction.
        -- injection El as -> ->. eauto.
    + simpl. rewrite IH. split.
      * intros [<-|(l1 & l2 & -> & Hn)].
        -- exists [], rest. split; [reflexivity|].
           intros Hin. apply existsb_path_in in Hin. congruence.
        -- exists (d :: l1), l2. auto.
      * intros (l1 & l2 & El & Hn). destruct l1 as [|x l1]; simpl in El.
        -- injection El as -> ->. auto.
        -- injection El as -> ->. right. eauto.
Qed.

(** Every target among [l] is still a target among the kept links. *)
Lemma keep_last_targets (l : list Path) (p : Path) :
  In p (map (resolve fs) (keep_last_per_target fs l))
  <-> In p (map (resolve fs) l).
Proof.
  induction l as [|d rest IH]; simpl; [tauto|].
  destruct (existsb (path_eqb (resolve fs d)) (map (resolve fs) rest)) eqn:E.
  - rewrite IH. split; [auto|]. intros [<-|H]; [|exact H].
    apply existsb_path_in, E.
  - simpl. rewrite IH. tauto.
Qed.

Lemma first_to_target_rev (l : list Path) (s : Path) :
  In s (rev (keep_last_per_target fs (rev l))) <-> first_to_target fs l s.
Proof.
  rewrite <- in_rev, keep_last_in. unfold first_to_target. split.
  - intros (l1 & l2 & E & Hn). exists (rev l2), (rev l1). split.
    + apply (f_equal (@rev Path)) in E. rewrite rev_involutive in E.
      rewrite E, rev_app_distr. simpl. rewrite <- app_assoc. reflexivity.
    + intros x Hx Ex. apply Hn. rewrite <- Ex. apply in_map.
      apply in_rev. exact Hx.
  - intros (before & after & -> & Hn). exists (rev after), (rev before).
    split.
    + rewrite rev_app_distr. simpl. rewrite <- app_assoc. reflexivity.
    + intros Hin. apply in_map_iff in Hin as (x & Ex & Hx).
      apply in_rev in Hx. exact (Hn x Hx Ex).
Qed.

Lemma list_remove_nodup (l : list Path) (x : Path) :
  In x l -> NoDup l ->
  exists l', list_remove path_eqb l x = inr l'
             /\ NoDup l'
             /\ forall p, In p l' <-> In p l /\ p <> x.
Proof.
  induction l as [|y l IH]; simpl; [intros []|]. intros Hin Hnd.
  inversion Hnd as [|? ? Hy Hnd']; subst.
  destruct (path_eqb y x) eqn:E.
  - apply path_eqb_eq in E. subst y. exists l. split; [reflexivity|].
    split; [exact Hnd'|]. intros p. split.
    + intros Hp. split; [auto|]. intros ->. contradiction.
    + intros [[->|Hp] Hne]; [congruence | exact Hp].
  - assert (Hx : In x l).
    { destruct Hin as [->|Hx]; [|exact Hx].
      rewrite path_eqb_refl in E. discriminate. }
    destruct (IH Hx Hnd') as (l' & -> & Hnd1 & Hin1).
    exists (y :: l'). split; [reflexivity|]. split.
    + constructor; [|exact Hnd1]. intros Hy'. apply Hin1 in Hy' as [Hy' _].
      contradiction.
    + intros p. simpl. rewrite Hin1. split.
      * intros [->|[Hp Hne]]; [|auto]. split; [auto|]. intros ->.
        rewrite path_eqb_refl in E. discriminate.
      * intros [[->|Hp] Hne]; auto.
Qed.

(** Raw paths that are their own resolution: the last loop removes
    exactly those a kept link resolves to. *)
Lemma remove_linked_targets_spec (targets : list Path) :
  forall direct_links,
    NoDup direct_links ->
    (forall p, In p direct_links -> resolve fs p = p) ->
    exists direct_links',
      Ripper.remove_linked_targets fs targets direct_links
      = inr direct_links'
      /\ forall p, In p direct_links'
                   <-> In p direct_links /\ ~ In p targets.
Proof.
  induction targets as [|t rest IH]; intros dl Hnd Hcan; simpl.
  - exists dl. split; [reflexivity|]. tauto.
  - assert (Hmap : map (resolve fs) dl = dl).
    { rewrite <- (map_id dl) at 2. apply map_ext_in. exact Hcan. }
    rewrite Hmap.
    destruct (existsb (path_eqb t) dl) eqn:E.
    + apply existsb_path_in in E.
      destruct (list_remove_nodup dl t E Hnd) as (dl1 & -> & Hnd1 & Hin1).
      destruct (IH dl1 Hnd1) as (dl' & -> & Hin').
      { intros p Hp. apply Hcan. apply Hin1 in Hp. tauto. }
      exists dl'. split; [reflexivity|]. intros p.
      rewrite Hin', Hin1. split.
      * intros [[Hp Hne] Hn]. split; [exact Hp|]. intros [->|Hr]; auto.
      * intros [Hp Hn]. split; [split; [exact Hp|]|]; intros H; apply Hn;
          [left; congruence | right; exact H].
    + assert (Hn : ~ In t dl).
      { intros Hin. apply existsb_path_in in Hin. congruence. }
      destruct (IH dl Hnd Hcan) as (dl' & -> & Hin').
      exists dl'. split; [reflexivity|]. intros p. rewrite Hin'. split.
      * intros [Hp Hr]. split; [exact Hp|]. intros [->|H]; auto.
      * intros [Hp Hr]. split; [exact Hp|]. intros H. apply Hr. right. exact H.
Qed.

Lemma list_of_set_in (l : list Path) (p : Path) :
  In p (list_of_set path_eqb l) <-> In p l.
Proof.
  induction l as [|x l IH]; simpl; [tauto|].
  rewrite filter_In, IH, negb_true_iff. split.
  - intros [->|[Hp _]]; auto.
  - intros [->|Hp]; [auto|].
    destruct (path_eqb p x) eqn:E; [|auto].
    apply path_eqb_eq in E. auto.
Qed.

Lemma list_of_set_nodup (l : list Path) : NoDup (list_of_set path_eqb l).
Proof.
  induction l as [|x l IH]; simpl; constructor.
  - rewrite filter_In, negb_true_iff, path_eqb_refl. intros [_ H].
    discriminate.
  - apply NoDup_filter, IH.
Qed.

(** When every raw path given is its own resolution,
    [process_disc_devices] returns; of the raw paths it keeps those no
    link resolves to, and of the links those that come first for their
    target. *)
Lemma process_disc_devices_resolved_raw_paths
  (devices : list Path) (devices_root : Path) :
  let given := block_devices fs devices devices_root in
  (forall p, In p given -> is_symlink fs p = false -> resolve fs p = p) ->
  exists out,
    Ripper.process_disc_devices fs devices devices_root = inr out
    /\ (forall p, In p out -> In p given)
    /\ (forall p, In p given -> is_symlink fs p = false ->
          (In p out
           <-> forall s, In s given -> is_symlink fs s = true ->
                         resolve fs s <> p))
    /\ (forall s, In s given -> is_symlink fs s = true ->
          (In s out
           <-> first_to_target fs (filter (is_symlink fs) given) s)).
Proof.
  intros given Hcan. unfold Ripper.process_disc_devices.
  fold (block_devices fs devices devices_root). fold given.
  set (links := filter (is_symlink fs) given).
  set (raw := filter (fun x => negb (is_symlink fs x)) given).
  pose proof (remove_repeated_targets_spec (rev links) []) as Hloop.
  simpl in Hloop. rewrite Hloop; [|intros k []].
  set (kept := rev (keep_last_per_target fs (rev links))).
  assert (Hraw : forall p, In p raw <-> In p given /\ is_symlink fs p = false).
  { intros p. unfold raw. rewrite filter_In, negb_true_iff. tauto. }
  assert (Hlinks : forall p, In p links
                             <-> In p given /\ is_symlink fs p = true).
  { intros p. unfold links. apply filter_In. }
  assert (Hkept : forall s, In s kept <-> first_to_target fs links s).
  { intros s. apply first_to_target_rev. }
  assert (Hkept_in : forall s, In s kept -> In s links).
  { intros s Hs. apply Hkept in Hs as (b & a & -> & _).
    apply in_or_app. right. left. reflexivity. }
  assert (Htargets : forall p, In p (map (resolve fs) kept)
                               <-> In p (map (resolve fs) links)).
  { intros p. unfold kept. rewrite map_rev, <- in_rev, keep_last_targets.
    rewrite map_rev, <- in_rev. tauto. }
  destruct (remove_linked_targets_spec (map (resolve fs) kept)
              (list_of_set path_eqb raw) (list_of_set_nodup raw))
    as (dl & -> & Hdl).
  { intros p Hp. apply list_of_set_in, Hraw in Hp as [Hg Hs].
    apply Hcan; assumption. }
  eexists. split; [reflexivity|].
  assert (Hout : forall p, In p (sorted path_ltb (kept ++ dl)%list)
                           <-> In p kept \/ In p dl).
  { intros p. rewrite in_sorted. apply in_app_iff. }
  split; [|split].
  - intros p Hp. apply Hout in Hp as [Hp|Hp].
    + apply Hkept_in, Hlinks in Hp. tauto.
    + apply Hdl in Hp as [Hp _]. apply list_of_set_in, Hraw in Hp. tauto.
  - intros p Hg Hs. rewrite Hout. split.
    + intros [Hp|Hp] s Hsg Hss E.
      * apply Hkept_in, Hlinks in Hp. destruct Hp as [_ Hp]. congruence.
      * apply Hdl in Hp as [_ Hn]. apply Hn, Htargets.
        rewrite <- E. apply in_map, Hlinks. auto.
    + intros Hno. right. apply Hdl. split.
      * apply list_of_set_in, Hraw. auto.
      * intros Hin. apply Htargets, in_map_iff in Hin as (s & E & Hin).
        apply Hlinks in Hin as [Hsg Hss]. exact (Hno s Hsg Hss E).
  - intros s Hg Hs. rewrite Hout, <- Hkept. split; [|auto].
    intros [Hp|Hp]; [exact Hp|].
    apply Hdl in Hp as [Hp _]. apply list_of_set_in, Hraw in Hp.
    destruct Hp as [_ Hp]. congruence.
Qed.

End Devices.

(** C7.  Given the raw path [/dev/sr0] and the link [/dev/dvd] to it,
    only [/dev/dvd] is returned.  Given the same device as the raw
    path [/dev/../dev/sr0], the membership test finds the link's
    target among the resolved raw paths, but [remove] is handed the
    resolved path, which the list does not hold: the call ends in
    [ValueError] instead of returning the link. *)
Theorem process_disc_devices_unresolved_raw_path :
  Ripper.process_disc_devices two_drives [dev "sr0"; dev "dvd"] ["/"; "dev"]
  = inr [dev "dvd"]
  /\ Ripper.process_disc_devices two_drives
       [["/"; "dev"; ".."; "dev"; "sr0"]; dev "dvd"] ["/"; "dev"]
     = inl (Raise ValueError "list.remove(x): x not in list").
Proof. split; reflexivity. Qed.

(** *** The title filter *)

Lemma titles_pop_shrinks (ts0 : Ripper.Titles) (t : Z) :
  stable (fun ts : Ripper.Titles =>
            ts = ts0 \/ (List.length ts < List.length ts0)%nat)
    (Ripper.titles_pop t).
Proof.
  intros ts Hts. unfold Ripper.titles_pop.
  destruct (dict_pop Z.eqb ts t) as [ts'|] eqn:E; [|exact Hts].
  right. apply (dict_pop_length Z.eqb) in E.
  destruct Hts as [->|Hlt]; lia.
Qed.

(** One turn of the filter loop leaves the titles as they were or
    fewer. *)
Lemma filter_title_shrinks (r : Ripper.t) (t acc : Z) (ts0 : Ripper.Titles) :
  stable (fun ts : Ripper.Titles =>
            ts = ts0 \/ (List.length ts < List.length ts0)%nat)
    (Ripper.filter_title r t acc).
Proof.
  unfold Ripper.filter_title, Ripper.title_duration.
  repeat first [apply titles_pop_shrinks | stable_step].
Qed.

Lemma iterate_keys_changed_size {A} (n0 : nat) (keys : list Z)
  (body : Z -> A -> M Ripper.Titles A) (acc : A) (ts : Ripper.Titles) :
  List.length ts <> n0 ->
  exists e, iterate_keys (fun ts : Ripper.Titles => ts) n0 keys body acc ts
            = (inl e, ts).
Proof.
  intros Hne. apply Nat.eqb_neq in Hne.
  destruct keys; simpl; unfold bind, check_size; rewrite Hne; eauto.
Qed.

Lemma filter_loop_returns_unchanged (r : Ripper.t) (keys : list Z) :
  forall acc (ts ts' : Ripper.Titles) m,
    iterate_keys (fun ts : Ripper.Titles => ts) (List.length ts) keys
      (Ripper.filter_title r) acc ts = (inr m, ts') ->
    ts' = ts.
Proof.
  induction keys as [|k keys IH]; intros acc ts ts' m; simpl;
    unfold bind, check_size; rewrite Nat.eqb_refl.
  - intros [= _ <-]. reflexivity.
  - pose proof (filter_title_shrinks r k acc ts ts (or_introl eq_refl)) as S.
    destruct (Ripper.filter_title r k acc ts) as [[e|a] ts1];
      [discriminate|].
    destruct S as [->|Hlt]; [apply IH|].
    destruct (iterate_keys_changed_size (List.length ts) keys
                (Ripper.filter_title r) a ts1) as [e He]; [lia|].
    rewrite He. discriminate.
Qed.

(** X20.  The filter pass returns only when it has dropped nothing:
    a pass that pops a title never completes. *)
Lemma filter_titles_returns_unchanged (r : Ripper.t) (ts ts' : Ripper.Titles) m :
  Ripper.filter_titles r ts = (inr m, ts') -> ts' = ts.
Proof. unfold Ripper.filter_titles, for_in_dict. apply filter_loop_returns_unchanged. Qed.

(** C3.  On the titles of 500 and 4000 seconds, a movie rip with a 900
    second minimum pops the first title inside the loop over the very
    dict it pops from, and the next step of the loop raises: the pass
    does not complete, and by then only the second title is left.
    Run through [rip] on a data disc whose info pass reports these two
    titles, the exception leaves [rip] after the info run, before any
    title is extracted and before the tray is unlocked. *)
Theorem filter_titles_pop_raises :
  Ripper.filter_titles movie_ripper two_titles
  = (inl (Raise RuntimeError "dictionary changed size during iteration"),
     [(1, title_of 4000 "title_t01.mkv")])
  /\ titles (feed MakeMKV.__init__ two_titles_info) = two_titles
  /\ fst (Ripper.run_rip (data_disc two_titles_info) movie_ripper)
     = inl (Raise RuntimeError "dictionary changed size during iteration")
  /\ Ripper.trace (snd (Ripper.run_rip (data_disc two_titles_info)
                          movie_ripper))
     = [Ripper.Query; Ripper.RunInfo].
Proof. repeat split; vm_compute; reflexivity. Qed.

(** *** [rip] *)


(** C4.  On a data disc whose info pass exits with 0 and reports no
    title, [rip] returns from inside the disc-type branch: the trace
    holds no tray unlock and no eject, although the recorded exit code
    is 0 and eject was requested.  When two titles are extracted, the
    unlock happens once, but [last_run_code] then holds the wrapper
    object rather than its exit code, compares unequal to 0, and the
    eject loop is not entered. *)
Theorem rip_returns_without_unlock :
  (let '(outcome, st) := Ripper.run_rip (data_disc ["TCOUNT:0"]) generic_ripper in
   outcome = inr tt
   /\ Ripper.trace st = [Ripper.Query; Ripper.RunInfo]
   /\ Ripper.last_run_code (Ripper.self st) = Ripper.ExitCode 0
   /\ Ripper.eject_on_rip (Ripper.self st) = true)
  /\ (let '(outcome, st) :=
        Ripper.run_rip (data_disc two_titles_info) generic_ripper in
      outcome = inr tt
      /\ Ripper.trace st
         = [Ripper.Query; Ripper.RunInfo;
            Ripper.RunMkv 0; Ripper.ProcessVideo 0;
            Ripper.RunMkv 1; Ripper.ProcessVideo 1;
            Ripper.UnlockTray]
      /\ Ripper.last_run_code (Ripper.self st) = Ripper.GeneratorExitObject).
Proof. vm_compute. repeat split; reflexivity. Qed.

End RipperFacts.

(** ** makemkv.py *)
Module ParserFacts.

Import Py PyFacts EffectSpec MakeMKV ParserSpec.

(** A string is never found among [IntEnum] members. *)
Lemma contains_str_in_ints (s : string) (l : list Z) :
  contains (AStr s) (map AInt l) = false.
Proof. induction l as [|z l IH]; simpl; [reflexivity | exact IH]. Qed.

Ltac unfold_parse :=
  unfold parse, parse_try, parse_PRGV, parse_DRV, parse_MSG, parse_PRGC_PRGT,
    parse_CINFO, parse_TINFO, parse_SINFO, parse_TCOUNT, parse_unknown,
    store_title_info, store_stream_info,
    add_new_title, title_setitem, streams_getitem, title_getitem.

Ltac parser_step :=
  lazymatch goal with
  | |- stable _ (if contains (AStr _) (map AInt _) then _ else _) =>
      rewrite contains_str_in_ints
  | _ => stable_step
  end.

(** *** The titles map *)

Lemma dict_mem_get {K V} (eqb : K -> K -> bool) (d : dict (K:=K) (V:=V)) k :
  dict_mem eqb d k = true -> exists v, dict_get eqb d k = Some v.
Proof.
  unfold dict_mem. destruct (dict_get eqb d k) as [v|]; [eauto | discriminate].
Qed.

Lemma dict_get_mem {K V} (eqb : K -> K -> bool) (d : dict (K:=K) (V:=V)) k v :
  dict_get eqb d k = Some v -> dict_mem eqb d k = true.
Proof. unfold dict_mem. intros ->. reflexivity. Qed.

Lemma extends_refl ts : extends ts ts.
Proof. split; auto. Qed.

Lemma extends_trans ts1 ts2 ts3 :
  extends ts1 ts2 -> extends ts2 ts3 -> extends ts1 ts3.
Proof. intros [A1 B1] [A2 B2]. split; auto. Qed.

Lemma streams_of_title (ts : dict (K:=Z) (V:=title)) t (m : stream_map) :
  streams_of ts t = Some m ->
  exists d, dict_get Z.eqb ts t = Some d
            /\ dict_get atom_eqb d STREAMS = Some (TStreams m).
Proof.
  unfold streams_of. destruct (dict_get Z.eqb ts t) as [d|].
  - destruct (dict_get atom_eqb d STREAMS) as [[a|m']|] eqn:G; intros E.
    + discriminate E.
    + injection E as ->. exists d. split; [reflexivity | exact G].
    + discriminate E.
  - intros E. discriminate E.
Qed.

Lemma shaped_title_streams (ts : dict (K:=Z) (V:=title)) t (d : title) :
  titles_shape ts -> dict_get Z.eqb ts t = Some d ->
  exists m, dict_get atom_eqb d STREAMS = Some (TStreams m)
            /\ streams_of ts t = Some m.
Proof.
  intros Hs Hd.
  destruct (dict_get_forall Z.eqb title_shape ts t d Hs Hd) as [m Hm].
  exists m. split; [exact Hm|]. unfold streams_of. rewrite Hd, Hm. reflexivity.
Qed.

(** Title [t] created when absent. *)
Lemma ensure_title_spec ts t :
  extends ts (ensure_title ts t)
  /\ (titles_shape ts -> titles_shape (ensure_title ts t))
  /\ has_title (ensure_title ts t) t.
Proof.
  unfold ensure_title. destruct (dict_mem Z.eqb ts t) eqn:E.
  - split; [apply extends_refl|]. split; [auto | exact E].
  - split; [split|split].
    + intros t' Ht'. unfold has_title.
      rewrite (dict_mem_set Z.eqb Z.eqb_eq). rewrite Ht'. apply orb_true_r.
    + intros t' n (m & Hm & Hn). exists m. split; [|exact Hn].
      destruct (streams_of_title _ _ _ Hm) as (d & Hd & _).
      unfold streams_of in *. rewrite (dict_get_set Z.eqb Z.eqb_eq).
      destruct (Z.eqb t t') eqn:Et; [|exact Hm].
      apply Z.eqb_eq in Et. subst t'.
      apply dict_get_mem in Hd. congruence.
    + intros Hs. apply dict_set_forall; [exact Hs|].
      exists []. reflexivity.
    + unfold has_title. rewrite (dict_mem_set Z.eqb Z.eqb_eq), Z.eqb_refl.
      reflexivity.
Qed.

(** An attribute stored in title [t]. *)
Lemma set_attribute_spec (ts : dict (K:=Z) (V:=title)) t (d : title) key v :
  dict_get Z.eqb ts t = Some d -> titles_shape ts ->
  let ts' :=
    dict_set Z.eqb ts t (dict_set atom_eqb d (AInt key) v) in
  extends ts ts' /\ titles_shape ts' /\ has_title ts' t.
Proof.
  intros Hd Hs ts'.
  assert (Hso : forall t', streams_of ts' t' = streams_of ts t').
  { intros t'. unfold streams_of, ts'.
    rewrite (dict_get_set Z.eqb Z.eqb_eq).
    destruct (Z.eqb t t') eqn:Et; [|reflexivity].
    apply Z.eqb_eq in Et. subst t'. rewrite Hd.
    rewrite (dict_get_set atom_eqb atom_eqb_eq). reflexivity. }
  split; [split|split].
  - intros t' Ht'. unfold has_title, ts'.
    rewrite (dict_mem_set Z.eqb Z.eqb_eq), Ht'. apply orb_true_r.
  - intros t' n (m & Hm & Hn). exists m. rewrite Hso. auto.
  - apply dict_set_forall; [exact Hs|].
    destruct (dict_get_forall Z.eqb title_shape ts t d Hs Hd) as [m Hm].
    exists m. rewrite (dict_get_set atom_eqb atom_eqb_eq). exact Hm.
  - unfold has_title, ts'.
    rewrite (dict_mem_set Z.eqb Z.eqb_eq), Z.eqb_refl. reflexivity.
Qed.

(** A larger stream map stored under ["streams"] of title [t]. *)
Lemma set_streams_spec (ts : dict (K:=Z) (V:=title)) t (d : title)
  (m m' : stream_map) :
  dict_get Z.eqb ts t = Some d ->
  dict_get atom_eqb d STREAMS = Some (TStreams m) ->
  (forall n, dict_mem Z.eqb m n = true -> dict_mem Z.eqb m' n = true) ->
  titles_shape ts ->
  let ts' :=
    dict_set Z.eqb ts t (dict_set atom_eqb d STREAMS (TStreams m')) in
  extends ts ts' /\ titles_shape ts' /\ has_title ts' t
  /\ dict_get Z.eqb ts' t = Some (dict_set atom_eqb d STREAMS (TStreams m'))
  /\ streams_of ts' t = Some m'.
Proof.
  intros Hd Hm Hsub Hs ts'.
  assert (Hget : dict_get Z.eqb ts' t
                 = Some (dict_set atom_eqb d STREAMS (TStreams m'))).
  { unfold ts'. rewrite (dict_get_set Z.eqb Z.eqb_eq), Z.eqb_refl.
    reflexivity. }
  assert (Hso : streams_of ts' t = Some m').
  { unfold streams_of. rewrite Hget.
    rewrite (dict_get_set atom_eqb atom_eqb_eq). reflexivity. }
  split; [split|split; [|split; [|split]]].
  - intros t' Ht'. unfold has_title, ts'.
    rewrite (dict_mem_set Z.eqb Z.eqb_eq), Ht'. apply orb_true_r.
  - intros t' n (m0 & Hm0 & Hn).
    destruct (Z.eqb t t') eqn:Et.
    + apply Z.eqb_eq in Et. subst t'. exists m'. split; [exact Hso|].
      apply Hsub. unfold streams_of in Hm0. rewrite Hd, Hm in Hm0.
      injection Hm0 as ->. exact Hn.
    + exists m0. split; [|exact Hn]. unfold streams_of, ts'.
      rewrite (dict_get_set Z.eqb Z.eqb_eq), Et. exact Hm0.
  - apply dict_set_forall; [exact Hs|].
    exists m'. rewrite (dict_get_set atom_eqb atom_eqb_eq). reflexivity.
  - unfold has_title, ts'.
    rewrite (dict_mem_set Z.eqb Z.eqb_eq), Z.eqb_refl. reflexivity.
  - exact Hget.
  - exact Hso.
Qed.

Section Parser.

Context `{PyFloat}.

Lemma parse_try_keeps_message_error_count_any :
  keeps message_error_count parse_try.
Proof. intros v. unfold_parse. repeat parser_step. Qed.

Lemma parse_try_keeps_message_success_count_any :
  keeps message_success_count parse_try.
Proof. intros v. unfold_parse. repeat parser_step. Qed.

Lemma parse_keeps_message_error_count (line : string) :
  keeps message_error_count (parse line).
Proof. intros v. unfold_parse. repeat parser_step. Qed.

Lemma parse_keeps_message_success_count (line : string) :
  keeps message_success_count (parse line).
Proof. intros v. unfold_parse. repeat parser_step. Qed.

(** *** Resilience *)

Lemma split_fields_no_sep (sep : ascii) (limit : option nat) (s : string) :
  contains_char sep s = false -> split_fields sep limit s = (s, []).
Proof.
  induction s as [|c s IH]; simpl; [reflexivity|].
  intros E. apply orb_false_iff in E as [E1 E2].
  rewrite E1, andb_false_r, (IH E2). reflexivity.
Qed.

Lemma split_no_sep (sep : ascii) (maxsplit : Z) (s : string) :
  contains_char sep s = false -> split s sep maxsplit = [s].
Proof.
  intros E. unfold split. rewrite (split_fields_no_sep _ _ _ E). reflexivity.
Qed.

Lemma parse_returns (p : MakeMKVParser) (line : string) :
  fst (parse line p) = inr tt.
Proof.
  unfold parse, bind, modify, try_except_Exception, gets.
  destruct (parse_try (set_raw_message (strip line) p)) as [[e|[]] p1];
    reflexivity.
Qed.

Lemma parse_try_keeps_raw_message : keeps raw_message parse_try.
Proof. intros v. unfold_parse. repeat parser_step. Qed.

Lemma stable_fails {A} (P : MakeMKVParser -> Prop) (c : Parse A) :
  stable P c -> hoare P c (fun _ _ => True) P.
Proof. intros Hc. eapply hoare_weaken; [exact Hc | auto ..]. Qed.

(** A branch of [parse_try] taken apart step by step. *)
Ltac run_branch :=
  intros s Hs;
  unfold bind, lift, modify, gets, ret, raise;
  repeat (simpl;
          match goal with
          | |- True => exact I
          | |- _ = _ => exact Hs
          | |- context [match ?x with _ => _ end] =>
              lazymatch x with
              | context [match _ with _ => _ end] => fail
              | _ => destruct x
              end
          end).

(** The dispatch of [parse_try], each branch left to [tac]. *)
Ltac by_branch tac :=
  unfold parse_try;
  eapply hoare_bind; [apply stable_gets | intros raw; cbv beta];
  eapply hoare_bind; [apply stable_lift | intros [ty content]; cbv beta];
  eapply hoare_bind;
    [apply stable_modify; intros ? ?; simpl; assumption
    | intros ?; cbv beta];
  repeat lazymatch goal with
         | |- hoare _ (if ?b then _ else _) _ _ => destruct b
         end;
  tac.

Ltac easy_branch :=
  apply stable_fails; unfold_parse; solve [repeat parser_step].

Lemma parse_try_fails_title_count (v : Z) :
  hoare (fun p => title_count p = v) parse_try
    (fun _ _ => True) (fun p => title_count p = v).
Proof.
  by_branch ltac:(first [easy_branch | unfold parse_TCOUNT; run_branch]).
Qed.

Lemma parse_try_fails_disc v :
  hoare (fun p => disc p = v) parse_try
    (fun _ _ => True) (fun p => disc p = v).
Proof.
  by_branch ltac:(first [easy_branch | unfold parse_CINFO; run_branch]).
Qed.

Lemma parse_try_fails_operation v :
  hoare (fun p => operation p = v) parse_try
    (fun _ _ => True) (fun p => operation p = v).
Proof.
  by_branch ltac:(first [easy_branch | unfold parse_PRGC_PRGT; run_branch]).
Qed.

Lemma parse_on_failure (p p1 : MakeMKVParser) (line : string) (e : exn) :
  parse_try (set_raw_message (strip line) p) = (inl e, p1) ->
  after_parse p line = set_message (exception_message e (strip line)) p1.
Proof.
  intros E.
  assert (R : raw_message p1 = strip line).
  { pose proof (parse_try_keeps_raw_message (strip line)
                  (set_raw_message (strip line) p) eq_refl) as K.
    rewrite E in K. exact K. }
  unfold after_parse, parse, bind, modify, try_except_Exception, gets.
  rewrite E. simpl. rewrite R. reflexivity.
Qed.

(** C2, amended.  [parse] never raises, and always stores the stripped
    line in [raw_message].  When decoding raises, [message] becomes
    "Parsing Exception: <failure>", a line feed, "Raw Message:
    <stripped line>", and every other field keeps what the decode had
    assigned before it raised; [title_count], [disc], [operation] and
    the two counters then still hold what they held before the call.
    For a line without ':' nothing but [raw_message] and [message]
    changes. *)
Theorem parse_resilient (p : MakeMKVParser) (line : string) :
  fst (parse line p) = inr tt
  /\ raw_message (after_parse p line) = strip line
  /\ (forall e p1,
         parse_try (set_raw_message (strip line) p) = (inl e, p1) ->
         after_parse p line
         = set_message (exception_message e (strip line)) p1
         /\ title_count (after_parse p line) = title_count p
         /\ disc (after_parse p line) = disc p
         /\ operation (after_parse p line) = operation p
         /\ message_error_count (after_parse p line) = message_error_count p
         /\ message_success_count (after_parse p line)
            = message_success_count p)
  /\ (contains_char ":" (strip line) = false ->
      after_parse p line
      = set_message
          (exception_message (not_enough_values 2 1) (strip line))
          (set_raw_message (strip line) p)).
Proof.
  split; [apply parse_returns|]. split; [|split].
  - unfold after_parse, parse, bind, modify, try_except_Exception, gets.
    pose proof (parse_try_keeps_raw_message (strip line)
                  (set_raw_message (strip line) p) eq_refl) as K.
    destruct (parse_try (set_raw_message (strip line) p)) as [[e|[]] p1];
      simpl in *; exact K.
  - intros e p1 E. rewrite (parse_on_failure _ _ _ _ E).
    split; [reflexivity|].
    pose proof (parse_try_fails_title_count (title_count p)
                  (set_raw_message (strip line) p) eq_refl) as K1.
    pose proof (parse_try_fails_disc (disc p)
                  (set_raw_message (strip line) p) eq_refl) as K2.
    pose proof (parse_try_fails_operation (operation p)
                  (set_raw_message (strip line) p) eq_refl) as K3.
    pose proof (parse_try_keeps_message_error_count_any
                  (message_error_count p)
                  (set_raw_message (strip line) p) eq_refl) as K4.
    pose proof (parse_try_keeps_message_success_count_any
                  (message_success_count p)
                  (set_raw_message (strip line) p) eq_refl) as K5.
    rewrite E in K1, K2, K3, K4, K5. simpl. auto.
  - intros E. apply parse_on_failure.
    unfold parse_try, bind, gets, lift. simpl.
    rewrite (split_no_sep _ _ _ E). reflexivity.
Qed.

(** *** Titles and streams *)

Lemma add_new_title_spec (ts : Ripper.Titles) (t : Z) :
  hoare (fun p => titles p = ts) (add_new_title t)
    (fun _ p => titles p = ensure_title ts t) (fun _ => False).
Proof.
  intros s Hs.
  unfold add_new_title, title_setitem, title_getitem, bind, gets, modify,
    ret, raise, ensure_title.
  rewrite <- Hs. destruct (dict_mem Z.eqb (titles s) t) eqn:E; simpl.
  - reflexivity.
  - rewrite (dict_get_set Z.eqb Z.eqb_eq), Z.eqb_refl. simpl.
    apply (dict_set_set Z.eqb Z.eqb_eq).
Qed.

Lemma title_setitem_spec (ts : Ripper.Titles) (t : Z) (d : title) key v :
  dict_get Z.eqb ts t = Some d ->
  hoare (fun p => titles p = ts) (title_setitem t key v)
    (fun _ p => titles p = dict_set Z.eqb ts t (dict_set atom_eqb d key v))
    (fun _ => False).
Proof.
  intros Hd s Hs.
  unfold title_setitem, title_getitem, bind, gets, modify, ret, raise.
  rewrite Hs, Hd. simpl. rewrite Hs. reflexivity.
Qed.

Lemma streams_getitem_spec (ts : Ripper.Titles) (t : Z) (m : stream_map) :
  streams_of ts t = Some m ->
  hoare (fun p => titles p = ts) (streams_getitem t)
    (fun m' p => m' = m /\ titles p = ts) (fun _ => False).
Proof.
  intros Hm s Hs. destruct (streams_of_title _ _ _ Hm) as (d & Hd & Hg).
  unfold streams_getitem, title_getitem, bind, gets, ret, raise.
  rewrite Hs, Hd. simpl. rewrite Hg. simpl. auto.
Qed.

(** A conversion that fails leaves the parser as it was. *)
Lemma hoare_lift_keep {A} (P E : MakeMKVParser -> Prop) (r : result A) :
  (forall p, P p -> E p) -> hoare P (lift r) (fun _ => P) E.
Proof. intros HE. apply hoare_lift; auto. Qed.

(** What [store_title_info] leaves in [titles]. *)
Lemma store_title_info_spec (ts0 : Ripper.Titles) (t id : Z) (value : atom) :
  titles_shape ts0 ->
  let post := fun p : MakeMKVParser =>
                extends ts0 (titles p) /\ titles_shape (titles p)
                /\ has_title (titles p) t in
  hoare (fun p => titles p = ts0) (store_title_info t id value)
    (fun _ => post) post.
Proof.
  intros Hs0 post. unfold store_title_info.
  destruct (ensure_title_spec ts0 t) as (Hext & Hshape & Hhas).
  specialize (Hshape Hs0).
  destruct (dict_mem_get _ _ _ Hhas) as [d1 Hd1].
  apply hoare_bind with (R := fun _ p => titles p = ensure_title ts0 t).
  { eapply hoare_weaken;
      [apply add_new_title_spec | intros s Hs; exact Hs
      | intros a s Hs; exact Hs | intros s []]. }
  intros _.
  apply hoare_bind with (R := fun _ p => titles p = ensure_title ts0 t).
  { apply hoare_lift_keep. intros p Hp. unfold post. rewrite Hp. auto. }
  intros key.
  eapply hoare_weaken;
    [apply (title_setitem_spec _ _ _ _ _ Hd1) | intros s Hs; exact Hs | |].
  - intros a p Hp. cbv beta in Hp. unfold post. rewrite Hp.
    destruct (set_attribute_spec _ _ _ key (TAtom value) Hd1 Hshape)
      as (E1 & E2 & E3).
    split; [eapply extends_trans; eassumption | auto].
  - intros s [].
Qed.

(** What [store_stream_info] leaves in [titles]. *)
Lemma store_stream_info_spec (ts0 : Ripper.Titles) (t n id : Z) (value : atom) :
  titles_shape ts0 ->
  let post := fun p : MakeMKVParser =>
                extends ts0 (titles p) /\ titles_shape (titles p)
                /\ has_title (titles p) t /\ has_stream (titles p) t n in
  hoare (fun p => titles p = ts0) (store_stream_info t n id value)
    (fun _ => post) post.
Proof.
  intros Hs0 post. unfold store_stream_info.
  destruct (ensure_title_spec ts0 t) as (Hext & Hshape & Hhas).
  specialize (Hshape Hs0).
  destruct (dict_mem_get _ _ _ Hhas) as [d1 Hd1].
  destruct (shaped_title_streams _ _ _ Hshape Hd1) as (m1 & Hg1 & Hso1).
  set (ts1 := ensure_title ts0 t) in *.
  apply hoare_bind with (R := fun _ p => titles p = ts1).
  { eapply hoare_weaken;
      [apply add_new_title_spec | intros s Hs; exact Hs
      | intros a s Hs; exact Hs | intros s []]. }
  intros _.
  apply hoare_bind with (R := fun m p => m = m1 /\ titles p = ts1).
  { eapply hoare_weaken;
      [apply (streams_getitem_spec _ _ _ Hso1) | intros s Hs; exact Hs
      | intros a s Hs; exact Hs | intros s []]. }
  intros m.
  (* the stream map and the titles once stream [n] is there *)
  set (m2 := if dict_mem Z.eqb m1 n then m1 else dict_set Z.eqb m1 n []).
  set (ts2 := if dict_mem Z.eqb m1 n then ts1
              else dict_set Z.eqb ts1 t
                     (dict_set atom_eqb d1 STREAMS (TStreams m2))).
  assert (Hsub : forall x, dict_mem Z.eqb m1 x = true
                           -> dict_mem Z.eqb m2 x = true).
  { intros x Hx. unfold m2. destruct (dict_mem Z.eqb m1 n); [exact Hx|].
    rewrite (dict_mem_set Z.eqb Z.eqb_eq), Hx. apply orb_true_r. }
  assert (Hn2 : dict_mem Z.eqb m2 n = true).
  { unfold m2. destruct (dict_mem Z.eqb m1 n) eqn:E; [exact E|].
    rewrite (dict_mem_set Z.eqb Z.eqb_eq), Z.eqb_refl. reflexivity. }
  assert (H2 : extends ts1 ts2 /\ titles_shape ts2 /\ has_title ts2 t
               /\ (exists d2, dict_get Z.eqb ts2 t = Some d2
                              /\ dict_get atom_eqb d2 STREAMS
                                 = Some (TStreams m2))
               /\ streams_of ts2 t = Some m2).
  { unfold ts2, m2. destruct (dict_mem Z.eqb m1 n) eqn:E.
    - split; [apply extends_refl|]. split; [exact Hshape|].
      split; [exact Hhas|]. split; [eauto | exact Hso1].
    - destruct (set_streams_spec ts1 t d1 m1 (dict_set Z.eqb m1 n [])
                  Hd1 Hg1) as (E1 & E2 & E3 & E4 & E5).
      + intros x Hx. rewrite (dict_mem_set Z.eqb Z.eqb_eq), Hx.
        apply orb_true_r.
      + exact Hshape.
      + split; [exact E1|]. split; [exact E2|]. split; [exact E3|].
        split; [|exact E5].
        eexists. split; [exact E4|].
        rewrite (dict_get_set atom_eqb atom_eqb_eq). reflexivity. }
  destruct H2 as (Hext2 & Hshape2 & Hhas2 & (d2 & Hd2 & Hg2) & Hso2).
  assert (Hpost2 : forall p, titles p = ts2 -> post p).
  { intros p Hp. unfold post. rewrite Hp.
    split; [eapply extends_trans; eassumption|].
    split; [exact Hshape2|]. split; [exact Hhas2|].
    exists m2. auto. }
  apply hoare_bind with (R := fun _ p => titles p = ts2).
  { intros s [-> Hs]. unfold ts2, m2.
    destruct (dict_mem Z.eqb m1 n) eqn:E; simpl.
    - exact Hs.
    - pose proof (title_setitem_spec ts1 t d1 STREAMS
                    (TStreams (dict_set Z.eqb m1 n [])) Hd1 s Hs) as K.
      destruct (title_setitem t STREAMS
                  (TStreams (dict_set Z.eqb m1 n [])) s) as [[e|u] s1];
        [destruct K | exact K]. }
  intros _.
  apply hoare_bind with (R := fun m p => m = m2 /\ titles p = ts2).
  { eapply hoare_weaken;
      [apply (streams_getitem_spec _ _ _ Hso2) | intros s Hs; exact Hs
      | intros a s Hs; exact Hs | intros s []]. }
  intros m'.
  destruct (dict_mem_get _ _ _ Hn2) as [attrs2 Ha2].
  apply hoare_bind
    with (R := fun a p => a = attrs2 /\ m' = m2 /\ titles p = ts2).
  { intros s [-> Hs]. rewrite Ha2. simpl. auto. }
  intros attrs.
  apply hoare_bind
    with (R := fun _ p => attrs = attrs2 /\ m' = m2 /\ titles p = ts2).
  { apply hoare_lift.
    - intros a s _ Hp. exact Hp.
    - intros e s _ (_ & _ & Hp). apply Hpost2, Hp. }
  intros key s (-> & -> & Hs).
  pose proof (title_setitem_spec ts2 t d2 STREAMS
                (TStreams (dict_set Z.eqb m2 n
                             (dict_set atom_eqb attrs2 (AInt key) value)))
                Hd2 s Hs) as K.
  match goal with
  | |- match ?c with _ => _ end => destruct c as [[e|u] s1]
  end; [destruct K|].
  unfold post. rewrite K.
  destruct (set_streams_spec ts2 t d2 m2
              (dict_set Z.eqb m2 n
                 (dict_set atom_eqb attrs2 (AInt key) value))
              Hd2 Hg2) as (E1 & E2 & E3 & E4 & E5).
  - intros x Hx. rewrite (dict_mem_set Z.eqb Z.eqb_eq), Hx.
    apply orb_true_r.
  - exact Hshape2.
  - split; [eapply extends_trans; [exact Hext|];
            eapply extends_trans; eassumption|].
    split; [exact E2|]. split; [exact E3|].
    eexists. split; [exact E5|].
    rewrite (dict_mem_set Z.eqb Z.eqb_eq), Z.eqb_refl. reflexivity.
Qed.

Lemma after_parse_titles (p : MakeMKVParser) (line : string) :
  titles (after_parse p line)
  = titles (snd (parse_try (set_raw_message (strip line) p))).
Proof.
  unfold after_parse, parse, bind, modify, try_except_Exception, gets.
  destruct (parse_try (set_raw_message (strip line) p)) as [[e|u] p1];
    reflexivity.
Qed.

Lemma hoare_run {A} (P Q : MakeMKVParser -> Prop) (c : Parse A) p :
  hoare P c (fun _ => Q) Q -> P p -> Q (snd (c p)).
Proof.
  intros Hc Hp. specialize (Hc p Hp).
  destruct (c p) as [[e|a] p1]; exact Hc.
Qed.

(** Whatever the line, [parse_try] only adds to a well-shaped titles
    map. *)
Lemma parse_try_titles (ts0 : Ripper.Titles) :
  titles_shape ts0 ->
  let good := fun p : MakeMKVParser =>
                extends ts0 (titles p) /\ titles_shape (titles p) in
  hoare (fun p => titles p = ts0) parse_try (fun _ => good) good.
Proof.
  intros Hs0 good.
  assert (Hgood : forall p, titles p = ts0 -> good p).
  { intros p Hp. unfold good. rewrite Hp. split; [apply extends_refl | auto]. }
  assert (Hkeep : forall c : Parse unit,
             stable (fun p => titles p = ts0) c ->
             hoare (fun p => titles p = ts0) c (fun _ => good) good).
  { intros c Hc. eapply hoare_weaken; [exact Hc | auto ..]. }
  unfold parse_try.
  apply hoare_bind with (R := fun _ p => titles p = ts0);
    [apply hoare_gets; auto | intros raw].
  apply hoare_bind with (R := fun _ p => titles p = ts0);
    [apply hoare_lift_keep; exact Hgood | intros [ty content]].
  apply hoare_bind with (R := fun _ p => titles p = ts0);
    [apply hoare_modify; intros p Hp; exact Hp | intros ?; cbv beta].
  repeat lazymatch goal with
         | |- hoare _ (if ?b then _ else _) _ _ => destruct b
         end;
    try (apply Hkeep; unfold_parse; solve [repeat parser_step]).
  - (* TINFO *)
    unfold parse_TINFO.
    apply hoare_bind with (R := fun _ p => titles p = ts0);
      [apply hoare_lift_keep; exact Hgood | intros [[[tn id] code] value]].
    do 4 (apply hoare_bind with (R := fun _ p => titles p = ts0);
          [apply hoare_lift_keep; exact Hgood | intros ?]).
    eapply hoare_weaken;
      [apply (store_title_info_spec ts0 _ _ _ Hs0) | intros s Hs; exact Hs
      | intros u s (E1 & E2 & _); split; assumption
      | intros s (E1 & E2 & _); split; assumption].
  - (* SINFO *)
    unfold parse_SINFO.
    apply hoare_bind with (R := fun _ p => titles p = ts0);
      [apply hoare_lift_keep; exact Hgood
      | intros [[[[tn sn] id] code] value]].
    do 5 (apply hoare_bind with (R := fun _ p => titles p = ts0);
          [apply hoare_lift_keep; exact Hgood | intros ?]).
    eapply hoare_weaken;
      [apply (store_stream_info_spec ts0 _ _ _ _ Hs0) | intros s Hs; exact Hs
      | intros u s (E1 & E2 & _); split; assumption
      | intros s (E1 & E2 & _); split; assumption].
Qed.

Lemma after_parse_good (p : MakeMKVParser) (line : string) :
  titles_shape (titles p) ->
  extends (titles p) (titles (after_parse p line))
  /\ titles_shape (titles (after_parse p line)).
Proof.
  intros Hs. rewrite after_parse_titles.
  apply (hoare_run _ _ _ _ (parse_try_titles (titles p) Hs)).
  reflexivity.
Qed.

Lemma feed_shape (lines : list string) :
  forall p, titles_shape (titles p) -> titles_shape (titles (feed p lines)).
Proof.
  induction lines as [|line lines IH]; intros p Hp; simpl; [exact Hp|].
  apply IH, after_parse_good, Hp.
Qed.




(** C1.  No line moves either counter: [code] is still the string the
    split produced when it is looked up among the [MSG_CODE] members,
    and a string equals none of them.  The line for code 5011
    (OPERATION_COMPLETE) is decoded, its code stored, and
    [message_success_count] stays 0; the line for code 5010
    (DISC_OPEN_FAIL) leaves [message_error_count] at 0. *)
Theorem parse_counts_nothing :
  (forall p line,
      message_error_count (after_parse p line) = message_error_count p
      /\ message_success_count (after_parse p line)
         = message_success_count p)
  /\ (message_code (after_parse __init__ success_line) = 5011
      /\ message (after_parse __init__ success_line)
         = "Operation successfully completed"
      /\ message_success_count (after_parse __init__ success_line) = 0)
  /\ (message_code (after_parse __init__ error_line) = 5010
      /\ message (after_parse __init__ error_line) = "Failed to open disc"
      /\ message_error_count (after_parse __init__ error_line) = 0).
Proof.
  split; [|split; repeat split; reflexivity].
  intros p line. split.
  - exact (stable_run _ _ p
             (parse_keeps_message_error_count line _) eq_refl).
  - exact (stable_run _ _ p
             (parse_keeps_message_success_count line _) eq_refl).
Qed.

End Parser.

(** C2, as stated, fails: after the success line has been decoded, a
    MSG line with the unknown code 9999 fails to decode, and by then
    [message_code], [message_format] and [message_type] have been
    overwritten. *)
Lemma parse_failure_overwrites_fields :
  ~ (forall (p : MakeMKVParser) (line : string),
        decode_fails p line -> others_unchanged p (after_parse p line)).
Proof.
  intros Hclaim.
  destruct (Hclaim (after_parse __init__ success_line) "MSG:9999,0,0,x,y")
    as (_ & _ & _ & _ & _ & _ & _ & _ & _ & _ & _ & _ & Hcode & _).
  - unfold decode_fails.
    destruct (parse_try (set_raw_message (strip "MSG:9999,0,0,x,y")
                           (after_parse __init__ success_line)))
      as [[e|u] p1] eqn:E.
    + exists e, p1. reflexivity.
    + exfalso. apply (f_equal fst) in E. vm_compute in E. discriminate E.
  - vm_compute in Hcode. discriminate Hcode.
Qed.

(** A line without its delimiter, fed to a fresh parser. *)
Lemma parse_resilient_witness :
  after_parse __init__ "garbage"
  = set_message
      (exception_message (not_enough_values 2 1) "garbage")
      (set_raw_message "garbage" __init__).
Proof.
  exact (proj2 (proj2 (proj2 (parse_resilient __init__ "garbage"))) eq_refl).
Defined.



End ParserFacts.

(** ** makemkv.py: what a line touches *)
Module DecodeFacts.

Import Py PyFacts EffectSpec MakeMKV ParserSpec ParserFacts.

(** *** Strings *)

Lemma rstrip_with_cons (sp : ascii -> bool) (c : ascii) (s : string) :
  rstrip_with sp (String c s)
  = match rstrip_with sp s with
    | EmptyString => if sp c then EmptyString else String c EmptyString
    | r => String c r
    end.
Proof. reflexivity. Qed.

Lemma rstrip_with_idempotent (sp : ascii -> bool) (s : string) :
  rstrip_with sp (rstrip_with sp s) = rstrip_with sp s.
Proof.
  induction s as [|c s IH]; [reflexivity|].
  rewrite rstrip_with_cons.
  destruct (rstrip_with sp s) as [|c1 r] eqn:E.
  - destruct (sp c) eqn:Ec; [reflexivity|].
    rewrite rstrip_with_cons. simpl. rewrite Ec. reflexivity.
  - rewrite rstrip_with_cons, IH. reflexivity.
Qed.

Lemma lstrip_with_head (sp : ascii -> bool) (s : string) :
  lstrip_with sp s = EmptyString
  \/ exists c t, lstrip_with sp s = String c t /\ sp c = false.
Proof.
  induction s as [|c s IH]; simpl; [left; reflexivity|].
  destruct (sp c) eqn:Ec; [exact IH|].
  right. exists c, s. split; [reflexivity | exact Ec].
Qed.

Lemma rstrip_with_keeps_head (sp : ascii -> bool) (c : ascii) (t : string) :
  sp c = false -> exists t', rstrip_with sp (String c t) = String c t'.
Proof.
  intros Ec. rewrite rstrip_with_cons.
  destruct (rstrip_with sp t) as [|c1 r]; [rewrite Ec|]; eauto.
Qed.

Lemma strip_idempotent (s : string) : strip (strip s) = strip s.
Proof.
  unfold strip.
  destruct (lstrip_with_head isspace s) as [E | (c & t & E & Ec)]; rewrite E.
  - reflexivity.
  - destruct (rstrip_with_keeps_head isspace c t Ec) as [t' Et].
    rewrite Et. simpl lstrip_with. rewrite Ec, <- Et.
    apply rstrip_with_idempotent.
Qed.

Lemma rstrip_with_app_space (sp : ascii -> bool) (c : ascii) (s : string) :
  sp c = true ->
  rstrip_with sp (s ++ String c EmptyString) = rstrip_with sp s.
Proof.
  intros Ec. induction s as [|a s IH].
  - simpl. rewrite Ec. reflexivity.
  - change (String a s ++ String c EmptyString)%string
      with (String a (s ++ String c EmptyString)).
    rewrite !rstrip_with_cons, IH. reflexivity.
Qed.

Lemma strip_app_space (c : ascii) (s : string) :
  isspace c = true -> strip (s ++ String c EmptyString) = strip s.
Proof.
  intros Ec. unfold strip. induction s as [|a s IH].
  - simpl. rewrite Ec. reflexivity.
  - change (String a s ++ String c EmptyString)%string
      with (String a (s ++ String c EmptyString)).
    simpl lstrip_with. destruct (isspace a); [exact IH|].
    apply (rstrip_with_app_space isspace c (String a s) Ec).
Qed.

Lemma append_empty (s : string) : (s ++ EmptyString)%string = s.
Proof. induction s as [|c s IH]; simpl; [|rewrite IH]; reflexivity. Qed.

Lemma contains_char_app (c : ascii) (s t : string) :
  contains_char c (s ++ t) = contains_char c s || contains_char c t.
Proof.
  induction s as [|a s IH]; simpl; [reflexivity|].
  rewrite IH, orb_assoc. reflexivity.
Qed.

(** Nothing of [c] is left once it has been replaced by nothing. *)
Lemma replace_removes (c : ascii) (s : string) :
  contains_char c (replace s c EmptyString) = false.
Proof.
  induction s as [|a s IH]; simpl; [reflexivity|].
  destruct (Ascii.eqb a c) eqn:E; simpl; [exact IH|].
  rewrite E, IH. reflexivity.
Qed.

Lemma replace_absent (c : ascii) (s t : string) :
  contains_char c s = false ->
  replace (s ++ t) c EmptyString = (s ++ replace t c EmptyString)%string.
Proof.
  induction s as [|a s IH]; simpl; [reflexivity|].
  intros E. apply orb_false_iff in E as [E1 E2].
  rewrite E1, (IH E2). reflexivity.
Qed.

Lemma replace_quoted (s : string) :
  contains_char dquote s = false -> replace (quoted s) dquote EmptyString = s.
Proof.
  intros E. unfold quoted. simpl.
  rewrite (replace_absent _ _ _ E). simpl. apply append_empty.
Qed.

Lemma replace_unquoted (s : string) :
  contains_char dquote s = false -> replace s dquote EmptyString = s.
Proof.
  intros E. rewrite <- (append_empty s) at 1.
  rewrite (replace_absent _ _ _ E). simpl. apply append_empty.
Qed.

Lemma split_fields_no_more (sep : ascii) (s : string) :
  split_fields sep (Some O) s = (s, []).
Proof.
  induction s as [|c s IH]; simpl; [reflexivity|]. rewrite IH. reflexivity.
Qed.

(** A first field without the separator is split off whole. *)
Lemma split_fields_first (sep : ascii) (n : nat) (h rest : string) :
  contains_char sep h = false ->
  split_fields sep (Some (Datatypes.S n)) (h ++ String sep rest)
  = (h, fst (split_fields sep (Some n) rest)
        :: snd (split_fields sep (Some n) rest)).
Proof.
  induction h as [|c h IH]; intros E.
  - simpl. rewrite Ascii.eqb_refl.
    destruct (split_fields sep (Some n) rest); reflexivity.
  - simpl in E. apply orb_false_iff in E as [E1 E2].
    simpl. rewrite E1. simpl in IH. rewrite (IH E2). reflexivity.
Qed.

Lemma split_three (sep : ascii) (a b c : string) :
  contains_char sep a = false -> contains_char sep b = false ->
  split (a ++ String sep (b ++ String sep c)) sep 2 = [a; b; c].
Proof.
  intros Ea Eb. unfold split.
  change (if 2 <? 0 then None else Some (Z.to_nat 2)) with (Some 2%nat).
  rewrite (split_fields_first _ _ _ _ Ea), (split_fields_first _ _ _ _ Eb).
  rewrite split_fields_no_more. reflexivity.
Qed.

(** *** Values *)

(** Hours, minutes and seconds become seconds. *)
Lemma process_id_duration (raw h m s : string) (hours minutes seconds : Z) :
  replace raw dquote EmptyString = (h ++ ":" ++ m ++ ":" ++ s)%string ->
  contains_char ":" h = false -> contains_char ":" m = false ->
  int h = inr hours -> int m = inr minutes -> int s = inr seconds ->
  _process_id MakeMKVMessage.ATTR_ID.Duration raw
  = inr (AInt (seconds + hours * 3600 + minutes * 60)).
Proof.
  intros Hraw Eh Em Hh Hm Hs. unfold _process_id.
  rewrite Z.eqb_refl, Hraw.
  change (h ++ ":" ++ m ++ ":" ++ s)%string
    with (h ++ String ":" (m ++ String ":" s))%string.
  rewrite (split_three _ _ _ _ Eh Em). unfold unpack3_map.
  rewrite Hh, Hm, Hs. reflexivity.
Qed.

(** X4.  A Duration value [H:M:S], between double quotes or bare, is
    stored as the number of seconds [3600 H + 60 M + S], whatever the
    width of the three fields. *)
Theorem duration_in_seconds (h m s : string) (hours minutes seconds : Z) :
  contains_char ":" h = false -> contains_char ":" m = false ->
  contains_char dquote (h ++ ":" ++ m ++ ":" ++ s) = false ->
  int h = inr hours -> int m = inr minutes -> int s = inr seconds ->
  _process_id MakeMKVMessage.ATTR_ID.Duration
    (quoted (h ++ ":" ++ m ++ ":" ++ s))
  = inr (AInt (3600 * hours + 60 * minutes + seconds))
  /\ _process_id MakeMKVMessage.ATTR_ID.Duration (h ++ ":" ++ m ++ ":" ++ s)
     = inr (AInt (3600 * hours + 60 * minutes + seconds)).
Proof.
  intros Eh Em Eq Hh Hm Hs.
  replace (3600 * hours + 60 * minutes + seconds)
    with (seconds + hours * 3600 + minutes * 60) by lia.
  split.
  - apply (process_id_duration _ h m s); auto. apply replace_quoted, Eq.
  - apply (process_id_duration _ h m s); auto. apply replace_unquoted, Eq.
Qed.

Lemma duration_in_seconds_witness :
  _process_id MakeMKVMessage.ATTR_ID.Duration (quoted "1:06:40")
  = inr (AInt 4000)
  /\ _process_id MakeMKVMessage.ATTR_ID.Duration "1:06:40" = inr (AInt 4000).
Proof.
  apply (duration_in_seconds "1" "06" "40" 1 6 40); reflexivity.
Defined.

Lemma enum_call_member (qualname : string) (values : list Z) (x key : Z) :
  MakeMKVMessage.enum_call qualname values x = inr key ->
  key = x /\ In x values.
Proof.
  unfold MakeMKVMessage.enum_call.
  destruct (existsb (Z.eqb x) values) eqn:E; [|discriminate].
  intros [= <-]. split; [reflexivity|].
  apply existsb_exists in E as (y & Hy & Exy).
  apply Z.eqb_eq in Exy. subst y. exact Hy.
Qed.

(** What [_process_id] returns has the type of its attribute. *)
Lemma process_id_typed (id : Z) (raw : string) (v : atom) :
  _process_id id raw = inr v -> value_typed id v.
Proof.
  unfold _process_id, value_typed, integer_attribute. cbn [existsb].
  destruct (id =? MakeMKVMessage.ATTR_ID.Duration); cbn [orb].
  - destruct (unpack3_map int _) as [e|[[a b] c]]; [discriminate|].
    intros [= <-]. eauto.
  - match goal with
    | |- context [if ?b then _ else _] => destruct b
    end.
    + destruct (int _) as [e|z]; [discriminate|]. intros [= <-]. eauto.
    + intros [= <-]. eexists. split; [reflexivity | apply replace_removes].
Qed.

Section Parser.

Context `{PyFloat}.

(** *** Surrounding white space *)

(** X2.  [parse] reads a line through [strip] only: feeding the
    stripped line, or the line with a line feed appended, leaves the
    parser in the same state as feeding the line. *)
Theorem parse_ignores_surrounding_space (p : MakeMKVParser) (line : string) :
  after_parse p (strip line) = after_parse p line
  /\ after_parse p (line ++ newline) = after_parse p line.
Proof.
  unfold after_parse, parse. split.
  - rewrite strip_idempotent. reflexivity.
  - unfold newline. rewrite strip_app_space; reflexivity.
Qed.

(** *** The fields a line may change *)

(** [parse] is [parse_try] but for [message]. *)
Lemma after_parse_but_message (p : MakeMKVParser) (line : string) :
  after_parse p line
  = set_message (message (after_parse p line))
      (snd (parse_try (set_raw_message (strip line) p))).
Proof.
  unfold after_parse, parse, bind, modify, try_except_Exception, gets.
  destruct (parse_try (set_raw_message (strip line) p)) as [[e|u] p1]; simpl.
  - reflexivity.
  - destruct p1; reflexivity.
Qed.

Lemma after_parse_message_type (p : MakeMKVParser) (line : string) :
  message_type (after_parse p line)
  = message_type (snd (parse_try (set_raw_message (strip line) p))).
Proof. rewrite after_parse_but_message. reflexivity. Qed.

Ltac as_stable :=
  lazymatch goal with
  | |- hoare ?P ?c _ _ => change (stable P c)
  end.

Ltac tag_among :=
  repeat match goal with
         | E : (_ || _)%bool = true |- _ =>
             apply orb_true_iff in E; destruct E as [E|E]
         | E : String.eqb _ _ = true |- _ =>
             apply String.eqb_eq in E; subst
         end;
  simpl; tauto.

(** [parse_try] changes what [f] reads only under one of [tags]. *)
Ltac frame_owner :=
  lazymatch goal with
  | Hin : In ?ty _ |- hoare _ _ _ _ =>
      apply hoare_weaken
        with (P' := fun s => message_type s = ty)
             (Q' := fun _ s => message_type s = ty)
             (E' := fun s => message_type s = ty);
      [ as_stable; unfold_parse; solve [repeat parser_step]
      | intros ? Hs; exact (proj2 Hs)
      | intros ? ? Hs; right; rewrite Hs; exact Hin
      | intros ? Hs; right; rewrite Hs; exact Hin ]
  end.

Ltac frame_other f v :=
  lazymatch goal with
  | Hout : ~ In _ _ |- hoare _ _ _ _ =>
      apply hoare_weaken
        with (P' := fun s => f s = v)
             (Q' := fun _ s => f s = v)
             (E' := fun s => f s = v);
      [ repeat lazymatch goal with
               | |- hoare _ (if ?b then _ else _) _ _ => destruct b eqn:?
               end;
        first [ as_stable; unfold_parse; solve [repeat parser_step]
              | exfalso; apply Hout; tag_among ]
      | intros ? Hs; exact (proj1 Hs)
      | intros ? ? Hs; left; exact Hs
      | intros ? Hs; left; exact Hs ]
  end.

Ltac frame f v tags :=
  unfold parse_try;
  apply hoare_bind with (R := fun _ s => f s = v);
    [apply hoare_gets; auto | intros ?];
  apply hoare_bind with (R := fun _ s => f s = v);
    [apply hoare_lift;
       [intros ? ? _ Hs; exact Hs | intros ? ? _ Hs; left; exact Hs]
    | intros [? ?]];
  lazymatch goal with
  | |- hoare _ (bind (modify (set_message_type ?ty)) _) _ _ =>
      apply hoare_bind with (R := fun _ s => f s = v /\ message_type s = ty);
        [apply hoare_modify; intros ? Hs; split; [exact Hs | reflexivity]
        | intros ?; cbv beta];
      destruct (in_dec string_dec ty tags); [frame_owner | frame_other f v]
  end.

Lemma changed_only_under_run {B : Type} (f : MakeMKVParser -> B)
  (tags : list string) :
  (forall m s, f (set_message m s) = f s) ->
  (forall r s, f (set_raw_message r s) = f s) ->
  (forall v,
      hoare (fun s => f s = v) parse_try
        (fun _ s => f s = v \/ In (message_type s) tags)
        (fun s => f s = v \/ In (message_type s) tags)) ->
  changed_only_under f tags.
Proof.
  intros Hm Hr Hf p line.
  rewrite after_parse_message_type, after_parse_but_message, Hm.
  exact (hoare_run (fun s => f s = f p)
           (fun s => f s = f p \/ In (message_type s) tags)
           parse_try (set_raw_message (strip line) p)
           (Hf (f p)) (Hr _ _)).
Qed.

Lemma titles_frame v :
  hoare (fun s => titles s = v) parse_try
    (fun _ s => titles s = v \/ In (message_type s) ["TINFO"; "SINFO"])
    (fun s => titles s = v \/ In (message_type s) ["TINFO"; "SINFO"]).
Proof. frame titles v ["TINFO"; "SINFO"]. Qed.

Lemma disc_frame v :
  hoare (fun s => disc s = v) parse_try
    (fun _ s => disc s = v \/ In (message_type s) ["CINFO"])
    (fun s => disc s = v \/ In (message_type s) ["CINFO"]).
Proof. frame disc v ["CINFO"]. Qed.

Lemma title_count_frame v :
  hoare (fun s => title_count s = v) parse_try
    (fun _ s => title_count s = v \/ In (message_type s) ["TCOUNT"])
    (fun s => title_count s = v \/ In (message_type s) ["TCOUNT"]).
Proof. frame title_count v ["TCOUNT"]. Qed.

Lemma progress_frame v :
  hoare (fun s => (progress s, total_progress s) = v) parse_try
    (fun _ s => (progress s, total_progress s) = v
                \/ In (message_type s) ["PRGV"])
    (fun s => (progress s, total_progress s) = v
              \/ In (message_type s) ["PRGV"]).
Proof. frame (fun s => (progress s, total_progress s)) v ["PRGV"]. Qed.

Lemma drive_frame v :
  hoare (fun s => (drive_index s, drive_visible s, drive_enabled s,
                   disc_flags s, drive_name s, disc_name s) = v) parse_try
    (fun _ s => (drive_index s, drive_visible s, drive_enabled s,
                 disc_flags s, drive_name s, disc_name s) = v
                \/ In (message_type s) ["DRV"])
    (fun s => (drive_index s, drive_visible s, drive_enabled s,
               disc_flags s, drive_name s, disc_name s) = v
              \/ In (message_type s) ["DRV"]).
Proof.
  frame (fun s => (drive_index s, drive_visible s, drive_enabled s,
                   disc_flags s, drive_name s, disc_name s)) v ["DRV"].
Qed.

Lemma operation_frame v :
  hoare (fun s => (operation s, title_number s) = v) parse_try
    (fun _ s => (operation s, title_number s) = v
                \/ In (message_type s) ["PRGC"; "PRGT"])
    (fun s => (operation s, title_number s) = v
              \/ In (message_type s) ["PRGC"; "PRGT"]).
Proof. frame (fun s => (operation s, title_number s)) v ["PRGC"; "PRGT"]. Qed.

Lemma message_items_frame v :
  hoare (fun s => (message_code s, message_flags s, message_format s,
                   message_params s) = v) parse_try
    (fun _ s => (message_code s, message_flags s, message_format s,
                 message_params s) = v
                \/ In (message_type s) ["MSG"; "PRGC"; "PRGT"])
    (fun s => (message_code s, message_flags s, message_format s,
               message_params s) = v
              \/ In (message_type s) ["MSG"; "PRGC"; "PRGT"]).
Proof.
  frame (fun s => (message_code s, message_flags s, message_format s,
                   message_params s)) v ["MSG"; "PRGC"; "PRGT"].
Qed.

(** X1.  Each group of fields is changed by lines of its own tags
    only: [titles] by TINFO and SINFO lines, [disc] by CINFO lines,
    [title_count] by TCOUNT lines, the two progress values by PRGV
    lines, the six drive fields by DRV lines, [operation] and
    [title_number] by PRGC and PRGT lines, and the code, flags, format
    and parameters of a message by MSG, PRGC and PRGT lines. *)
Theorem parse_changes_own_fields :
  changed_only_under titles ["TINFO"; "SINFO"]
  /\ changed_only_under disc ["CINFO"]
  /\ changed_only_under title_count ["TCOUNT"]
  /\ changed_only_under (fun p => (progress p, total_progress p)) ["PRGV"]
  /\ changed_only_under
       (fun p => (drive_index p, drive_visible p, drive_enabled p,
                  disc_flags p, drive_name p, disc_name p)) ["DRV"]
  /\ changed_only_under (fun p => (operation p, title_number p))
       ["PRGC"; "PRGT"]
  /\ changed_only_under
       (fun p => (message_code p, message_flags p, message_format p,
                  message_params p)) ["MSG"; "PRGC"; "PRGT"].
Proof.
  repeat split; apply changed_only_under_run; try reflexivity.
  - apply titles_frame.
  - apply disc_frame.
  - apply title_count_frame.
  - apply progress_frame.
  - apply drive_frame.
  - apply operation_frame.
  - apply message_items_frame.
Qed.

(** *** Unknown tags *)

(** X3.  A line whose tag is none of the nine known ones is no
    decoding failure: [message] becomes "Unknown MakeMKV Type! - "
    followed by the stripped line, [message_type] the tag, and no other
    field changes. *)
Theorem unknown_tag_reported (p : MakeMKVParser) (line tag content : string) :
  split (strip line) ":" 1 = [tag; content] ->
  ~ In tag known_tags ->
  after_parse p line
  = set_message ("Unknown MakeMKV Type! - " ++ strip line)
      (set_message_type tag (set_raw_message (strip line) p)).
Proof.
  intros Hsplit Hout.
  unfold after_parse, parse, parse_try, bind, modify, try_except_Exception,
    gets, lift.
  cbn [raw_message set_raw_message fst snd]. rewrite Hsplit.
  cbn [unpack2].
  repeat match goal with
         | |- context [String.eqb tag ?t] =>
             let E := fresh "E" in
             destruct (String.eqb tag t) eqn:E;
             [exfalso; apply Hout; apply String.eqb_eq in E; subst tag;
              unfold known_tags; simpl; tauto|]
         end.
  reflexivity.
Qed.

(** *** Titles over a whole run *)

Lemma feed_extends (more : list string) :
  forall p, titles_shape (titles p) -> extends (titles p) (titles (feed p more)).
Proof.
  induction more as [|line more IH]; intros p Hp; simpl.
  - apply extends_refl.
  - destruct (after_parse_good p line Hp) as [Hext Hshape].
    eapply extends_trans; [exact Hext | apply IH, Hshape].
Qed.

(** X6.  Over a whole run of lines nothing is lost: a title or a
    stream present after a prefix of the lines is present after all of
    them. *)
Theorem titles_only_grow (lines more : list string) :
  extends (titles (feed __init__ lines))
    (titles (feed __init__ (lines ++ more))).
Proof.
  unfold feed at 2. rewrite fold_left_app.
  apply feed_extends, feed_shape. constructor.
Qed.

(** *** The type of stored values *)

Lemma attrs_typed_set (d : dict (K:=atom) (V:=atom)) (id : Z) (v : atom) :
  attrs_typed d -> In id MakeMKVMessage.ATTR_ID.values -> value_typed id v ->
  attrs_typed (dict_set atom_eqb d (AInt id) v).
Proof.
  intros Hd Hin Hv k v'. rewrite (dict_get_set atom_eqb atom_eqb_eq).
  destruct (atom_eqb (AInt id) k) eqn:E; [|apply Hd].
  apply atom_eqb_eq in E. subst k. intros [= <-]. eauto.
Qed.

Lemma streams_typed_set (m : stream_map) (n : Z) (a : stream_attrs) :
  streams_typed m -> attrs_typed a -> streams_typed (dict_set Z.eqb m n a).
Proof.
  intros Hm Ha n' a'. rewrite (dict_get_set Z.eqb Z.eqb_eq).
  destruct (Z.eqb n n'); [|apply Hm]. intros [= <-]. exact Ha.
Qed.

Lemma title_typed_set_streams (d : title) (m : stream_map) :
  title_typed d -> streams_typed m ->
  title_typed (dict_set atom_eqb d STREAMS (TStreams m)).
Proof.
  intros Hd Hm k v. rewrite (dict_get_set atom_eqb atom_eqb_eq).
  destruct (atom_eqb STREAMS k) eqn:E; [|apply Hd].
  apply atom_eqb_eq in E. subst k. intros [= <-]. left. eauto.
Qed.

Lemma title_typed_set_attr (d : title) (id : Z) (a : atom) :
  title_typed d -> In id MakeMKVMessage.ATTR_ID.values -> value_typed id a ->
  title_typed (dict_set atom_eqb d (AInt id) (TAtom a)).
Proof.
  intros Hd Hin Ha k v. rewrite (dict_get_set atom_eqb atom_eqb_eq).
  destruct (atom_eqb (AInt id) k) eqn:E; [|apply Hd].
  apply atom_eqb_eq in E. subst k. intros [= <-]. right.
  exists id, a. auto.
Qed.

Lemma titles_typed_set (ts : dict (K:=Z) (V:=title)) (t : Z) (d : title) :
  titles_typed ts -> title_typed d -> titles_typed (dict_set Z.eqb ts t d).
Proof.
  intros Hts Hd t' d'. rewrite (dict_get_set Z.eqb Z.eqb_eq).
  destruct (Z.eqb t t'); [|apply Hts]. intros [= <-]. exact Hd.
Qed.

Lemma title_setitem_typed (t : Z) (key : atom) (v : tval) :
  (forall d, title_typed d -> title_typed (dict_set atom_eqb d key v)) ->
  stable typed_state (title_setitem t key v).
Proof.
  intros Hset s [Hd Ht].
  unfold title_setitem, title_getitem, bind, gets, modify, ret, raise.
  destruct (dict_get Z.eqb (titles s) t) as [d|] eqn:E; simpl.
  - split; [exact Hd|].
    apply titles_typed_set; [exact Ht | apply Hset, (Ht t d E)].
  - split; assumption.
Qed.

Lemma add_new_title_typed (t : Z) : stable typed_state (add_new_title t).
Proof.
  unfold add_new_title.
  apply stable_bind; [apply stable_gets | intros present].
  destruct (negb present); [|apply stable_ret].
  apply stable_bind.
  - apply stable_modify. intros s [Hd Ht]. split; [exact Hd|].
    apply titles_typed_set; [exact Ht|]. intros ? ? E. discriminate E.
  - intros ?. apply title_setitem_typed. intros d Hd.
    apply title_typed_set_streams; [exact Hd|]. intros ? ? E. discriminate E.
Qed.

Lemma streams_getitem_typed (t : Z) :
  hoare typed_state (streams_getitem t)
    (fun m s => typed_state s /\ streams_typed m) typed_state.
Proof.
  intros s [Hd Ht].
  unfold streams_getitem, title_getitem, bind, gets, ret, raise.
  destruct (dict_get Z.eqb (titles s) t) as [d|] eqn:E; simpl;
    [|split; assumption].
  destruct (dict_get atom_eqb d STREAMS) as [[[z|x]|m]|] eqn:G; simpl;
    try (split; assumption).
  split; [split; assumption|].
  destruct (Ht t d E STREAMS _ G) as [(_ & m' & Em & Hm) | (id & a & Ek & _)].
  - injection Em as <-. exact Hm.
  - discriminate Ek.
Qed.

Lemma attr_id_call_typed (P : MakeMKVParser -> Prop) (id : Z) :
  hoare P (lift (MakeMKVMessage.ATTR_ID_call id))
    (fun key s => P s /\ key = id /\ In id MakeMKVMessage.ATTR_ID.values) P.
Proof.
  apply hoare_lift.
  - intros key s E Hs. split; [exact Hs|].
    exact (enum_call_member _ _ _ _ E).
  - intros e s _ Hs. exact Hs.
Qed.

Lemma process_id_lift_typed (P : MakeMKVParser -> Prop) (id : Z) (raw : string) :
  hoare P (lift (_process_id id raw))
    (fun v s => P s /\ value_typed id v) P.
Proof.
  apply hoare_lift.
  - intros v s E Hs. split; [exact Hs | exact (process_id_typed _ _ _ E)].
  - intros e s _ Hs. exact Hs.
Qed.

Lemma store_title_info_typed (t id : Z) (value : atom) :
  value_typed id value -> stable typed_state (store_title_info t id value).
Proof.
  intros Hv. unfold store_title_info, stable.
  eapply hoare_bind; [apply add_new_title_typed | intros ?; cbv beta].
  eapply hoare_bind; [apply attr_id_call_typed | intros key].
  intros s (Hs & -> & Hin).
  apply (title_setitem_typed t (AInt id) (TAtom value)); [|exact Hs].
  intros d Hd. apply title_typed_set_attr; assumption.
Qed.

Lemma store_stream_info_typed (t n id : Z) (value : atom) :
  value_typed id value -> stable typed_state (store_stream_info t n id value).
Proof.
  intros Hv. unfold store_stream_info, stable.
  eapply hoare_bind; [apply add_new_title_typed | intros ?; cbv beta].
  eapply hoare_bind; [apply streams_getitem_typed | intros m].
  apply hoare_bind with (R := fun _ s => typed_state s).
  { intros s [Hs Hm]. destruct (negb (dict_mem Z.eqb m n)).
    - apply (title_setitem_typed t STREAMS); [|exact Hs].
      intros d Hd. apply title_typed_set_streams; [exact Hd|].
      apply streams_typed_set; [exact Hm|]. intros ? ? E. discriminate E.
    - exact Hs. }
  intros ?; cbv beta.
  eapply hoare_bind; [apply streams_getitem_typed | intros m'].
  apply hoare_bind
    with (R := fun attrs s => (typed_state s /\ streams_typed m')
                              /\ attrs_typed attrs).
  { intros s [Hs Hm]. destruct (dict_get Z.eqb m' n) as [x|] eqn:E; simpl.
    - split; [split; assumption | exact (Hm n x E)].
    - exact Hs. }
  intros attrs.
  apply hoare_bind
    with (R := fun key s => ((typed_state s /\ streams_typed m')
                             /\ attrs_typed attrs)
                            /\ key = id
                            /\ In id MakeMKVMessage.ATTR_ID.values).
  { eapply hoare_weaken;
      [apply attr_id_call_typed | intros s Hs; exact Hs
      | intros ? s Hs; exact Hs | intros s Hs; exact (proj1 (proj1 Hs))]. }
  intros key s (((Hs & Hm) & Ha) & -> & Hin).
  apply (title_setitem_typed t STREAMS); [|exact Hs].
  intros d Hd. apply title_typed_set_streams; [exact Hd|].
  apply streams_typed_set; [exact Hm|].
  apply attrs_typed_set; assumption.
Qed.

Lemma parse_try_typed : stable typed_state parse_try.
Proof.
  unfold parse_try.
  apply stable_bind; [apply stable_gets | intros raw].
  apply stable_bind; [apply stable_lift | intros [ty content]].
  apply stable_bind;
    [apply stable_modify; intros s Hs; exact Hs | intros ?; cbv beta].
  repeat lazymatch goal with
         | |- stable _ (if ?b then _ else _) => destruct b
         end;
    try (unfold typed_state; unfold_parse; solve [repeat parser_step]).
  - (* CINFO *)
    unfold parse_CINFO, stable.
    eapply hoare_bind; [apply stable_lift | intros [[id code] value]].
    eapply hoare_bind; [apply stable_lift | intros id'].
    eapply hoare_bind; [apply stable_lift | intros code'].
    eapply hoare_bind; [apply process_id_lift_typed | intros v].
    apply hoare_bind
      with (R := fun key s => (typed_state s /\ value_typed id' v)
                              /\ key = id'
                              /\ In id' MakeMKVMessage.ATTR_ID.values).
    { eapply hoare_weaken;
        [apply attr_id_call_typed | intros s Hs; exact Hs
        | intros ? s Hs; exact Hs | intros s Hs; exact (proj1 Hs)]. }
    intros key. apply hoare_modify.
    intros s (([Hd Ht] & Hv) & -> & Hin).
    split; [apply attrs_typed_set; assumption | exact Ht].
  - (* TINFO *)
    unfold parse_TINFO, stable.
    eapply hoare_bind; [apply stable_lift | intros [[[tn id] code] value]].
    eapply hoare_bind; [apply stable_lift | intros tn'].
    eapply hoare_bind; [apply stable_lift | intros id'].
    eapply hoare_bind; [apply stable_lift | intros code'].
    eapply hoare_bind; [apply process_id_lift_typed | intros v].
    intros s [Hs Hv]. apply (store_title_info_typed _ _ _ Hv s Hs).
  - (* SINFO *)
    unfold parse_SINFO, stable.
    eapply hoare_bind;
      [apply stable_lift | intros [[[[tn sn] id] code] value]].
    eapply hoare_bind; [apply stable_lift | intros tn'].
    eapply hoare_bind; [apply stable_lift | intros sn'].
    eapply hoare_bind; [apply stable_lift | intros id'].
    eapply hoare_bind; [apply stable_lift | intros code'].
    eapply hoare_bind; [apply process_id_lift_typed | intros v].
    intros s [Hs Hv]. apply (store_stream_info_typed _ _ _ _ Hv s Hs).
Qed.

Lemma after_parse_typed (p : MakeMKVParser) (line : string) :
  typed_state p -> typed_state (after_parse p line).
Proof.
  intros Hp. rewrite after_parse_but_message.
  exact (stable_run typed_state parse_try
           (set_raw_message (strip line) p) parse_try_typed Hp).
Qed.

Lemma feed_typed (lines : list string) :
  forall p, typed_state p -> typed_state (feed p lines).
Proof.
  induction lines as [|line lines IH]; intros p Hp; simpl; [exact Hp|].
  apply IH, after_parse_typed, Hp.
Qed.

Lemma init_typed : typed_state __init__.
Proof. split; intros k v E; discriminate E. Qed.

(** X7.  Whatever lines a fresh parser is fed, the disc attributes,
    the attributes of every title and those of every stream are keyed
    by [ATTR_ID] members only, and each value has the type of its
    attribute: an integer for Duration and the eight integer
    attributes, otherwise a string without double quotes; the only
    other key of a title is "streams", bound to its stream map. *)
Theorem stored_attributes_typed (lines : list string) :
  typed_state (feed __init__ lines).
Proof. apply feed_typed, init_typed. Qed.

(** X8.  On the titles a parser has collected, reading the Duration
    of a title for the filter of [rip] gives an integer, or raises
    [KeyError] when the title or its Duration is missing; it never
    meets a string. *)
Theorem parsed_duration_is_integer (lines : list string) (t : Z) :
  match fst (Ripper.title_duration t (titles (feed __init__ lines))) with
  | inr _ => True
  | inl e => exn_cls e = KeyError
  end.
Proof.
  destruct (feed_typed lines __init__ init_typed) as [_ Ht].
  unfold Ripper.title_duration, bind, gets, ret, raise.
  destruct (dict_get Z.eqb (titles (feed __init__ lines)) t) as [d|] eqn:E;
    simpl; [|reflexivity].
  destruct (dict_get atom_eqb d (AInt MakeMKVMessage.ATTR_ID.Duration))
    as [[[z|x]|m]|] eqn:G; simpl; try reflexivity; exfalso.
  - destruct (Ht t d E _ _ G) as [(Ek & _) | (id & a & Ek & Ev & _ & Hv)];
      [discriminate Ek|].
    injection Ek as <-. injection Ev as <-.
    destruct Hv as [z Hz]. discriminate Hz.
  - destruct (Ht t d E _ _ G) as [(Ek & _) | (id & a & _ & Ev & _)];
      [discriminate Ek | discriminate Ev].
Qed.

End Parser.

Lemma unknown_tag_reported_witness :
  after_parse __init__ "VER:1.17"
  = set_message "Unknown MakeMKV Type! - VER:1.17"
      (set_message_type "VER" (set_raw_message "VER:1.17" __init__)).
Proof.
  apply (unknown_tag_reported __init__ "VER:1.17" "VER" "1.17").
  - reflexivity.
  - unfold known_tags. simpl. intuition discriminate.
Defined.

End DecodeFacts.

(** ** container.py: language lists and default streams *)
Module StreamFacts.

Import Py PyFacts Container ContainerSpec ContainerFacts.

(** *** The language lists *)

Lemma add_undetermined_empty streams stream_type languages :
  add_undetermined streams stream_type languages = [] <-> languages = [].
Proof.
  unfold add_undetermined.
  destruct (negb (existsb (String.eqb StreamData.LANG_UND) languages));
    [|tauto].
  destruct (und_flag streams stream_type languages) eqn:F; [|tauto].
  destruct languages as [|l ls]; [discriminate F|].
  split; discriminate.
Qed.

(** X9.  "und" joins a language list once: applied to its own
    result for the same streams, the step that may add "und" changes
    nothing, and so [remux_by_language] called with the two lists it
    arrived at builds the same lists and the same command. *)
Theorem add_undetermined_once :
  forall streams mkvmerge output_filename filename audio subtitles,
    let '(audio', subtitles', command) :=
      remux_by_language streams mkvmerge output_filename filename
        audio subtitles in
    add_undetermined streams StreamData.AUDIO audio' = audio'
    /\ add_undetermined streams StreamData.SUBTITLES subtitles' = subtitles'
    /\ remux_by_language streams mkvmerge output_filename filename
         audio' subtitles'
       = (audio', subtitles', command).
Proof.
  intros streams mkvmerge output_filename filename audio subtitles.
  assert (Hidem : forall stream_type languages,
             add_undetermined streams stream_type
               (add_undetermined streams stream_type languages)
             = add_undetermined streams stream_type languages).
  { intros stream_type languages.
    destruct (existsb (String.eqb StreamData.LANG_UND) languages) eqn:E.
    - assert (R : add_undetermined streams stream_type languages = languages)
        by (unfold add_undetermined; rewrite E; reflexivity).
      rewrite R. exact R.
    - destruct (und_flag streams stream_type languages) eqn:F.
      + assert (R : add_undetermined streams stream_type languages
                    = (languages ++ [StreamData.LANG_UND])%list)
          by (unfold add_undetermined; rewrite E, F; reflexivity).
        rewrite R. unfold add_undetermined. rewrite existsb_app.
        cbn [existsb]. rewrite String.eqb_refl. cbn [orb].
        rewrite orb_true_r. reflexivity.
      + assert (R : add_undetermined streams stream_type languages
                    = languages)
          by (unfold add_undetermined; rewrite E, F; reflexivity).
        rewrite R. exact R. }
  unfold remux_by_language. rewrite !Hidem. auto.
Qed.

(** X10.  An empty request stays empty and a non-empty one stays
    non-empty, so the command is settled by the lists as requested:
    no audio language requested means no "--audio-tracks" option (every
    audio track is kept), no subtitle language requested means
    "--no-subtitles"; the input file comes last. *)
Theorem remux_command_shape :
  forall streams mkvmerge output_filename filename audio subtitles,
    let '(audio', subtitles', command) :=
      remux_by_language streams mkvmerge output_filename filename
        audio subtitles in
    (audio' = [] <-> audio = [])
    /\ (subtitles' = [] <-> subtitles = [])
    /\ command
       = ([mkvmerge; "-o"; output_filename]
          ++ audio_options audio' ++ subtitle_options subtitles'
          ++ [filename])%list.
Proof.
  intros streams mkvmerge output_filename filename audio subtitles.
  unfold remux_by_language.
  split; [apply add_undetermined_empty|].
  split; [apply add_undetermined_empty|].
  destruct (add_undetermined streams StreamData.AUDIO audio);
    destruct (add_undetermined streams StreamData.SUBTITLES subtitles);
    reflexivity.
Qed.

(** *** The default stream *)

Lemma filter_head_find {A} (f : A -> bool) (l : list A) :
  hd_error (filter f l) = find f l.
Proof.
  induction l as [|a l IH]; simpl; [reflexivity|].
  destruct (f a); [reflexivity | exact IH].
Qed.

Lemma find_filter {A} (f g : A -> bool) (l : list A) :
  find f (filter g l) = find (fun x => g x && f x) l.
Proof.
  induction l as [|a l IH]; simpl; [reflexivity|].
  destruct (g a); simpl; [destruct (f a); [reflexivity | exact IH] | exact IH].
Qed.

(** The stream taken is the head of the candidates as they stand. *)
Lemma set_default_takes_head streams mkvpropedit filename language
  stream_type default_required :
  fst (_set_default_stream_by_language streams mkvpropedit filename
         language stream_type default_required)
  = hd_error (default_candidates streams language stream_type
                default_required).
Proof.
  unfold _set_default_stream_by_language.
  destruct (default_candidates streams language stream_type default_required)
    as [|x l]; [reflexivity|].
  destruct (StreamData.default x) as [[|]|]; reflexivity.
Qed.

Lemma default_candidates_unsorted streams language stream_type
  default_required :
  String.eqb stream_type StreamData.SUBTITLES = false ->
  default_candidates streams language stream_type default_required
  = candidate_streams streams language stream_type default_required.
Proof.
  intros E. unfold default_candidates. rewrite E.
  destruct (negb _); reflexivity.
Qed.

(** X11.  For audio the candidates are not sorted: the stream taken
    is the first audio stream of the language in container order, and,
    when there is none and a default is required, the first audio
    stream of the container; so with [default_required] a stream is
    taken whenever the container has an audio stream. *)
Theorem preferred_audio_first_in_order :
  forall streams mkvpropedit filename language default_required,
    fst (set_preferred_audio_by_language streams mkvpropedit filename
           language default_required)
    = match find (fun x => in_language language x
                           && of_type StreamData.AUDIO x) streams with
      | Some stream => Some stream
      | None =>
          if default_required
          then find (of_type StreamData.AUDIO) streams
          else None
      end.
Proof.
  intros streams mkvpropedit filename language default_required.
  unfold set_preferred_audio_by_language.
  rewrite set_default_takes_head, default_candidates_unsorted
    by reflexivity.
  unfold candidate_streams, streams_matching.
  rewrite <- !filter_head_find. unfold in_language, of_type.
  destruct (filter _ streams) as [|x l]; simpl; [|reflexivity].
  destruct default_required; reflexivity.
Qed.

Lemma sorted_head_first_largest (l : list StreamData.t) (chosen : StreamData.t)
  (rest : list StreamData.t) :
  sort_by_frames_reverse l = chosen :: rest ->
  exists before after,
    l = (before ++ chosen :: after)%list
    /\ (forall c, In c before
                  -> StreamData.frames c < StreamData.frames chosen)
    /\ (forall c, In c after
                  -> StreamData.frames c <= StreamData.frames chosen).
Proof.
  unfold sort_by_frames_reverse. revert chosen rest.
  induction l as [|a l IH]; intros chosen rest; simpl; [discriminate|].
  destruct (sorted (fun a b => StreamData.frames b <? StreamData.frames a) l)
    as [|h r] eqn:E; simpl.
  - intros [= <- <-]. exists [], l. split; [reflexivity|].
    split; [intros c []|].
    assert (Hl : l = []).
    { destruct l as [|b l']; [reflexivity|].
      assert (Hin : In b (sorted (fun a b => StreamData.frames b
                                              <? StreamData.frames a)
                            (b :: l'))) by (apply in_sorted; left; reflexivity).
      rewrite E in Hin. destruct Hin. }
    subst l. intros c [].
  - destruct (IH h r eq_refl) as (before & after & Hl & Hb & Ha).
    destruct (StreamData.frames a <? StreamData.frames h) eqn:F.
    + intros [= <- <-]. apply Z.ltb_lt in F.
      exists (a :: before), after. subst l. split; [reflexivity|].
      split; [|exact Ha].
      intros c [<-|Hc]; [exact F | apply Hb, Hc].
    + intros [= <- <-]. apply Z.ltb_ge in F.
      exists [], l. split; [reflexivity|]. split; [intros c []|].
      intros c Hc. subst l. apply in_app_or in Hc as [Hc|[<-|Hc]].
      * specialize (Hb c Hc). lia.
      * exact F.
      * specialize (Ha c Hc). lia.
Qed.

(** Where a filtered list splits, the list itself splits. *)
Lemma filter_split {A : Type} (q : A -> bool) (l b a : list A) (x : A) :
  filter q l = (b ++ x :: a)%list ->
  exists l1 l2,
    l = (l1 ++ x :: l2)%list
    /\ filter q l1 = b /\ filter q l2 = a /\ q x = true.
Proof.
  revert b. induction l as [|y l IH]; intros b; simpl.
  - destruct b; discriminate.
  - destruct (q y) eqn:Q.
    + destruct b as [|y' b']; simpl.
      * intros [= -> <-]. exists [], l. simpl. rewrite Q. auto.
      * intros [= <- E]. destruct (IH b' E) as (l1 & l2 & -> & <- & <- & Qx).
        exists (y :: l1), l2. simpl. rewrite Q. auto.
    + intros E. destruct (IH b E) as (l1 & l2 & -> & <- & <- & Qx).
      exists (y :: l1), l2. simpl. rewrite Q. auto.
Qed.

(** X12.  The stream taken for subtitles is a stream of the file that
    is wanted (a subtitle stream in the language, or, when there is
    none and a default is required, any subtitle stream), and among the
    wanted streams with the largest frame count it is the earliest in
    container order: every wanted stream before it in the file has
    strictly fewer frames, every wanted stream after it has no more. *)
Theorem preferred_subtitles_earliest_largest :
  forall streams mkvpropedit filename language default_required chosen,
    fst (set_preferred_subtitles_by_language streams mkvpropedit filename
           language default_required) = Some chosen ->
    exists before after,
      streams = (before ++ chosen :: after)%list
      /\ wanted streams language StreamData.SUBTITLES default_required
           chosen
      /\ (forall c, In c before ->
                    wanted streams language StreamData.SUBTITLES
                      default_required c ->
                    StreamData.frames c < StreamData.frames chosen)
      /\ (forall c, In c after ->
                    wanted streams language StreamData.SUBTITLES
                      default_required c ->
                    StreamData.frames c <= StreamData.frames chosen).
Proof.
  intros streams mkvpropedit filename language default_required chosen.
  unfold set_preferred_subtitles_by_language, _set_default_stream_by_language,
    default_candidates.
  destruct (candidate_streams_filter streams language StreamData.SUBTITLES
              default_required) as (q & Eq & Hq).
  destruct (candidate_streams streams language StreamData.SUBTITLES
              default_required) as [|c0 cs] eqn:E.
  - simpl. discriminate.
  - change (negb (is_empty (c0 :: cs))) with true. cbv iota.
    rewrite String.eqb_refl.
    destruct (sort_by_frames_reverse (c0 :: cs)) as [|h r] eqn:S.
    + simpl. discriminate.
    + intros Hc.
      assert (Hh : h = chosen).
      { destruct (StreamData.default h) as [[|]|]; simpl in Hc;
          congruence. }
      subst h.
      destruct (sorted_head_first_largest _ _ _ S)
        as (b & a & Hl & Hb & Ha).
      rewrite Hl in Eq. symmetry in Eq.
      destruct (filter_split q streams b a chosen Eq)
        as (l1 & l2 & Hs & F1 & F2 & Qx).
      exists l1, l2. split; [exact Hs|].
      split; [apply Hq, Qx|]. split.
      * intros c Hin Hw. apply Hb. rewrite <- F1.
        apply filter_In. split; [exact Hin | apply Hq, Hw].
      * intros c Hin Hw. apply Ha. rewrite <- F2.
        apply filter_In. split; [exact Hin | apply Hq, Hw].
Qed.

(** A video stream, an English subtitle stream with 5 frames, a French
    one with 900, and two English ones with 500: the first of the two
    is taken. *)
Lemma preferred_subtitles_earliest_largest_witness :
  exists before after,
    [StreamData.mk (Some StreamData.VIDEO) 0 0 None (Some "eng") None
       (Some true) 9000 None 0 0 0 0;
     subtitle_stream 1 "eng" 5 false;
     subtitle_stream 2 "fre" 900 false;
     subtitle_stream 3 "eng" 500 false;
     subtitle_stream 4 "eng" 500 false]
    = (before ++ subtitle_stream 3 "eng" 500 false :: after)%list
    /\ List.length before = 3%nat
    /\ (forall c, In c after ->
                  StreamData.type c = Some StreamData.SUBTITLES ->
                  StreamData.language c = Some "eng" ->
                  StreamData.frames c <= 500).
Proof.
  destruct (preferred_subtitles_earliest_largest
              [StreamData.mk (Some StreamData.VIDEO) 0 0 None (Some "eng") None
       (Some true) 9000 None 0 0 0 0;
               subtitle_stream 1 "eng" 5 false;
               subtitle_stream 2 "fre" 900 false;
               subtitle_stream 3 "eng" 500 false;
               subtitle_stream 4 "eng" 500 false]
              "mkvpropedit" "a.mkv" "eng" false
              (subtitle_stream 3 "eng" 500 false) eq_refl)
    as (before & after & Hs & _ & Hb & Ha).
  exists before, after. split; [exact Hs|]. split.
  - destruct before as [|x0 [|x1 [|x2 [|x3 before]]]];
      try reflexivity; exfalso.
    + injection Hs as E _. discriminate E.
    + injection Hs as _ E _. discriminate E.
    + injection Hs as _ _ E _. discriminate E.
    + injection Hs as _ _ _ E Hrest.
      apply (Z.lt_irrefl 500).
      apply (Hb (subtitle_stream 3 "eng" 500 false)).
      * rewrite E. right. right. right. left. reflexivity.
      * split; [reflexivity | left; reflexivity].
  - intros c Hin Ht Hl. apply (Ha c Hin). split; [exact Ht | left; exact Hl].
Defined.

(** *** Clearing the default flag *)

Lemma clear_default_loop_first (tool filename : string)
  (l : list StreamData.t) :
  clear_default_loop (inr tool) filename l
  = match find is_default l with
    | Some stream => [clear_edit tool filename stream]
    | None => []
    end.
Proof.
  induction l as [|a l IH]; simpl; [reflexivity|].
  unfold is_default at 1.
  destruct (StreamData.default a) as [[|]|]; [reflexivity | exact IH..].
Qed.

Lemma clear_default_loop_no_tool (e : exn) (filename : string)
  (l : list StreamData.t) :
  clear_default_loop (inl e) filename l = [].
Proof.
  induction l as [|a l IH]; simpl; [reflexivity|].
  destruct (StreamData.default a) as [[|]|]; [reflexivity | exact IH..].
Qed.

(** X13.  Clearing the default audio (or subtitle) stream issues at
    most one track edit: the one for the first stream of the type, in
    container order, whose default flag is set; a second default stream
    of the type is left as it is.  When no stream of the type is
    default, or mkvpropedit is not found, nothing is issued. *)
Theorem clear_default_first_only :
  forall streams filename,
    (forall tool,
        clear_default_audio streams (inr tool) filename
        = match find (fun x => of_type StreamData.AUDIO x && is_default x)
                  streams with
          | Some stream => [clear_edit tool filename stream]
          | None => []
          end
        /\ clear_default_subtitles streams (inr tool) filename
           = match find (fun x => of_type StreamData.SUBTITLES x
                                  && is_default x) streams with
             | Some stream => [clear_edit tool filename stream]
             | None => []
             end)
    /\ (forall e,
           clear_default_audio streams (inl e) filename = []
           /\ clear_default_subtitles streams (inl e) filename = []).
Proof.
  intros streams filename. split.
  - intros tool. unfold clear_default_audio, clear_default_subtitles.
    rewrite !clear_default_loop_first, !find_filter. split; reflexivity.
  - intros e. unfold clear_default_audio, clear_default_subtitles.
    rewrite !clear_default_loop_no_tool. split; reflexivity.
Qed.

End StreamFacts.

(** ** disc.py: querying and ordering drives *)
Module DriveFacts.

Import Py PyFacts FsSpec.

Lemma existsb_Zeqb (x : Z) (l : list Z) :
  existsb (Z.eqb x) l = true <-> In x l.
Proof.
  rewrite existsb_exists. split.
  - intros (y & Hy & E). apply Z.eqb_eq in E. subst y. exact Hy.
  - intros Hx. exists x. split; [exact Hx | apply Z.eqb_refl].
Qed.

Lemma existsb_Zeqb_false (x : Z) (l : list Z) :
  existsb (Z.eqb x) l = false -> ~ In x l.
Proof. intros E Hx. apply existsb_Zeqb in Hx. congruence. Qed.

(** X14.  For a path that does not exist, or whose device does not
    have the SCSI CD-ROM major number, [Disc(filename)] returns an
    invalid instance with the statuses "no info" and "no disc".  For an
    optical device the two statuses are those the ioctls returned, each
    among the known codes; construction raises [ValueError] exactly
    when one of them is not. *)
Theorem disc_init_outcome (dv : Disc.Devices) (filename : Path) :
  match Disc.__init__ dv filename with
  | inr d =>
      Disc.filename d = filename
      /\ Disc.valid d = optical dv filename
      /\ (if optical dv filename
          then Disc.drive_status d = Disc.drive_status_ioctl dv filename
               /\ In (Disc.drive_status d) drive_codes
               /\ Disc.disc_status d = Disc.disc_status_ioctl dv filename
               /\ In (Disc.disc_status d) disc_codes
          else Disc.drive_status d = Disc.CDS_NO_INFO
               /\ Disc.disc_status d = Disc.CDS_NO_DISC)
  | inl e =>
      exn_cls e = ValueError
      /\ optical dv filename = true
      /\ (~ In (Disc.drive_status_ioctl dv filename) drive_codes
          \/ ~ In (Disc.disc_status_ioctl dv filename) disc_codes)
  end.
Proof.
  unfold Disc.__init__, Disc.query, optical, Disc.validate_disc_device,
    bind, gets, modify, lift, ret.
  cbn [Disc.filename Disc.valid Disc.set_valid fst snd].
  destruct (Disc.path_exists dv filename); cbn [andb];
    [destruct (Disc.major dv filename =? Disc.MAJOR_DEV_SCSI_CDROM)|];
    cbn [Disc.filename Disc.valid Disc.set_valid fst snd];
    try (repeat split; reflexivity).
  unfold Disc.get_drive_status, Disc.get_disc_status.
  destruct (existsb (Z.eqb (Disc.drive_status_ioctl dv filename)) _) eqn:Ed.
  - apply existsb_Zeqb in Ed.
    cbn [Disc.filename Disc.valid Disc.set_drive_status fst snd].
    destruct (existsb (Z.eqb (Disc.disc_status_ioctl dv filename)) _) eqn:Ec.
    + apply existsb_Zeqb in Ec. cbn. repeat split; assumption.
    + apply existsb_Zeqb_false in Ec. cbn. repeat split. right. exact Ec.
  - apply existsb_Zeqb_false in Ed. cbn. repeat split. left. exact Ed.
Qed.

(** *** The order of discs *)

Lemma string_trichotomy (x y : string) :
  String.eqb x y = false ->
  (String.ltb x y = true /\ String.ltb y x = false)
  \/ (String.ltb x y = false /\ String.ltb y x = true).
Proof.
  intros E. unfold String.ltb. rewrite (String.compare_antisym y x).
  destruct (String.compare x y) eqn:C; simpl.
  - apply String.compare_eq_iff in C. subst y.
    rewrite String.eqb_refl in E. discriminate E.
  - left. split; reflexivity.
  - right. split; reflexivity.
Qed.

Lemma path_trichotomy (a b : Path) :
  exactly_one (path_eqb a b) (path_ltb a b) (path_ltb b a).
Proof.
  unfold exactly_one. revert b.
  induction a as [|x a IH]; intros [|y b]; simpl; auto.
  rewrite (String.eqb_sym y x).
  destruct (String.eqb x y) eqn:E; simpl; [apply IH|].
  destruct (string_trichotomy x y E) as [[-> ->] | [-> ->]]; auto.
Qed.

(** X15.  When [a] is no symbolic link, or [b] is one, exactly one
    of [a == b], [a < b] and [a > b] holds: the discs are ordered by
    their paths (absolute paths when both are links).  In the remaining
    case, [a] a link and [b] not, all three hold at once. *)
Theorem disc_order (fs : FileSystem) (a b : Disc.t) :
  (is_symlink fs (Disc.filename a) = false
   \/ is_symlink fs (Disc.filename b) = true ->
   exactly_one (Disc.__eq__ fs a b) (Disc.__lt__ fs a b) (Disc.__gt__ fs a b))
  /\ (is_symlink fs (Disc.filename a) = true ->
      is_symlink fs (Disc.filename b) = false ->
      Disc.__eq__ fs a b = true /\ Disc.__lt__ fs a b = true
      /\ Disc.__gt__ fs a b = true).
Proof.
  unfold Disc.__eq__, Disc.__lt__, Disc.__gt__. split.
  - intros Hc.
    destruct (is_symlink fs (Disc.filename a)) eqn:Ea;
      destruct (is_symlink fs (Disc.filename b)) eqn:Eb; simpl;
      try apply path_trichotomy.
    destruct Hc; discriminate.
  - intros -> ->. simpl. auto.
Qed.

Lemma disc_order_witness :
  exactly_one
    (Disc.__eq__ two_drives (disc_at (dev "sr0")) (disc_at (dev "sr1")))
    (Disc.__lt__ two_drives (disc_at (dev "sr0")) (disc_at (dev "sr1")))
    (Disc.__gt__ two_drives (disc_at (dev "sr0")) (disc_at (dev "sr1"))).
Proof.
  apply (proj1 (disc_order two_drives (disc_at (dev "sr0"))
                  (disc_at (dev "sr1")))).
  left. reflexivity.
Defined.

End DriveFacts.

(** ** binary64 next to [int] *)
Module FloatFacts.

Import Py.

(** Rounding moves a value by at most half a unit of the last place. *)
Lemma round_half_even_near (n shift : Z) :
  0 < shift ->
  2 * n - 2 ^ shift <= 2 * (round_half_even n shift * 2 ^ shift)
  <= 2 * n + 2 ^ shift.
Proof.
  intros Hs. unfold round_half_even.
  assert (Ht : 2 ^ shift = 2 * 2 ^ (shift - 1)).
  { rewrite <- Z.pow_succ_r by lia. f_equal. lia. }
  assert (Hh : 0 < 2 ^ (shift - 1)) by (apply Z.pow_pos_nonneg; lia).
  pose proof (Z.div_mod n (2 ^ shift) ltac:(lia)) as D.
  pose proof (Z.mod_pos_bound n (2 ^ shift) ltac:(lia)) as B.
  set (t := 2 ^ shift) in *. set (h := 2 ^ (shift - 1)) in *.
  set (q := n / t) in *. set (r := n mod t) in *.
  destruct (r <? h) eqn:E1; [apply Z.ltb_lt in E1; lia|].
  apply Z.ltb_ge in E1.
  destruct (h <? r) eqn:E2; [apply Z.ltb_lt in E2; lia|].
  apply Z.ltb_ge in E2.
  destruct (Z.even q); lia.
Qed.

(** A value less than half a unit above a multiple rounds to it. *)
Lemma round_half_even_below (n shift a r : Z) :
  0 < shift -> n = a * 2 ^ shift + r -> 0 <= r < 2 ^ (shift - 1) ->
  round_half_even n shift = a.
Proof.
  intros Hs Hn Hr. unfold round_half_even.
  assert (Ht : 2 ^ shift = 2 * 2 ^ (shift - 1)).
  { rewrite <- Z.pow_succ_r by lia. f_equal. lia. }
  assert (Hq : n / 2 ^ shift = a).
  { symmetry. apply (Z.div_unique_pos n (2 ^ shift) a r); lia. }
  assert (Hm : n mod 2 ^ shift = r).
  { symmetry. apply (Z.mod_unique_pos n (2 ^ shift) a r); lia. }
  rewrite Hq, Hm.
  destruct (r <? 2 ^ (shift - 1)) eqn:E; [reflexivity|].
  apply Z.ltb_ge in E. lia.
Qed.

(** Below 2^31 the product with the float 0.9 decides the comparison
    with an integer as the exact 9/10 does. *)
Lemma feature_test_integers (d m : Z) :
  0 <= d < 2 ^ 31 -> 0 <= m < 2 ^ 31 ->
  int_lt_float d (float_mul {| significand := m; exponent := 0 |} float_0_9)
  = (10 * d <? 9 * m).
Proof.
  intros Hd Hm. unfold float_mul, float_0_9.
  cbn [significand exponent]. change (0 + -53) with (-53).
  set (C := 8106479329266893).
  assert (HC : 10 * C = 9 * 2 ^ 53 + 2) by reflexivity.
  assert (H31 : 2 ^ 31 = 2147483648) by reflexivity.
  assert (H53 : 2 ^ 53 = 9007199254740992) by reflexivity.
  destruct (Z.eq_dec m 0) as [->|Hm0].
  { vm_compute round53. unfold int_lt_float, is_inf. cbn [significand exponent].
    change (1024 <? -53) with false. cbv iota.
    change (2 ^ (1024 - -53) <=? Z.abs 0) with false. cbv iota.
    change (0 <=? -53) with false. cbv iota.
    destruct (d * 2 ^ (- -53) <? 0) eqn:E.
    - apply Z.ltb_lt in E. change (- -53) with 53 in E. lia.
    - symmetry. apply Z.ltb_ge. lia. }
  set (M := m * C).
  assert (HM : 10 * M = m * (9 * 2 ^ 53 + 2)) by (unfold M; lia).
  assert (Mpos : 0 < M) by (unfold M, C; lia).
  pose proof (Z.log2_spec M Mpos) as Hl.
  assert (L52 : 52 <= Z.log2 M).
  { apply Z.log2_le_pow2; [exact Mpos|]. change (2 ^ 52) with 4503599627370496. unfold M, C. lia. }
  assert (L83 : Z.log2 M < 84).
  { apply Z.log2_lt_pow2; [exact Mpos|]. change (2 ^ 84) with (2 ^ 31 * 2 ^ 53).  unfold M, C. lia. }
  unfold round53. rewrite (Z.abs_eq M) by lia.
  set (L := Z.log2 M) in *.
  replace (Z.max (L + 1 - 53) (-1074 - -53)) with (L - 52) by lia.
  destruct (L - 52 <=? 0) eqn:S.
  - apply Z.leb_le in S. assert (L = 52) by lia.
    assert (M53 : M < 2 ^ 53). { replace 53 with (Z.succ L) by lia. apply Hl. }
    unfold int_lt_float, is_inf. cbn [significand exponent].
    change (1024 <? -53) with false. cbv iota.
    assert (I : (2 ^ (1024 - -53) <=? Z.abs M) = false).
    { apply Z.leb_gt. rewrite Z.abs_eq by lia.
      apply Z.lt_le_trans with (2 ^ 53); [exact M53|].
      apply Z.pow_le_mono_r; lia. }
    rewrite I. change (0 <=? -53) with false. cbv iota.
    change (- -53) with 53.
    destruct (10 * d <? 9 * m) eqn:E.
    + apply Z.ltb_lt in E. apply Z.ltb_lt. unfold M, C in *. lia.
    + apply Z.ltb_ge in E. apply Z.ltb_ge. unfold M, C in *. lia.
  - apply Z.leb_gt in S.
    set (sh := L - 52) in *.
    assert (Hsh : 0 < sh <= 31) by lia.
    assert (Ht : 2 ^ sh * 2 ^ (53 - sh) = 2 ^ 53).
    { rewrite <- Z.pow_add_r by lia. f_equal. lia. }
    assert (Ht2 : 2 ^ sh = 2 * 2 ^ (sh - 1)).
    { rewrite <- Z.pow_succ_r by lia. f_equal. lia. }
    assert (Htpos : 0 < 2 ^ sh) by (apply Z.pow_pos_nonneg; lia).
    assert (Hupos : 0 < 2 ^ (53 - sh)) by (apply Z.pow_pos_nonneg; lia).
    assert (Htle : 2 ^ sh <= 2 ^ 31) by (apply Z.pow_le_mono_r; lia).
    assert (HMt : M < 2 ^ sh * 2 ^ 53).
    { rewrite <- Z.pow_add_r by lia. replace (sh + 53) with (Z.succ L) by lia.
      apply Hl. }
    pose proof (round_half_even_near M sh ltac:(lia)) as K.
    set (q := round_half_even M sh) in *.
    set (t := 2 ^ sh) in *. set (u := 2 ^ (53 - sh)) in *.
    unfold int_lt_float, is_inf. cbn [significand exponent].
    assert (E1 : (1024 <? -53 + sh) = false) by (apply Z.ltb_ge; lia).
    rewrite E1. cbv iota.
    assert (Hq : 0 <= q <= M + 1).
    { split.
      - assert (0 <= q * t) by lia.
        destruct (Z_lt_le_dec q 0) as [N|N]; [|exact N].
        exfalso. assert (q * t <= -1 * t) by (apply Z.mul_le_mono_nonneg_r; lia). lia.
      - destruct (Z_le_gt_dec q (M + 1)) as [N|N]; [exact N|].
        exfalso.
        assert ((M + 2) * t <= q * t) by (apply Z.mul_le_mono_nonneg_r; lia).
        assert (M * 1 <= M * t) by (apply Z.mul_le_mono_nonneg_l; lia).
        lia. }
    assert (I : (2 ^ (1024 - (-53 + sh)) <=? Z.abs q) = false).
    { apply Z.leb_gt. rewrite Z.abs_eq by lia.
      apply Z.lt_le_trans with (2 ^ 85).
      - change (2 ^ 85) with (2 * (2 ^ 31 * 2 ^ 53)). lia.
      - apply Z.pow_le_mono_r; lia. }
    rewrite I.
    assert (E2 : (0 <=? -53 + sh) = false) by (apply Z.leb_gt; lia).
    rewrite E2. cbv iota.
    replace (- (-53 + sh)) with (53 - sh) by lia. fold u.
    destruct (Z.compare_spec (10 * d) (9 * m)) as [Eq|Lt|Gt].
    + (* the product is d and a little: it rounds to d *)
      assert (Hj : exists j, m = 10 * j /\ d = 9 * j).
      { exists (m / 10). pose proof (Z.div_mod m 10 ltac:(lia)).
        pose proof (Z.mod_pos_bound m 10 ltac:(lia)). lia. }
      destruct Hj as (j & -> & ->).
      assert (Mj : M = 9 * j * u * t + 2 * j).
      { rewrite <- Z.mul_assoc, (Z.mul_comm u t). fold t u in Ht. rewrite Ht. lia. }
      assert (Q : q = 9 * j * u).
      { apply (round_half_even_below M sh (9 * j * u) (2 * j));
          [lia | exact Mj |]. fold t in Ht2. lia. }
      rewrite Q, Z.ltb_irrefl. symmetry. apply Z.ltb_ge. lia.
    + assert (E : (10 * d <? 9 * m) = true) by (apply Z.ltb_lt; exact Lt).
      rewrite E. apply Z.ltb_lt.
      destruct (Z_lt_le_dec (d * u) q) as [N|N]; [exact N|exfalso].
      assert (q * t <= d * u * t) by (apply Z.mul_le_mono_nonneg_r; lia).
      assert (d * u * t = d * 2 ^ 53).
      { rewrite <- Z.mul_assoc, (Z.mul_comm u t). fold t u in Ht. rewrite Ht. reflexivity. }
      lia.
    + assert (E : (10 * d <? 9 * m) = false) by (apply Z.ltb_ge; lia).
      rewrite E. apply Z.ltb_ge.
      destruct (Z_le_gt_dec q (d * u)) as [N|N]; [exact N|exfalso].
      assert ((d * u + 1) * t <= q * t) by (apply Z.mul_le_mono_nonneg_r; lia).
      assert (d * u * t = d * 2 ^ 53).
      { rewrite <- Z.mul_assoc, (Z.mul_comm u t). fold t u in Ht. rewrite Ht. reflexivity. }
      lia.
Qed.

(** An [int] below 2^31 converts to itself, and its product with a
    float is returned. *)
Lemma int_mul_float_small (m : Z) (f : binary64) :
  0 <= m < 2 ^ 31 ->
  int_mul_float m f
  = inr (float_mul {| significand := m; exponent := 0 |} f).
Proof.
  intros Hm. unfold int_mul_float, float_of_int, round53.
  assert (H31 : 2 ^ 31 = 2147483648) by reflexivity.
  assert (HL : Z.log2 (Z.abs m) < 31).
  { rewrite Z.abs_eq by lia.
    destruct (Z.eq_dec m 0) as [->|N]; [reflexivity|].
    apply Z.log2_lt_pow2; lia. }
  assert (S : (Z.max (Z.log2 (Z.abs m) + 1 - 53) (-1074 - 0) <=? 0) = true)
    by (apply Z.leb_le; lia).
  rewrite S. unfold is_inf. cbn [significand exponent].
  change (1024 <? 0) with false. cbv iota.
  assert (I : (2 ^ (1024 - 0) <=? Z.abs m) = false).
  { apply Z.leb_gt. rewrite Z.abs_eq by lia.
    apply Z.lt_le_trans with (2 ^ 31); [lia|].
    apply Z.pow_le_mono_r; lia. }
  rewrite I. reflexivity.
Qed.

(** From 2^53 on the two part: 2^53 + 1 converts to 2^53, whose
    product with 0.9 rounds up to 8106479329266893, and that is not
    below itself, though ten times it is below nine times 2^53 + 1.
    An [int] of 2^1024 does not convert. *)
Lemma feature_test_large :
  int_mul_float 9007199254740993 float_0_9
  = inr {| significand := 8106479329266893; exponent := 0 |}
  /\ int_lt_float 8106479329266893
       {| significand := 8106479329266893; exponent := 0 |} = false
  /\ (10 * 8106479329266893 <? 9 * 9007199254740993) = true
  /\ int_mul_float (2 ^ 1024) float_0_9
     = inl (Raise OverflowError "int too large to convert to float").
Proof. repeat split; vm_compute; reflexivity. Qed.

End FloatFacts.

(** ** ripper.py: setting up and ending a rip *)
Module RipperRuns.

Import Py PyFacts EffectSpec MakeMKV FsSpec RipperSpec.

(** *** The eject loop *)




(** *** One turn of the title filter *)

Lemma dict_pop_absent {V} (d : dict (K:=Z) (V:=V)) (k : Z) :
  ~ In k (dict_keys d) -> dict_pop Z.eqb d k = None.
Proof.
  induction d as [|[k1 v1] d IH]; simpl; [reflexivity|]. intros Hn.
  destruct (Z.eqb k1 k) eqn:E.
  - apply Z.eqb_eq in E. exfalso. apply Hn. left. exact E.
  - rewrite IH; [reflexivity|]. intros Hin. apply Hn. right. exact Hin.
Qed.

(** A key is popped once. *)
Lemma dict_pop_gone {V} (d d' : dict (K:=Z) (V:=V)) (k : Z) :
  NoDup (dict_keys d) -> dict_pop Z.eqb d k = Some d' ->
  dict_pop Z.eqb d' k = None.
Proof.
  revert d'. induction d as [|[k1 v1] d IH]; simpl; [discriminate|].
  intros d' Hnd. inversion Hnd as [|? ? Hk Hnd']; subst.
  destruct (Z.eqb k1 k) eqn:E.
  - intros [= <-]. apply Z.eqb_eq in E. subst k1.
    apply dict_pop_absent, Hk.
  - destruct (dict_pop Z.eqb d k) as [r|] eqn:P; [|discriminate].
    intros [= <-]. simpl. rewrite E, (IH r Hnd' eq_refl). reflexivity.
Qed.

(** X21.  One turn of the title filter, for a title whose Duration
    is [d]: the three tests (below the minimum, above the maximum, and,
    for a movie, below 0.9 times the longest duration seen so far) each
    pop the title.  When none holds the titles are left as they are;
    when one holds the title is removed; when two hold the second pop
    raises [KeyError] for the title number.  Durations are taken below
    2^31 seconds and [movie_minimum] as [__init__] leaves it: there
    the product with the float 0.9 decides the third test as the exact
    9/10 does. *)
Theorem filter_title_outcome (r : Ripper.t) (t m0 d : Z)
  (ts ts' : Ripper.Titles) (entry : title) :
  0 <= d < 2 ^ 31 -> 0 <= m0 < 2 ^ 31 ->
  Ripper.movie_minimum r = float_0_9 ->
  NoDup (dict_keys ts) ->
  dict_get Z.eqb ts t = Some entry ->
  dict_get atom_eqb entry (AInt MakeMKVMessage.ATTR_ID.Duration)
  = Some (TAtom (AInt d)) ->
  dict_pop Z.eqb ts t = Some ts' ->
  let longest := if m0 <=? d then d else m0 in
  let too_short := d <? Ripper.minimum_duration r in
  let too_long := Ripper.maximum_duration r <? d in
  let no_feature :=
    String.eqb (Ripper.media_type r) Ripper.VIDEO_MOVIE
    && Ripper.feature_only r
    && (10 * d <? 9 * longest) in
  Ripper.filter_title r t m0 ts
  = if (too_short && too_long) || (too_short && no_feature)
       || (too_long && no_feature)
    then (inl (Raise KeyError (str_of_Z t)), ts')
    else if too_short || too_long || no_feature
         then (inr longest, ts')
         else (inr longest, ts).
Proof.
  intros Hdb Hmb Hm Hnd Hget Hd Hpop longest too_short too_long no_feature.
  pose proof (dict_pop_gone ts ts' t Hnd Hpop) as Hgone.
  assert (Hlb : 0 <= longest < 2 ^ 31)
    by (unfold longest; destruct (m0 <=? d); assumption).
  unfold Ripper.filter_title, Ripper.title_duration, Ripper.titles_pop,
    bind, gets, ret, raise, lift.
  rewrite Hget, Hd, Hm. cbn [fst snd].
  fold longest.
  rewrite (FloatFacts.int_mul_float_small longest float_0_9 Hlb).
  rewrite (FloatFacts.feature_test_integers d longest Hdb Hlb).
  fold too_short too_long.
  unfold no_feature.
  destruct too_short, too_long;
    destruct (String.eqb (Ripper.media_type r) Ripper.VIDEO_MOVIE
              && Ripper.feature_only r);
    cbn [andb orb fst snd];
    try destruct (10 * d <? 9 * longest);
    cbn [andb orb fst snd];
    rewrite ?Hpop, ?Hgone; cbn [fst snd];
    rewrite ?Hpop, ?Hgone; reflexivity.
Qed.

(** The first of the two titles, once the second has been seen. *)
Lemma filter_title_outcome_witness :
  Ripper.filter_title movie_ripper 0 4000 two_titles
  = (inl (Raise KeyError "0"), [(1, title_of 4000 "title_t01.mkv")]).
Proof.
  apply (filter_title_outcome movie_ripper 0 4000 500 two_titles
           [(1, title_of 4000 "title_t01.mkv")] (title_of 500 "title_t00.mkv")).
  - lia.
  - lia.
  - reflexivity.
  - repeat constructor; simpl; intuition discriminate.
  - reflexivity.
  - reflexivity.
  - reflexivity.
Defined.

(** *** Ejecting only on request *)

Section NoEject.

Context `{PyFloat}.

Lemma quiet_emit (e : Ripper.event) :
  e <> Ripper.EjectTray -> stable quiet (Ripper.emit e).
Proof.
  intros He. apply stable_modify. intros st [Ht Hs]. split; [|exact Hs].
  simpl. intros Hin. apply in_app_or in Hin as [Hin|[Hin|[]]];
    [exact (Ht Hin) | exact (He Hin)].
Qed.

Lemma quiet_update_mmkv (f : MakeMKVParser -> MakeMKVParser) :
  stable quiet (Ripper.update_mmkv f).
Proof. apply stable_modify. intros st Hq. exact Hq. Qed.

Lemma quiet_update_self (f : Ripper.t -> Ripper.t) :
  (forall r, Ripper.eject_on_rip (f r) = Ripper.eject_on_rip r) ->
  stable quiet (Ripper.update_self f).
Proof.
  intros Hf. apply stable_modify. intros st [Ht Hs]. split; [exact Ht|].
  simpl. rewrite Hf. exact Hs.
Qed.

Lemma quiet_on_titles {A} (c : M Ripper.Titles A) :
  stable quiet (Ripper.on_titles c).
Proof.
  intros st Hq. unfold Ripper.on_titles.
  destruct (c (titles (Ripper.mmkv st))) as [[e|a] ts]; exact Hq.
Qed.

Lemma stable_iterate_keys {S K V A} (the_dict : S -> dict (K:=K) (V:=V))
  (P : S -> Prop) (body : K -> A -> M S A) (n0 : nat) (keys : list K) :
  (forall k a, stable P (body k a)) ->
  forall acc, stable P (iterate_keys the_dict n0 keys body acc).
Proof.
  intros Hbody.
  assert (Hcheck : stable P (check_size the_dict n0)).
  { intros s Hs. unfold check_size.
    destruct (List.length (the_dict s) =? n0)%nat; exact Hs. }
  induction keys as [|k keys IH]; intros acc; simpl.
  - apply stable_bind; [exact Hcheck | intros ?; apply stable_ret].
  - apply stable_bind; [exact Hcheck | intros ?].
    apply stable_bind; [apply Hbody | intros acc'; apply IH].
Qed.

Lemma stable_for_in_dict {S K V A} (the_dict : S -> dict (K:=K) (V:=V))
  (P : S -> Prop) (body : K -> A -> M S A) (acc : A) :
  (forall k a, stable P (body k a)) ->
  stable P (for_in_dict the_dict body acc).
Proof.
  intros Hbody s Hs. unfold for_in_dict.
  exact (stable_iterate_keys the_dict P body _ _ Hbody acc s Hs).
Qed.

Ltac quiet_step :=
  lazymatch goal with
  | |- stable _ (bind _ _) => apply stable_bind; [| intros ?; cbv beta]
  | |- stable _ (ret _) => apply stable_ret
  | |- stable _ (raise _) => apply stable_raise
  | |- stable _ (lift _) => apply stable_lift
  | |- stable _ (gets _) => apply stable_gets
  | |- stable _ (Ripper.emit _) => apply quiet_emit; discriminate
  | |- stable _ (Ripper.update_mmkv _) => apply quiet_update_mmkv
  | |- stable _ (Ripper.update_self _) =>
      apply quiet_update_self; reflexivity
  | |- stable _ (Ripper.on_titles _) => apply quiet_on_titles
  | |- stable _ (if ?b then _ else _) => destruct b
  | |- stable _ (match ?x with _ => _ end) => destruct x
  end.

Lemma quiet_extract_title (w : Ripper.World) (t : Z) (u : unit) :
  stable quiet (Ripper.extract_title w t u).
Proof. unfold Ripper.extract_title. repeat quiet_step. Qed.

Lemma quiet_rip_data_1 (w : Ripper.World) :
  stable quiet (Ripper.rip_data_1 w).
Proof.
  unfold Ripper.rip_data_1.
  repeat first
    [ apply stable_for_in_dict; intros ? ?; apply quiet_extract_title
    | quiet_step ].
Qed.

Lemma quiet_rip (w : Ripper.World) : stable quiet (Ripper.rip w).
Proof.
  unfold Ripper.rip, stable.
  eapply hoare_bind; [apply quiet_emit; discriminate | intros ?; cbv beta].
  eapply hoare_bind; [apply stable_lift | intros disc; cbv beta].
  eapply hoare_bind.
  { destruct (Disc.disc_status disc =? Disc.CDS_DATA_1);
      [apply quiet_rip_data_1 | apply stable_ret]. }
  intros returned. destruct returned; [apply stable_ret|].
  eapply hoare_bind; [apply quiet_emit; discriminate | intros ?; cbv beta].
  eapply hoare_bind; [apply stable_lift | intros ?; cbv beta].
  apply hoare_bind with (R := fun r st => quiet st /\ r = Ripper.self st).
  { apply hoare_gets. intros st Hq. split; [exact Hq | reflexivity]. }
  intros r st [Hq ->]. destruct Hq as [Ht Hs]. rewrite Hs, andb_false_r.
  split; assumption.
Qed.

(** X23.  Without [eject_on_rip] the tray is never ejected: whatever
    the disc, the tools and the drive do, and however [rip] ends, no
    eject command is among the things it did. *)
Theorem no_eject_unless_requested (w : Ripper.World) (r : Ripper.t) :
  Ripper.eject_on_rip r = false ->
  ~ In Ripper.EjectTray (Ripper.trace (snd (Ripper.run_rip w r))).
Proof.
  intros Hr. unfold Ripper.run_rip.
  refine (proj1 (stable_run quiet (Ripper.rip w) _ (quiet_rip w) _)).
  split; [intros [] | exact Hr].
Qed.

End NoEject.

Lemma no_eject_unless_requested_witness :
  ~ In Ripper.EjectTray
      (Ripper.trace
         (snd (Ripper.run_rip (data_disc two_titles_info)
                 (Ripper.__init__ 0 999999 Ripper.VIDEO_GENERIC false)))).
Proof.
  apply (no_eject_unless_requested (data_disc two_titles_info)
           (Ripper.__init__ 0 999999 Ripper.VIDEO_GENERIC false)).
  reflexivity.
Defined.

(** *** One entry per device *)

Section OnePerDevice.

Variable fs : FileSystem.

Lemma first_to_target_exists (l : list Path) (s : Path) :
  In s l ->
  exists s', first_to_target fs l s' /\ resolve fs s' = resolve fs s.
Proof.
  induction l as [|x l IH]; [intros []|]. intros Hin.
  destruct (path_eqb (resolve fs x) (resolve fs s)) eqn:E.
  - apply path_eqb_eq in E. exists x. split; [|exact E].
    exists [], l. split; [reflexivity | intros y []].
  - assert (Hne : resolve fs x <> resolve fs s).
    { intros Hx. apply path_eqb_eq in Hx. congruence. }
    destruct Hin as [->|Hin]; [contradiction Hne; reflexivity|].
    destruct (IH Hin) as (s' & (before & after & -> & Hb) & Es).
    exists s'. split; [|exact Es].
    exists (x :: before), after. split; [reflexivity|].
    intros y [<-|Hy]; [rewrite Es; exact Hne | apply Hb, Hy].
Qed.

Lemma first_to_target_unique (l : list Path) (p q : Path) :
  first_to_target fs l p -> first_to_target fs l q ->
  resolve fs p = resolve fs q -> p = q.
Proof.
  intros (b1 & a1 & -> & H1) (b2 & a2 & E & H2) Er. revert b2 E H2.
  induction b1 as [|x b1 IH]; intros [|y b2] E H2; simpl in E.
  - injection E as -> _. reflexivity.
  - injection E as -> _. exfalso. apply (H2 y); [left; reflexivity|].
    exact Er.
  - injection E as -> _. exfalso. apply (H1 q); [left; reflexivity|].
    symmetry. exact Er.
  - injection E as -> E. apply (IH (fun z Hz => H1 z (or_intror Hz)) b2 E).
    intros z Hz. apply H2. right. exact Hz.
Qed.

(** X16.  When every raw path given is its own resolution,
    [process_disc_devices] returns block devices among those given,
    one for each device: every device given is the target of one entry
    of the result, no two entries resolve to the same device, and an
    entry is a symbolic link whenever some link to its device was
    given. *)
Theorem process_disc_devices_one_per_device
  (devices : list Path) (devices_root : Path) :
  let given := block_devices fs devices devices_root in
  (forall p, In p given -> is_symlink fs p = false -> resolve fs p = p) ->
  exists out,
    Ripper.process_disc_devices fs devices devices_root = inr out
    /\ (forall p, In p out -> In p given)
    /\ (forall p, In p given ->
          exists q, In q out /\ resolve fs q = resolve fs p)
    /\ (forall p q, In p out -> In q out ->
          resolve fs p = resolve fs q -> p = q)
    /\ (forall p s, In p out -> In s given -> is_symlink fs s = true ->
          resolve fs s = resolve fs p -> is_symlink fs p = true).
Proof.
  intros given Hcan.
  destruct (RipperFacts.process_disc_devices_resolved_raw_paths
              fs devices devices_root Hcan)
    as (out & Hout & Hsub & Hraw & Hlink).
  fold given in Hsub, Hraw, Hlink.
  set (links := filter (is_symlink fs) given) in *.
  assert (Hlinks : forall s, In s links
                             <-> In s given /\ is_symlink fs s = true).
  { intros s. unfold links. apply filter_In. }
  assert (Hfirst : forall s, In s given -> is_symlink fs s = true ->
                     exists q, In q out /\ resolve fs q = resolve fs s).
  { intros s Hs Hl.
    destruct (first_to_target_exists links s (proj2 (Hlinks s) (conj Hs Hl)))
      as (s' & Hf & Es).
    exists s'. split; [|exact Es].
    assert (Hin : In s' links).
    { destruct Hf as (b & a & -> & _). apply in_or_app. right. left.
      reflexivity. }
    apply Hlinks in Hin as [Hg Hl']. apply (Hlink s' Hg Hl'). exact Hf. }
  assert (Hnolink : forall p s, In p out -> is_symlink fs p = false ->
                      In s given -> is_symlink fs s = true ->
                      resolve fs s <> resolve fs p).
  { intros p s Hp Hpl Hs Hsl.
    rewrite (Hcan p (Hsub p Hp) Hpl).
    apply (proj1 (Hraw p (Hsub p Hp) Hpl) Hp s Hs Hsl). }
  exists out. split; [exact Hout|]. split; [exact Hsub|].
  split; [|split].
  - intros p Hp. destruct (is_symlink fs p) eqn:Hl; [apply Hfirst; assumption|].
    destruct (existsb (fun s => path_eqb (resolve fs s) p) links) eqn:E.
    + apply existsb_exists in E as (s & Hs & Es).
      apply path_eqb_eq in Es. apply Hlinks in Hs as [Hg Hsl].
      destruct (Hfirst s Hg Hsl) as (q & Hq & Eq).
      exists q. split; [exact Hq|]. rewrite Eq, Es. symmetry.
      apply Hcan; assumption.
    + exists p. split; [|reflexivity]. apply (Hraw p Hp Hl).
      intros s Hs Hsl Es.
      assert (Hex : existsb (fun s => path_eqb (resolve fs s) p) links = true).
      { apply existsb_exists. exists s. split; [apply Hlinks; auto|].
        apply path_eqb_eq, Es. }
      congruence.
  - intros p q Hp Hq Er.
    destruct (is_symlink fs p) eqn:Hpl; destruct (is_symlink fs q) eqn:Hql.
    + apply (first_to_target_unique links p q);
        [apply (Hlink p (Hsub p Hp) Hpl), Hp
        | apply (Hlink q (Hsub q Hq) Hql), Hq | exact Er].
    + exfalso. exact (Hnolink q p Hq Hql (Hsub p Hp) Hpl Er).
    + exfalso. apply (Hnolink p q Hp Hpl (Hsub q Hq) Hql). symmetry. exact Er.
    + rewrite (Hcan p (Hsub p Hp) Hpl), (Hcan q (Hsub q Hq) Hql) in Er.
      exact Er.
  - intros p s Hp Hs Hsl Er.
    destruct (is_symlink fs p) eqn:Hpl; [reflexivity|].
    exfalso. exact (Hnolink p s Hp Hpl Hs Hsl Er).
Qed.

End OnePerDevice.

(** *** The checks of the constructor *)

Lemma media_type_accepted (media_type : string) :
  existsb (String.eqb media_type)
    [Ripper.VIDEO_GENERIC; Ripper.VIDEO_MOVIE; Ripper.VIDEO_SHOW] = true
  <-> In media_type media_types.
Proof.
  rewrite existsb_exists. unfold media_types. split.
  - intros (x & Hx & E). apply String.eqb_eq in E. subst x. exact Hx.
  - intros Hin. exists media_type. split; [exact Hin | apply String.eqb_refl].
Qed.

Lemma construct_counter root_exists minimum_duration maximum_duration
  media_type title season eject disc (ID : Z) :
  snd (Ripper.construct root_exists minimum_duration maximum_duration
         media_type title season eject disc ID) = ID + 1.
Proof.
  unfold Ripper.construct, bind, modify, raise, ret, lift.
  cbn [fst snd].
  repeat match goal with
         | |- context [if ?b then _ else _] => destruct b; cbn [fst snd]
         | |- context [match season with _ => _ end] =>
             destruct season; cbn [fst snd]
         | |- context [match disc with _ => _ end] =>
             destruct disc; cbn [fst snd]
         end;
    reflexivity.
Qed.

Lemma construct_returns root_exists minimum_duration maximum_duration
  media_type title season eject (d : Disc.t) (ID : Z) :
  arguments_accepted root_exists minimum_duration maximum_duration
    media_type title season ->
  fst (Ripper.construct root_exists minimum_duration maximum_duration
         media_type title season eject (inr d) ID)
  = inr (Ripper.__init__ minimum_duration maximum_duration media_type eject).
Proof.
  intros (Ht & -> & Hs & Hm & Hd).
  apply String.eqb_neq in Ht. apply media_type_accepted in Hm.
  apply Z.leb_gt in Hd.
  unfold Ripper.construct, bind, modify, raise, ret, lift.
  cbn [fst snd negb]. rewrite Ht. cbn [fst snd].
  destruct season as [s|].
  - specialize (Hs s eq_refl). apply Z.ltb_ge in Hs. rewrite Hs.
    cbn [fst snd]. rewrite Hm. cbn [fst snd negb]. rewrite Hd. reflexivity.
  - cbn [fst snd]. rewrite Hm. cbn [fst snd negb]. rewrite Hd. reflexivity.
Qed.

Lemma construct_accepted root_exists minimum_duration maximum_duration
  media_type title season eject disc (ID : Z) (r : Ripper.t) :
  fst (Ripper.construct root_exists minimum_duration maximum_duration
         media_type title season eject disc ID) = inr r ->
  arguments_accepted root_exists minimum_duration maximum_duration
    media_type title season
  /\ exists d, disc = inr d.
Proof.
  unfold Ripper.construct, bind, modify, raise, ret, lift.
  cbn [fst snd].
  destruct (String.eqb title EmptyString) eqn:Et; cbn [fst snd];
    [discriminate|].
  destruct root_exists; cbn [fst snd negb]; [|discriminate].
  destruct season as [s|]; [destruct (s <? 0) eqn:Es|]; cbn [fst snd];
    try discriminate;
    (destruct (existsb (String.eqb media_type) _) eqn:Em;
       cbn [fst snd negb]; [|discriminate];
     destruct (maximum_duration <=? minimum_duration) eqn:Ed;
       cbn [fst snd]; [discriminate|];
     destruct disc as [e|d]; cbn [fst snd]; [discriminate|];
     intros _; split; [|eauto];
     split; [apply String.eqb_neq, Et|]; split; [reflexivity|];
     split;
       [intros s' Hs';
        first [discriminate Hs'
              | injection Hs' as <-; apply Z.ltb_ge; assumption]
       | split; [apply media_type_accepted, Em | apply Z.leb_gt, Ed]]).
Qed.

(** X17.  [Ripper(...)] returns exactly when the title is not empty,
    the root directory exists, the season, if given, is not negative,
    the media type is one of the three known and the minimum duration
    is below the maximum (and the drive could be queried); the instance
    then starts with [title_count] and [last_run_code] at -1.  The
    class counter [Ripper.ID] is stepped in every case, also when a
    check raises. *)
Theorem construct_checks root_exists minimum_duration maximum_duration
  media_type title season eject disc (ID : Z) :
  let outcome :=
    Ripper.construct root_exists minimum_duration maximum_duration
      media_type title season eject disc ID in
  snd outcome = ID + 1
  /\ ((exists r, fst outcome = inr r)
      <-> arguments_accepted root_exists minimum_duration maximum_duration
            media_type title season
          /\ exists d, disc = inr d)
  /\ (forall r, fst outcome = inr r ->
        r = Ripper.__init__ minimum_duration maximum_duration media_type eject
        /\ Ripper.title_count r = -1
        /\ Ripper.last_run_code r = Ripper.ExitCode (-1)
        /\ Ripper.minimum_duration r < Ripper.maximum_duration r).
Proof.
  intros outcome. unfold outcome.
  split; [apply construct_counter|]. split; [split|].
  - intros [r Hr]. exact (construct_accepted _ _ _ _ _ _ _ _ _ _ Hr).
  - intros [Ha [d ->]]. eexists. apply construct_returns, Ha.
  - intros r Hr.
    destruct (construct_accepted _ _ _ _ _ _ _ _ _ _ Hr) as [Ha [d ->]].
    rewrite (construct_returns _ _ _ _ _ _ eject d ID Ha) in Hr.
    injection Hr as <-.
    destruct Ha as (_ & _ & _ & _ & Hd).
    split; [reflexivity|]. split; [reflexivity|].
    split; [reflexivity | exact Hd].
Qed.

(** *** The duration limits of [main] *)

Lemma duration_limits_returned media_type minimum maximum a b :
  Ripper.duration_limits media_type minimum maximum = inr (a, b) ->
  b = maximum /\ 0 <= a < b
  /\ (forall z, minimum = Some z -> 0 < z -> a = z)
  /\ (forall z, minimum = Some z -> z < 0 -> a = 0)
  /\ (Ripper.is_falsy minimum = true ->
      a = if String.eqb media_type Ripper.VIDEO_MOVIE then 3600
          else if String.eqb media_type Ripper.VIDEO_SHOW then 900
          else 0).
Proof.
  unfold Ripper.duration_limits.
  destruct (maximum <=? _) eqn:E; [discriminate|].
  intros [= <- <-]. apply Z.leb_gt in E. revert E.
  destruct minimum as [z|]; cbn [Ripper.is_falsy].
  - destruct (z =? 0) eqn:Ez; cbn [orb].
    + apply Z.eqb_eq in Ez. subst z. rewrite !andb_true_r.
      intros E. split; [reflexivity|]. split.
      { destruct (String.eqb media_type Ripper.VIDEO_MOVIE);
          [lia | destruct (String.eqb media_type Ripper.VIDEO_SHOW); lia]. }
      split; [intros z [= <-]; lia|]. split; [intros z [= <-]; lia|].
      reflexivity.
    + apply Z.eqb_neq in Ez. rewrite !andb_false_r.
      destruct (z <? 0) eqn:En; intros E.
      * apply Z.ltb_lt in En. split; [reflexivity|]. split; [lia|].
        split; [intros z' [= <-]; lia|]. split; [reflexivity | discriminate].
      * apply Z.ltb_ge in En. split; [reflexivity|]. split; [lia|].
        split; [intros z' [= <-]; reflexivity|].
        split; [intros z' [= <-]; lia | discriminate].
  - rewrite !andb_true_r. intros E. split; [reflexivity|]. split.
    { destruct (String.eqb media_type Ripper.VIDEO_MOVIE);
        [lia | destruct (String.eqb media_type Ripper.VIDEO_SHOW); lia]. }
    split; [discriminate|]. split; [discriminate | reflexivity].
Qed.

(** X18.  When [main] gets past its duration check, the maximum is
    the one given and the minimum lies in [0, maximum): a minimum above
    0 is kept, a negative one becomes 0, and a minimum that is not
    given, or given as 0, becomes 3600 for a movie, 900 for a show and
    0 otherwise. *)
Theorem main_duration_limits media_type minimum maximum a b :
  Ripper.duration_limits media_type minimum maximum = inr (a, b) ->
  b = maximum /\ 0 <= a < b
  /\ (forall z, minimum = Some z -> 0 < z -> a = z)
  /\ (forall z, minimum = Some z -> z < 0 -> a = 0)
  /\ (Ripper.is_falsy minimum = true ->
      a = if String.eqb media_type Ripper.VIDEO_MOVIE then 3600
          else if String.eqb media_type Ripper.VIDEO_SHOW then 900
          else 0).
Proof. apply duration_limits_returned. Qed.

Lemma main_duration_limits_witness :
  99999 = 99999 /\ 0 <= 3600 < 99999
  /\ (forall z, @None Z = Some z -> 0 < z -> 3600 = z)
  /\ (forall z, @None Z = Some z -> z < 0 -> 3600 = 0)
  /\ (Ripper.is_falsy None = true ->
      3600 = if String.eqb Ripper.VIDEO_MOVIE Ripper.VIDEO_MOVIE then 3600
             else if String.eqb Ripper.VIDEO_MOVIE Ripper.VIDEO_SHOW then 900
             else 0).
Proof.
  exact (main_duration_limits Ripper.VIDEO_MOVIE None 99999 3600 99999
           eq_refl).
Defined.

(** X19.  The limits [main] arrives at always pass the duration
    check of the constructor: with a title, a known media type, an
    existing root directory and a season that is not negative, the
    [Ripper] is built with these limits. *)
Theorem main_limits_accepted media_type minimum maximum a b
  title season eject (d : Disc.t) (ID : Z) :
  Ripper.duration_limits media_type minimum maximum = inr (a, b) ->
  title <> EmptyString ->
  In media_type media_types ->
  (forall s, season = Some s -> 0 <= s) ->
  fst (Ripper.construct true a b media_type title season eject (inr d) ID)
  = inr (Ripper.__init__ a b media_type eject).
Proof.
  intros Hl Ht Hm Hs. apply construct_returns.
  destruct (duration_limits_returned _ _ _ _ _ Hl) as (_ & Hab & _).
  repeat split; try assumption; lia.
Qed.

Lemma main_limits_accepted_witness :
  fst (Ripper.construct true 900 99999 Ripper.VIDEO_SHOW "Show" (Some 0)
         true (inr (disc_at (dev "sr0"))) 0)
  = inr (Ripper.__init__ 900 99999 Ripper.VIDEO_SHOW true).
Proof.
  apply (main_limits_accepted Ripper.VIDEO_SHOW None 99999 900 99999
           "Show" (Some 0) true (disc_at (dev "sr0")) 0).
  - reflexivity.
  - discriminate.
  - unfold media_types. simpl. auto.
  - intros s [= <-]. lia.
Defined.

(** *** Runs that end well *)

(** A pass over two titles that are both inside the limits. *)
Lemma filter_titles_returns_unchanged_witness :
  snd (Ripper.filter_titles generic_ripper two_titles) = two_titles.
Proof.
  apply (RipperFacts.filter_titles_returns_unchanged generic_ripper
           two_titles _ 4000).
  reflexivity.
Defined.


(** Both drives given by their raw paths, one of them also by its two
    links. *)
Lemma process_disc_devices_one_per_device_witness :
  let devices := [dev "sr0"; dev "dvd"; dev "cdrom"; dev "sr1"] in
  let given := block_devices two_drives devices ["/"; "dev"] in
  exists out,
    Ripper.process_disc_devices two_drives devices ["/"; "dev"] = inr out
    /\ (forall p, In p out -> In p given)
    /\ (forall p, In p given ->
          exists q, In q out /\ resolve two_drives q = resolve two_drives p)
    /\ (forall p q, In p out -> In q out ->
          resolve two_drives p = resolve two_drives q -> p = q)
    /\ (forall p s, In p out -> In s given ->
          is_symlink two_drives s = true ->
          resolve two_drives s = resolve two_drives p ->
          is_symlink two_drives p = true).
Proof.
  apply (process_disc_devices_one_per_device two_drives
           [dev "sr0"; dev "dvd"; dev "cdrom"; dev "sr1"] ["/"; "dev"]).
  intros p Hp Hs. vm_compute in Hp.
  repeat (destruct Hp as [<-|Hp];
          [first [reflexivity | discriminate Hs]|]).
  destruct Hp.
Defined.

End RipperRuns.

(** ** makemkv.py: numbers written and read back *)
Module NumberFacts.

Import Py PyFacts EffectSpec MakeMKV ParserSpec ParserFacts DecodeFacts.

(** *** [int] on what [str] writes *)

Ltac eval_digit :=
  match goal with
  | |- context [digit_of ?c] =>
      let v := eval vm_compute in (digit_of c) in
      change (digit_of c) with v
  end; cbv iota.

Lemma digits_from_acc (d : Decimal.uint) :
  forall (acc : positive) (n : nat),
    digits_from (NilEmpty.string_of_uint d) (Z.pos acc) n true
    = Some (Z.pos (Pos.of_uint_acc d acc), (n + Decimal.nb_digits d)%nat).
Proof.
  induction d; intros acc n;
    [simpl; rewrite Nat.add_0_r; reflexivity | ..];
    cbn [NilEmpty.string_of_uint digits_from Pos.of_uint_acc
           Decimal.nb_digits];
    eval_digit; rewrite <- Nat.add_succ_comm;
    match goal with
    | |- digits_from _ ?a _ _ = Some (Z.pos (Pos.of_uint_acc _ ?b), _) =>
        replace a with (Z.pos b) by lia
    end;
    apply IHd.
Qed.

Lemma digits_from_uint (d : Decimal.uint) :
  d <> Decimal.Nil ->
  forall (n : nat) (b : bool),
    digits_from (NilEmpty.string_of_uint d) 0 n b
    = Some (Z.of_N (Pos.of_uint d), (n + Decimal.nb_digits d)%nat).
Proof.
  induction d; intros Hd n b; [congruence | ..];
    cbn [NilEmpty.string_of_uint digits_from Pos.of_uint Decimal.nb_digits];
    eval_digit; rewrite <- Nat.add_succ_comm;
    [ destruct d; [simpl; rewrite Nat.add_0_r; reflexivity | ..];
      apply IHd; discriminate
    | .. ];
    apply (digits_from_acc d _ (Datatypes.S n)).
Qed.

Lemma string_of_uint_length (d : Decimal.uint) :
  String.length (NilEmpty.string_of_uint d) = Decimal.nb_digits d.
Proof. induction d; simpl; congruence. Qed.


Lemma contains_char_first (c : ascii) (s : string) :
  contains_char c (String c s) = true.
Proof. simpl. rewrite Ascii.eqb_refl. reflexivity. Qed.

Lemma contains_char_later (a c : ascii) (s : string) :
  contains_char c s = true -> contains_char c (String a s) = true.
Proof. intros E. simpl. rewrite E. apply orb_true_r. Qed.

Lemma lstrip_with_none (sp : ascii -> bool) (s : string) :
  (forall c, contains_char c s = true -> sp c = false) ->
  lstrip_with sp s = s.
Proof.
  destruct s as [|a s]; [reflexivity|]. intros Hs. simpl.
  rewrite (Hs a (contains_char_first a s)). reflexivity.
Qed.

Lemma rstrip_with_none (sp : ascii -> bool) (s : string) :
  (forall c, contains_char c s = true -> sp c = false) ->
  rstrip_with sp s = s.
Proof.
  induction s as [|a s IH]; [reflexivity|]. intros Hs.
  change (rstrip_with sp (String a s))
    with (match rstrip_with sp s with
          | EmptyString => if sp a then EmptyString else String a EmptyString
          | r => String a r
          end).
  rewrite IH by (intros c Hc; apply Hs, contains_char_later, Hc).
  destruct s; [|reflexivity].
  rewrite (Hs a (contains_char_first a _)). reflexivity.
Qed.

Lemma contains_char_in (c : ascii) (s : string) :
  contains_char c s = true -> In c (list_ascii_of_string s).
Proof.
  induction s as [|a s IH]; simpl; [discriminate|]. intros E.
  apply orb_true_iff in E as [E|E]; [left; apply Ascii.eqb_eq, E | auto].
Qed.

Lemma uint_chars (d : Decimal.uint) (c : ascii) :
  contains_char c (NilEmpty.string_of_uint d) = true ->
  In c (list_ascii_of_string "0123456789").
Proof.
  induction d; simpl NilEmpty.string_of_uint; [discriminate | ..];
    intros E; apply orb_true_iff in E as [E|E];
    try (apply IHd, E); apply Ascii.eqb_eq in E; subst c; simpl; tauto.
Qed.

(** Nothing [int] or [strip] removes is among the characters of [s]. *)
Ltac no_space_in H :=
  simpl in H;
  repeat (destruct H as [<-|H]; [reflexivity|]);
  destruct H.

Lemma uint_no_space (d : Decimal.uint) (c : ascii) :
  contains_char c (NilEmpty.string_of_uint d) = true ->
  int_isspace c = false /\ isspace c = false.
Proof.
  intros E. apply uint_chars in E. split; no_space_in E.
Qed.

Lemma int_digits (c : ascii) (r : string) (v : Z) (n : nat) :
  In c (list_ascii_of_string "0123456789") ->
  (forall x, contains_char x (String c r) = true -> int_isspace x = false) ->
  digits_from (String c r) 0 0 false = Some (v, n) ->
  (n <= int_max_str_digits)%nat ->
  int (String c r) = inr v.
Proof.
  intros Hc Hs Hd Hn. unfold int.
  rewrite lstrip_with_none, rstrip_with_none by exact Hs.
  apply Nat.ltb_ge in Hn. simpl in Hc.
  repeat (destruct Hc as [<-|Hc];
          [cbv iota beta; rewrite Hd, Hn; reflexivity|]).
  destruct Hc.
Qed.

Lemma int_unsigned (d : Decimal.uint) :
  d <> Decimal.Nil -> (Decimal.nb_digits d <= int_max_str_digits)%nat ->
  int (NilEmpty.string_of_uint d) = inr (Z.of_N (Pos.of_uint d)).
Proof.
  intros Hd Hn.
  pose proof (digits_from_uint d Hd 0 false) as Hv. simpl Nat.add in Hv.
  pose proof (uint_chars d) as Hc.
  pose proof (fun c E => proj1 (uint_no_space d c E)) as Hs.
  destruct (NilEmpty.string_of_uint d) as [|c r] eqn:E.
  - destruct d; [congruence | ..]; discriminate E.
  - apply (int_digits c r _ _ (Hc c (contains_char_first c r)) Hs Hv Hn).
Qed.

Lemma int_negative (d : Decimal.uint) :
  d <> Decimal.Nil -> (Decimal.nb_digits d <= int_max_str_digits)%nat ->
  int (String "-" (NilEmpty.string_of_uint d))
  = inr (- Z.of_N (Pos.of_uint d)).
Proof.
  intros Hd Hn. unfold int.
  assert (Hs : forall c,
             contains_char c (String "-" (NilEmpty.string_of_uint d)) = true ->
             int_isspace c = false).
  { intros c Hc. cbn [contains_char] in Hc.
    apply orb_true_iff in Hc as [Hc|Hc].
    - apply Ascii.eqb_eq in Hc. subst c. reflexivity.
    - apply (uint_no_space d c Hc). }
  rewrite lstrip_with_none, rstrip_with_none by exact Hs.
  cbv iota beta. rewrite (digits_from_uint d Hd). simpl Nat.add.
  apply Nat.ltb_ge in Hn. rewrite Hn. reflexivity.
Qed.

Lemma nilzero_nonnil (d : Decimal.uint) :
  d <> Decimal.Nil -> NilZero.string_of_uint d = NilEmpty.string_of_uint d.
Proof. destruct d; [congruence | ..]; reflexivity. Qed.

(** [int(str(z)) == z], up to the digit limit. *)
Lemma int_str_of_Z (z : Z) :
  (String.length (str_of_Z z) <= int_max_str_digits)%nat ->
  int (str_of_Z z) = inr z.
Proof.
  unfold str_of_Z. destruct z as [|p|p]; simpl Z.to_int;
    cbn [NilZero.string_of_int]; intros Hn.
  - reflexivity.
  - pose proof (DecimalPos.Unsigned.to_uint_nonnil p) as Hd.
    rewrite (nilzero_nonnil _ Hd) in *.
    rewrite string_of_uint_length in Hn.
    rewrite (int_unsigned _ Hd Hn), DecimalPos.Unsigned.of_to. reflexivity.
  - pose proof (DecimalPos.Unsigned.to_uint_nonnil p) as Hd.
    rewrite (nilzero_nonnil _ Hd) in *.
    cbn [String.length] in Hn. rewrite string_of_uint_length in Hn.
    rewrite (int_negative _ Hd), DecimalPos.Unsigned.of_to by lia. reflexivity.
Qed.

Lemma str_of_Z_no_space (z : Z) (c : ascii) :
  contains_char c (str_of_Z z) = true -> isspace c = false.
Proof.
  unfold str_of_Z. destruct z as [|p|p]; simpl Z.to_int;
    cbn [NilZero.string_of_int].
  - intros E. apply contains_char_in in E. no_space_in E.
  - rewrite (nilzero_nonnil _ (DecimalPos.Unsigned.to_uint_nonnil p)).
    intros E. apply (uint_no_space _ c E).
  - rewrite (nilzero_nonnil _ (DecimalPos.Unsigned.to_uint_nonnil p)).
    intros E. cbn [contains_char] in E. apply orb_true_iff in E as [E|E].
    + apply Ascii.eqb_eq in E. subst c. reflexivity.
    + apply (uint_no_space _ c E).
Qed.

Section Parser.

Context `{PyFloat}.

(** X5.  The title count is read back as written: for every
    integer [n] within the digit limit of [int], the line "TCOUNT:"
    followed by [str(n)] sets [title_count] to [n] and [message_type]
    to "TCOUNT", and changes nothing else but [raw_message]. *)
Theorem tcount_round_trip (p : MakeMKVParser) (n : Z) :
  (String.length (str_of_Z n) <= int_max_str_digits)%nat ->
  after_parse p ("TCOUNT:" ++ str_of_Z n)
  = set_title_count n
      (set_message_type "TCOUNT"
         (set_raw_message ("TCOUNT:" ++ str_of_Z n) p)).
Proof.
  intros Hn.
  assert (Hstrip : strip ("TCOUNT:" ++ str_of_Z n) = "TCOUNT:" ++ str_of_Z n).
  { assert (Hs : forall c,
               contains_char c ("TCOUNT:" ++ str_of_Z n) = true ->
               isspace c = false).
    { intros c Hc. rewrite contains_char_app in Hc.
      apply orb_true_iff in Hc as [Hc|Hc].
      - apply contains_char_in in Hc. no_space_in Hc.
      - apply (str_of_Z_no_space n c Hc). }
    unfold strip. rewrite lstrip_with_none, rstrip_with_none by exact Hs.
    reflexivity. }
  assert (Hsplit : split ("TCOUNT:" ++ str_of_Z n) ":" 1
                   = ["TCOUNT"; str_of_Z n]).
  { change ("TCOUNT:" ++ str_of_Z n)
      with ("TCOUNT" ++ String ":" (str_of_Z n)).
    unfold split.
    change (if 1 <? 0 then None else Some (Z.to_nat 1)) with (Some 1%nat).
    rewrite split_fields_first by reflexivity.
    rewrite split_fields_no_more. reflexivity. }
  unfold after_parse, parse, parse_try, bind, modify, try_except_Exception,
    gets, lift.
  cbn [raw_message set_raw_message fst snd]. rewrite Hstrip, Hsplit.
  cbn [unpack2].
  repeat match goal with
         | |- context [String.eqb "TCOUNT" ?t] =>
             let v := eval vm_compute in (String.eqb "TCOUNT" t) in
             change (String.eqb "TCOUNT" t) with v
         end.
  cbn [orb]. cbv iota.
  unfold parse_TCOUNT, bind, lift, modify. rewrite (int_str_of_Z n Hn).
  reflexivity.
Qed.

End Parser.

Lemma tcount_round_trip_witness :
  after_parse __init__ "TCOUNT:12"
  = set_title_count 12
      (set_message_type "TCOUNT" (set_raw_message "TCOUNT:12" __init__)).
Proof.
  apply (tcount_round_trip __init__ 12).
  apply Nat.leb_le. reflexivity.
Defined.

End NumberFacts.
